(** * oauth2-clientd: a shallow embedding of [oauth2_client/__init__.py]

    The development follows the Python module top to bottom: the Python
    data the code handles ([str], [bytes], exceptions), the library
    routines it calls where their behaviour matters (base64, the URL
    splitter, the query-string parser), and then the methods of
    [OAuth2Client] and of the two request handlers.

    Conventions.
    - A Python [bytes] object is a [list byte].
    - A Python [str] is a Rocq [string] holding its UTF-8 encoding, so
      that [bytes(s, 'utf-8')] and [s.encode()] are [list_byte_of_string]
      and [b.decode('utf-8')] is [string_of_list_byte] (the code only
      decodes base64 and PEM text, which is ASCII).
    - A raised exception is the [Err] branch of [result]. *)

From Stdlib Require Import Strings.String Strings.Ascii Strings.Byte.
From Stdlib Require Import ZArith Lia Bool.
From stdpp Require Import gmap strings list fin_maps.

Set Warnings "-register-all".
Local Open Scope string_scope.

(* ===================================================================== *)
(** ** Python exceptions and results                                      *)
(* ===================================================================== *)

(** The exception classes the module raises or lets through. *)
Inductive exn : Type :=
| ValueError (msg : string)
| RuntimeError (msg : string)
| NoTokenError (msg : string)
| NoPrivateKeyError (msg : string)
| BinasciiError (msg : string)
| KeyError (key : string)
| TypeError (msg : string).

Inductive result (A : Type) : Type :=
| Ok (a : A)
| Err (e : exn).
Arguments Ok {A} a.
Arguments Err {A} e.

#[global] Instance result_ret : MRet result := fun _ a => Ok a.
#[global] Instance result_bind : MBind result := fun _ _ f r =>
  match r with Ok a => f a | Err e => Err e end.
#[global] Instance result_fmap : FMap result := fun _ _ f r =>
  match r with Ok a => Ok (f a) | Err e => Err e end.

Definition is_ok {A} (r : result A) : bool :=
  match r with Ok _ => true | Err _ => false end.

(** [bytes(s, 'utf-8')] and [b.decode('utf-8')]. *)
Definition encode_utf8 (s : string) : list byte := list_byte_of_string s.
Definition decode_utf8 (b : list byte) : string := string_of_list_byte b.

(* ===================================================================== *)
(** ** base64 (the [base64] and [binascii] modules)                       *)
(* ===================================================================== *)

Module Base64.

(** Six bits, most significant first. *)
Inductive sextet : Type := Sextet (b5 b4 b3 b2 b1 b0 : bool).

(** A byte from its bits, most significant first. *)
Definition byte_of_msb (b7 b6 b5 b4 b3 b2 b1 b0 : bool) : byte :=
  Byte.of_bits (b0, (b1, (b2, (b3, (b4, (b5, (b6, b7))))))).

Definition bit (b : bool) (w : nat) : nat := if b then w else 0.

Definition sextet_to_nat (s : sextet) : nat :=
  let '(Sextet b5 b4 b3 b2 b1 b0) := s in
  bit b5 32 + bit b4 16 + bit b3 8 + bit b2 4 + bit b1 2 + bit b0 1.

Definition sextet_of_nat (n : nat) : sextet :=
  Sextet (Nat.testbit n 5) (Nat.testbit n 4) (Nat.testbit n 3)
         (Nat.testbit n 2) (Nat.testbit n 1) (Nat.testbit n 0).

(** [table_b2a_base64] of binascii.c. *)
Definition table_b2a_base64 : list byte :=
  list_byte_of_string
    "ABCDEFGHIJKLMNOPQRSTUVWXYZabcdefghijklmnopqrstuvwxyz0123456789+/".

Definition BASE64_PAD : byte := "="%byte.

Definition b2a_char (s : sextet) : byte :=
  nth (sextet_to_nat s) table_b2a_base64 BASE64_PAD.

Fixpoint index_of (c : byte) (l : list byte) (i : nat) : option nat :=
  match l with
  | [] => None
  | x :: l' => if Byte.eqb c x then Some i else index_of c l' (S i)
  end.

(** [table_a2b_base64]: the value of an alphabet character, [None] for
    every other byte (the C table holds a value >= 64 there). *)
Definition table_a2b_base64 (c : byte) : option sextet :=
  sextet_of_nat <$> index_of c table_b2a_base64 0.

(** The sextets of one, two and three input bytes. *)
Definition sextets3 (x y z : byte) : sextet * sextet * sextet * sextet :=
  let '(x0, (x1, (x2, (x3, (x4, (x5, (x6, x7))))))) := Byte.to_bits x in
  let '(y0, (y1, (y2, (y3, (y4, (y5, (y6, y7))))))) := Byte.to_bits y in
  let '(z0, (z1, (z2, (z3, (z4, (z5, (z6, z7))))))) := Byte.to_bits z in
  (Sextet x7 x6 x5 x4 x3 x2, Sextet x1 x0 y7 y6 y5 y4,
   Sextet y3 y2 y1 y0 z7 z6, Sextet z5 z4 z3 z2 z1 z0).

Definition zero_byte : byte := Byte.x00.

(** [binascii.b2a_base64(data, newline=False)]: three bytes give four
    characters, a final group of one or two bytes is padded with [=]. *)
Fixpoint b2a_base64 (data : list byte) : list byte :=
  match data with
  | [] => []
  | [x] =>
      let '(s0, s1, _, _) := sextets3 x zero_byte zero_byte in
      [b2a_char s0; b2a_char s1; BASE64_PAD; BASE64_PAD]
  | [x; y] =>
      let '(s0, s1, s2, _) := sextets3 x y zero_byte in
      [b2a_char s0; b2a_char s1; b2a_char s2; BASE64_PAD]
  | x :: y :: z :: rest =>
      let '(s0, s1, s2, s3) := sextets3 x y z in
      b2a_char s0 :: b2a_char s1 :: b2a_char s2 :: b2a_char s3
        :: b2a_base64 rest
  end.

(** The decoder state of [binascii.a2b_base64]: [quad_pos] together with
    the bits held in [leftchar]. *)
Inductive quad : Type :=
| Q0
| Q1 (left : sextet)
| Q2 (l3 l2 l1 l0 : bool)
| Q3 (l1 l0 : bool).

Definition quad_pos (q : quad) : nat :=
  match q with Q0 => 0 | Q1 _ => 1 | Q2 _ _ _ _ => 2 | Q3 _ _ => 3 end.

(** One alphabet character: the new state and the byte completed, if any
    (the [switch (quad_pos)] of the C loop). *)
Definition a2b_step (q : quad) (this : sextet) : quad * option byte :=
  let '(Sextet t5 t4 t3 t2 t1 t0) := this in
  match q with
  | Q0 => (Q1 this, None)
  | Q1 (Sextet a5 a4 a3 a2 a1 a0) =>
      (Q2 t3 t2 t1 t0, Some (byte_of_msb a5 a4 a3 a2 a1 a0 t5 t4))
  | Q2 l3 l2 l1 l0 =>
      (Q3 t1 t0, Some (byte_of_msb l3 l2 l1 l0 t5 t4 t3 t2))
  | Q3 l1 l0 =>
      (Q0, Some (byte_of_msb l1 l0 t5 t4 t3 t2 t1 t0))
  end.

Definition emit (o : option byte) (r : result (list byte)) : result (list byte) :=
  match o with
  | Some b => cons b <$> r
  | None => r
  end.

(** [binascii.a2b_base64(data)] in its default, non-strict mode: bytes
    outside the alphabet are skipped, a pad sequence that completes the
    quad ends the decoding, and input that stops inside a quad raises
    [binascii.Error]. *)
Fixpoint a2b_loop (input : list byte) (q : quad) (pads : nat)
  : result (list byte) :=
  match input with
  | [] =>
      match q with
      | Q0 => Ok []
      | Q1 _ => Err (BinasciiError "Invalid base64-encoded string")
      | _ => Err (BinasciiError "Incorrect padding")
      end
  | c :: rest =>
      if Byte.eqb c BASE64_PAD then
        if (2 <=? quad_pos q)%nat then
          if (4 <=? quad_pos q + S pads)%nat then Ok []
          else a2b_loop rest q (S pads)
        else a2b_loop rest q pads
      else
        match table_a2b_base64 c with
        | None => a2b_loop rest q pads
        | Some this =>
            let '(q', o) := a2b_step q this in
            emit o (a2b_loop rest q' 0)
        end
  end.

Definition a2b_base64 (data : list byte) : result (list byte) :=
  a2b_loop data Q0 0.

(** [bytes.translate] with [bytes.maketrans(b'+/', b'-_')] and its
    inverse. *)
Definition urlsafe_encode_translation (c : byte) : byte :=
  if Byte.eqb c "+"%byte then "-"%byte
  else if Byte.eqb c "/"%byte then "_"%byte else c.

Definition urlsafe_decode_translation (c : byte) : byte :=
  if Byte.eqb c "-"%byte then "+"%byte
  else if Byte.eqb c "_"%byte then "/"%byte else c.

(** [base64.urlsafe_b64encode] and [base64.urlsafe_b64decode]. *)
Definition urlsafe_b64encode (s : list byte) : list byte :=
  map urlsafe_encode_translation (b2a_base64 s).

Definition urlsafe_b64decode (s : list byte) : result (list byte) :=
  a2b_base64 (map urlsafe_decode_translation s).

(** The URL-safe alphabet: ASCII letters, digits, [-] and [_]. *)
Definition urlsafe_char (c : byte) : bool :=
  let n := Byte.to_nat c in
  ((65 <=? n) && (n <=? 90) || (97 <=? n) && (n <=? 122)
   || (48 <=? n) && (n <=? 57) || (n =? 45) || (n =? 95))%nat.

(** The characters the URL-safe encoder emits besides the pad. *)
Definition symbol (c : byte) : Prop :=
  exists s, c = urlsafe_encode_translation (b2a_char s).

(** The padding after an input of length [n] modulo 3. *)
Definition pad_of (n : nat) : list byte :=
  match n with
  | 0 => []
  | 1 => [BASE64_PAD; BASE64_PAD]
  | _ => [BASE64_PAD]
  end.

End Base64.


(* ===================================================================== *)
(** ** Python values                                                      *)
(* ===================================================================== *)

(** The values that reach [json.dumps]: what the registration, the client
    description and a token payload are made of.  A dictionary keeps its
    insertion order. *)
Inductive json : Type :=
| JNull
| JBool (b : bool)
| JInt (n : Z)
| JStr (s : string)
| JList (l : list json)
| JDict (d : list (string * json)).

(** [Dict[str, Any]]. *)
Definition pydict : Type := list (string * json).

Fixpoint dict_get (k : string) (d : pydict) : option json :=
  match d with
  | [] => None
  | (k', v) :: d' => if String.eqb k k' then Some v else dict_get k d'
  end.

(** [k in d]. *)
Definition dict_contains (k : string) (d : pydict) : bool :=
  match dict_get k d with Some _ => true | None => false end.

(** Truth value of an [Optional[Dict]]: [None] and the empty dictionary
    are false. *)
Definition dict_truthy (t : option pydict) : bool :=
  match t with
  | None | Some [] => false
  | Some (_ :: _) => true
  end.

(** Truth value of an [Optional[str]]: [None] and [''] are false. *)
Definition str_truthy (s : option string) : bool :=
  match s with
  | None | Some "" => false
  | Some _ => true
  end.

(** [len(s)] counts code points: in the UTF-8 encoding, the bytes that
    are not continuation bytes ([10xxxxxx]). *)
Definition is_continuation (c : ascii) : bool :=
  let '(Ascii _ _ _ _ _ _ b6 b7) := c in b7 && negb b6.

Fixpoint py_len (s : string) : nat :=
  match s with
  | EmptyString => 0
  | String c s' => if is_continuation c then py_len s' else S (py_len s')
  end.

(** An argument typed [Union[bytes, str]]. *)
Inductive bytes_or_str : Type :=
| PyBytes (b : list byte)
| PyStr (s : string).

(* ===================================================================== *)
(** ** Library routines taken as given                                    *)
(* ===================================================================== *)

(** The behaviour of [cryptography], [hashlib] and [json] is not part of
    this repository.  The development is parametric in it; what a theorem
    needs from these routines is stated as a hypothesis of that theorem. *)
Class Library : Type := {
  rsa_public_key : Type;
  rsa_private_key : Type;
  (** [rsa.generate_private_key(65537, 2048)] from the randomness used,
      [private_key.public_key()], and the two PEM serialisations. *)
  generate_private_key : list byte -> rsa_private_key;
  to_public_key : rsa_private_key -> rsa_public_key;
  private_bytes_pem : rsa_private_key -> list byte -> list byte;
  public_bytes_pem : rsa_public_key -> list byte;
  (** [public_key.encrypt(m, OAEP(MGF1(SHA256), SHA256, None))] with the
      OAEP seed, and [private_key.decrypt] with the same padding. *)
  rsa_oaep_encrypt : rsa_public_key -> list byte -> list byte -> list byte;
  rsa_oaep_decrypt : rsa_private_key -> list byte -> result (list byte);
  (** The AES block function: key, then the counter block as a 128-bit
      integer. *)
  aes_encrypt_block : list byte -> N -> list byte;
  (** [hashlib.sha256(b).digest()]. *)
  sha256 : list byte -> list byte;
  (** [json.dumps(v)], [json.dumps(v, sort_keys=True, indent=4)] and
      [json.loads(b)]. *)
  json_dumps : json -> string;
  json_dumps_pretty : json -> string;
  json_loads : list byte -> result json;
  (** The checks [urlsplit] runs on a network location besides the
      bracket test ([_check_bracketed_host], [_checknetloc]). *)
  netloc_checks : string -> bool
}.

(* ===================================================================== *)
(** ** urllib.parse                                                       *)
(* ===================================================================== *)

(** [urlsplit], [parse_qsl], [parse_qs] and [unquote] as in CPython 3.12,
    restricted to what [validate_authurl] observes: the query component,
    the keys of the parsed query, and the [ValueError] of [urlsplit]. *)
Module Urllib.

Definition code (c : ascii) : N := N_of_ascii c.

Definition in_range (lo hi : N) (c : ascii) : bool :=
  ((lo <=? code c) && (code c <=? hi))%N.

(** [c.isascii() and c.isalpha()]. *)
Definition is_ascii_alpha (c : ascii) : bool :=
  in_range 65 90 c || in_range 97 122 c.

Definition is_digit (c : ascii) : bool := in_range 48 57 c.

(** [c in scheme_chars]: letters, digits, [+], [-] and [.]. *)
Definition is_scheme_char (c : ascii) : bool :=
  is_ascii_alpha c || is_digit c
  || Ascii.eqb c "+" || Ascii.eqb c "-" || Ascii.eqb c ".".

Fixpoint str_forall (p : ascii -> bool) (s : string) : bool :=
  match s with
  | EmptyString => true
  | String c s' => p c && str_forall p s'
  end.

Fixpoint str_filter (p : ascii -> bool) (s : string) : string :=
  match s with
  | EmptyString => EmptyString
  | String c s' => if p c then String c (str_filter p s') else str_filter p s'
  end.

Fixpoint str_map (f : ascii -> ascii) (s : string) : string :=
  match s with
  | EmptyString => EmptyString
  | String c s' => String (f c) (str_map f s')
  end.

(** [c in s]. *)
Fixpoint str_mem (c : ascii) (s : string) : bool :=
  match s with
  | EmptyString => false
  | String c' s' => Ascii.eqb c c' || str_mem c s'
  end.

(** [s.lstrip(chars)] for a set of characters given as a predicate. *)
Fixpoint lstrip (p : ascii -> bool) (s : string) : string :=
  match s with
  | EmptyString => EmptyString
  | String c s' => if p c then lstrip p s' else s
  end.

(** [s.partition(sep)] for a one-character separator. *)
Fixpoint partition (sep : ascii) (s : string) : string * bool * string :=
  match s with
  | EmptyString => (EmptyString, false, EmptyString)
  | String c s' =>
      if Ascii.eqb c sep then (EmptyString, true, s')
      else let '(a, found, b) := partition sep s' in (String c a, found, b)
  end.

(** [s.split(sep)] for a one-character separator. *)
Fixpoint split (sep : ascii) (s : string) : list string :=
  match s with
  | EmptyString => [EmptyString]
  | String c s' =>
      if Ascii.eqb c sep then EmptyString :: split sep s'
      else match split sep s' with
           | [] => [String c EmptyString]
           | h :: t => String c h :: t
           end
  end.

(** [_WHATWG_C0_CONTROL_OR_SPACE]: the characters up to and including the
    space. *)
Definition is_c0_control_or_space (c : ascii) : bool := (code c <=? 32)%N.

(** [_UNSAFE_URL_BYTES_TO_REMOVE]: tab, carriage return, line feed. *)
Definition is_unsafe_url_byte (c : ascii) : bool :=
  ((code c =? 9) || (code c =? 13) || (code c =? 10))%N.

(** [_splitnetloc(url, 2)] on a [url] whose first two characters, [//],
    have been removed: the network location runs up to the first of
    [/], [?] and [#]. *)
Fixpoint splitnetloc (s : string) : string * string :=
  match s with
  | EmptyString => (EmptyString, EmptyString)
  | String c s' =>
      if Ascii.eqb c "/" || Ascii.eqb c "?" || Ascii.eqb c "#"
      then (EmptyString, s)
      else let '(n, r) := splitnetloc s' in (String c n, r)
  end.

(** The components of [SplitResult] used here. *)
Record SplitResult : Type := {
  netloc : string;
  path : string;
  query : string;
  fragment : string
}.

(** The scheme, when [url] starts with one, is cut off together with the
    colon. *)
Definition strip_scheme (url : string) : string :=
  let '(before, found, after) := partition ":" url in
  match before with
  | String c0 _ =>
      if found && is_ascii_alpha c0 && str_forall is_scheme_char before
      then after else url
  | EmptyString => url
  end.

Section with_library.
Context `{Library}.

Definition urlsplit (url0 : string) : result SplitResult :=
  let url := lstrip is_c0_control_or_space url0 in
  let url := str_filter (fun c => negb (is_unsafe_url_byte c)) url in
  let url := strip_scheme url in
  '(nl, url) ←
    match url with
    | String "/" (String "/" rest) =>
        let '(nl, url') := splitnetloc rest in
        if (str_mem "[" nl && negb (str_mem "]" nl))
           || (str_mem "]" nl && negb (str_mem "[" nl))
        then Err (ValueError "Invalid IPv6 URL")
        else if netloc_checks nl then Ok (nl, url')
        else Err (ValueError "netloc contains invalid characters")
    | _ => if netloc_checks "" then Ok ("", url)
           else Err (ValueError "netloc contains invalid characters")
    end;
  let '(url, _, frag) := partition "#" url in
  let '(url, _, qs) := partition "?" url in
  Ok {| netloc := nl; path := url; query := qs; fragment := frag |}.

End with_library.

Definition hex_value (c : ascii) : option N :=
  if is_digit c then Some (code c - 48)%N
  else if in_range 65 70 c then Some (code c - 55)%N
  else if in_range 97 102 c then Some (code c - 87)%N
  else None.

(** [unquote]: every [%XX] with two hexadecimal digits becomes the byte
    [XX].  Python then decodes the bytes as UTF-8 with [errors='replace'];
    that step changes bytes above 127 only and never yields an ASCII
    character, and it is left out here: the result is compared with ASCII
    keys only. *)
Fixpoint unquote (s : string) : string :=
  match s with
  | EmptyString => EmptyString
  | String c s' =>
      let keep := String c (unquote s') in
      if Ascii.eqb c "%" then
        match s' with
        | String h1 (String h2 s'') =>
            match hex_value h1, hex_value h2 with
            | Some a, Some b =>
                String (ascii_of_N (16 * a + b)) (unquote s'')
            | _, _ => keep
            end
        | _ => keep
        end
      else keep
  end.

(** [name.replace('+', ' ')]. *)
Definition plus_to_space (s : string) : string :=
  str_map (fun c => if Ascii.eqb c "+" then " "%char else c) s.

(** [parse_qsl(qs)] with its defaults: [&] separates the fields, a field
    without a value is dropped ([keep_blank_values=False]) and nothing
    raises ([strict_parsing=False]). *)
Definition parse_field (name_value : string) : option (string * string) :=
  match name_value with
  | EmptyString => None
  | _ =>
      let '(name, _, value) := partition "=" name_value in
      match value with
      | EmptyString => None
      | _ => Some (unquote (plus_to_space name), unquote (plus_to_space value))
      end
  end.

Definition parse_qsl (qs : string) : list (string * string) :=
  match qs with
  | EmptyString => []
  | _ => omap parse_field (split "&" qs)
  end.

(** [parse_qs(qs)]: the values of each name, in order of appearance. *)
Definition parse_qs (qs : string) : gmap string (list string) :=
  fold_left
    (fun (parsed_result : gmap string (list string)) (pair : string * string) =>
       let '(name, value) := pair in
       match parsed_result !! name with
       | Some vs => <[name := (vs ++ [value])%list]> parsed_result
       | None => <[name := [value]]> parsed_result
       end)
    (parse_qsl qs) ∅.

(** The name and the value of a field, as [partition('=')] splits it. *)
Definition field_name (name_value : string) : string :=
  fst (fst (partition "=" name_value)).

Definition field_value (name_value : string) : string :=
  snd (partition "=" name_value).

(** The field is called [name], once [+] and [%XX] are decoded. *)
Definition names_param (name name_value : string) : bool :=
  String.eqb (unquote (plus_to_space (field_name name_value))) name.

(** "The query string contains a [name] parameter": one of its
    [&]-separated fields is called [name]. *)
Definition query_has_param (name qs : string) : bool :=
  existsb (names_param name) (split "&" qs).

(** One of the fields is called [name] and has a value that is not
    empty. *)
Definition query_has_valued_param (name qs : string) : bool :=
  existsb (fun f => names_param name f
                    && negb (String.eqb (field_value f) ""))
          (split "&" qs).

End Urllib.
(* ===================================================================== *)
(** ** The world around the client: files, console, randomness            *)
(* ===================================================================== *)

Record file : Type := { f_mode : N; f_data : list byte }.

Definition mode_0600 : N := 384.
Definition mode_0666 : N := 438.

(** The operating-system calls behind [open(..., 'wb')], [os.chmod],
    [write], [close] and [os.rename].  A write is recorded byte by byte:
    every state a coarser [write(2)] sequence can expose is among the
    states of the finest one.  I/O errors are outside the model. *)
Inductive syscall : Type :=
| SysOpenTrunc (path : string)
| SysChmod (path : string) (mode : N)
| SysWrite (path : string) (b : byte)
| SysClose (path : string)
| SysRename (src dst : string).

Definition exec_syscall (umask : N) (fs : gmap string file) (c : syscall)
  : gmap string file :=
  match c with
  | SysOpenTrunc p =>
      match fs !! p with
      | Some f => <[p := {| f_mode := f_mode f; f_data := [] |}]> fs
      | None => <[p := {| f_mode := N.ldiff mode_0666 umask; f_data := [] |}]> fs
      end
  | SysChmod p m =>
      alter (fun f => {| f_mode := m; f_data := f_data f |}) p fs
  | SysWrite p b =>
      alter (fun f => {| f_mode := f_mode f; f_data := (f_data f ++ [b])%list |}) p fs
  | SysClose _ => fs
  | SysRename src dst =>
      match fs !! src with
      | Some f => <[dst := f]> (delete src fs)
      | None => fs
      end
  end.

Definition exec_syscalls (umask : N) (fs : gmap string file) (cs : list syscall)
  : gmap string file :=
  fold_left (exec_syscall umask) cs fs.

(** Every file-system state a concurrent observer can see while [cs]
    runs, the initial one included. *)
Fixpoint fs_trace (umask : N) (fs : gmap string file) (cs : list syscall)
  : list (gmap string file) :=
  match cs with
  | [] => [fs]
  | c :: cs' => fs :: fs_trace umask (exec_syscall umask fs c) cs'
  end.

(** What the user does at a prompt: a line, or Ctrl-C.  The end of the
    input list is the end of input ([EOFError], or [''] for [readline]). *)
Inductive input_event : Type :=
| Line (s : string)
| Interrupt.

Inductive event : Type :=
| Prompt (msg : string)
| Stdout (msg : string)
| Stderr (msg : string)
| Notify.

Record world : Type := {
  fs : gmap string file;
  umask : N;
  console_in : list input_event;
  events : list event;
  entropy : nat -> byte;
  entropy_pos : nat;
  stderr_isatty : bool
}.

(* ===================================================================== *)
(** ** class OAuth2Client                                                 *)
(* ===================================================================== *)

Section OAuth2Client.
Context `{Library}.

Record OAuth2Client : Type := {
  _registration : pydict;
  client : pydict;
  session_file_path : option string;
  public_key : option rsa_public_key;
  saved_session : gmap string json;
  token : option pydict;
  authurl : option string;
  debug : bool;
  verbose : bool
}.

(** A method: it may change the object and the world, and it returns or
    raises.  What was changed before an exception stays changed. *)
Definition M (A : Type) : Type :=
  OAuth2Client * world -> result A * (OAuth2Client * world).

Definition ret {A} (a : A) : M A := fun st => (Ok a, st).
Definition raise {A} (e : exn) : M A := fun st => (Err e, st).
Definition bind {A B} (m : M A) (k : A -> M B) : M B :=
  fun st => match m st with
            | (Ok a, st') => k a st'
            | (Err e, st') => (Err e, st')
            end.
Definition lift {A} (r : result A) : M A := fun st => (r, st).
Definition get_self : M OAuth2Client := fun st => (Ok (fst st), st).
Definition get_world : M world := fun st => (Ok (snd st), st).
Definition set_self (f : OAuth2Client -> OAuth2Client) : M unit :=
  fun st => (Ok tt, (f (fst st), snd st)).
Definition set_world (f : world -> world) : M unit :=
  fun st => (Ok tt, (fst st, f (snd st))).

Notation "'let*' x := m 'in' k" := (bind m (fun x => k))
  (at level 10, x pattern, m at level 100, k at level 200).
Notation "m ;;; k" := (bind m (fun _ => k))
  (at level 100, k at level 200, right associativity).

Definition with_session_file_path (p : option string) (o : OAuth2Client) :=
  {| _registration := _registration o; client := client o;
     session_file_path := p; public_key := public_key o;
     saved_session := saved_session o; token := token o;
     authurl := authurl o; debug := debug o; verbose := verbose o |}.

Definition with_public_key (k : option rsa_public_key) (o : OAuth2Client) :=
  {| _registration := _registration o; client := client o;
     session_file_path := session_file_path o; public_key := k;
     saved_session := saved_session o; token := token o;
     authurl := authurl o; debug := debug o; verbose := verbose o |}.

Definition with_saved_session (s : gmap string json) (o : OAuth2Client) :=
  {| _registration := _registration o; client := client o;
     session_file_path := session_file_path o; public_key := public_key o;
     saved_session := s; token := token o;
     authurl := authurl o; debug := debug o; verbose := verbose o |}.

Definition with_token (t : option pydict) (o : OAuth2Client) :=
  {| _registration := _registration o; client := client o;
     session_file_path := session_file_path o; public_key := public_key o;
     saved_session := saved_session o; token := t;
     authurl := authurl o; debug := debug o; verbose := verbose o |}.

Definition with_fs (f : gmap string file) (w : world) :=
  {| fs := f; umask := umask w; console_in := console_in w;
     events := events w; entropy := entropy w;
     entropy_pos := entropy_pos w; stderr_isatty := stderr_isatty w |}.

Definition with_console_in (i : list input_event) (w : world) :=
  {| fs := fs w; umask := umask w; console_in := i;
     events := events w; entropy := entropy w;
     entropy_pos := entropy_pos w; stderr_isatty := stderr_isatty w |}.

Definition with_events (e : list event) (w : world) :=
  {| fs := fs w; umask := umask w; console_in := console_in w;
     events := e; entropy := entropy w;
     entropy_pos := entropy_pos w; stderr_isatty := stderr_isatty w |}.

Definition with_entropy_pos (n : nat) (w : world) :=
  {| fs := fs w; umask := umask w; console_in := console_in w;
     events := events w; entropy := entropy w;
     entropy_pos := n; stderr_isatty := stderr_isatty w |}.

(** The events are kept oldest first. *)
Definition emit_event (e : event) : M unit :=
  set_world (fun w => with_events (events w ++ [e])%list w).

(** [os.urandom(n)]. *)
Definition urandom (n : nat) : M (list byte) :=
  fun st =>
    let w := snd st in
    (Ok (map (entropy w) (seq (entropy_pos w) n)),
     (fst st, with_entropy_pos (entropy_pos w + n) w)).

(** [print(message, file=sys.stderr)] when verbose, debugging, or not on a
    terminal. *)
Definition _log (message : string) : M unit :=
  let* self := get_self in
  let* w := get_world in
  if verbose self || debug self || negb (stderr_isatty w)
  then emit_event (Stderr message) else ret tt.

(** *** Keys and the new-vault password *)

Definition too_short_msg : string :=
  "Password too short.  Must be longer than 10 characters.".
Definition mismatch_msg : string := "Passwords don't match.  Try again.".
Definition new_password_prompt : string :=
  "Enter password for new private key (min 10 chars): ".

(** What [_init_saved_session] raises when the input is cancelled. *)
Definition cancelled_error : exn :=
  NoPrivateKeyError "Cannot create private key without password.".

(** The claim that the loop is bounded: some number of prompts is never
    exceeded, whatever the user types. *)
Definition retries_bounded (count : list input_event -> nat) : Prop :=
  exists bound, forall input, count input <= bound.

(** The [while password_bytes is None] loop of [_init_saved_session],
    by recursion on the remaining input: an iteration reads one or two
    entries, and the end of the input raises [EOFError] inside [getpass].
    The result is the accepted password, the input left over and the
    events of the loop. *)
Fixpoint password_loop (input : list input_event) (out : list event)
  : result (list byte) * list input_event * list event :=
  let out1 := (out ++ [Prompt new_password_prompt])%list in
  let cancelled rest evs := (Err cancelled_error, rest, evs) in
  match input with
  | [] => cancelled [] out1
  | Interrupt :: rest => cancelled rest out1
  | Line pw1 :: rest =>
      if (py_len pw1 <? 10)%nat then
        password_loop rest (out1 ++ [Stderr too_short_msg])%list
      else
        let out2 := (out1 ++ [Prompt "Repeat: "])%list in
        match rest with
        | [] => cancelled [] out2
        | Interrupt :: rest' => cancelled rest' out2
        | Line pw2 :: rest' =>
            if String.eqb pw1 pw2 then (Ok (encode_utf8 pw1), rest', out2)
            else password_loop rest' (out2 ++ [Stdout mismatch_msg])%list
        end
  end.

(** The number of times the loop asked for a new password. *)
Definition is_new_password_prompt (e : event) : bool :=
  match e with
  | Prompt msg => String.eqb msg new_password_prompt
  | _ => false
  end.

Definition prompts_shown (evs : list event) : nat :=
  length (List.filter is_new_password_prompt evs).

Definition attempts (input : list input_event) : nat :=
  prompts_shown (snd (password_loop input [])).

(** The bytes of randomness handed to the key generator. *)
Definition keygen_entropy : nat := 256.

Definition _init_saved_session : M unit :=
  let* w := get_world in
  let '(r, rest, evs) := password_loop (console_in w) (events w) in
  set_world (fun w => with_events evs (with_console_in rest w)) ;;;
  let* password_bytes := lift r in
  let* seed := urandom keygen_entropy in
  let private_key := generate_private_key seed in
  set_self (with_public_key (Some (to_public_key private_key))) ;;;
  let private_key_pem := private_bytes_pem private_key password_bytes in
  let public_key_pem := public_bytes_pem (to_public_key private_key) in
  set_self (with_saved_session
              (<["private_key" := JStr (decode_utf8 private_key_pem)]>
                 (<["public_key" := JStr (decode_utf8 public_key_pem)]> ∅))).

(** *** Encoding helpers *)

Definition as_bytes (data : bytes_or_str) : list byte :=
  match data with
  | PyBytes b => b
  | PyStr s => encode_utf8 s
  end.

Definition _encode_dict (dict_to_dump : json) : list byte :=
  Base64.urlsafe_b64encode (encode_utf8 (json_dumps dict_to_dump)).

Definition _decode_dict (json_dict : list byte) : result json :=
  text ← Base64.urlsafe_b64decode json_dict; json_loads text.

Definition _b64encode (data : bytes_or_str) : list byte :=
  Base64.urlsafe_b64encode (as_bytes data).

Definition _b64encode_str (data : list byte) : string :=
  decode_utf8 (_b64encode (PyBytes data)).

Definition _b64decode (data : bytes_or_str) : result (list byte) :=
  Base64.urlsafe_b64decode (as_bytes data).

(** *** AES in counter mode *)

Definition xor_byte (a b : byte) : byte :=
  let '(a0, (a1, (a2, (a3, (a4, (a5, (a6, a7))))))) := Byte.to_bits a in
  let '(b0, (b1, (b2, (b3, (b4, (b5, (b6, b7))))))) := Byte.to_bits b in
  Byte.of_bits (xorb a0 b0, (xorb a1 b1, (xorb a2 b2, (xorb a3 b3,
               (xorb a4 b4, (xorb a5 b5, (xorb a6 b6, xorb a7 b7))))))).

(** A byte string read as a big-endian integer. *)
Definition be_to_N (bs : list byte) : N :=
  fold_left (fun acc b => (acc * 256 + Byte.to_N b)%N) bs 0%N.

(** Byte [i] of the key stream: block [i / 16] is the encryption of the
    nonce plus [i / 16], modulo 2^128. *)
Definition keystream_byte (key nonce : list byte) (i : nat) : byte :=
  nth (i mod 16)
      (aes_encrypt_block key
         ((be_to_N nonce + N.of_nat (i / 16)) mod 2 ^ 128)%N)
      Base64.zero_byte.

Fixpoint ctr_update (key nonce : list byte) (i : nat) (data : list byte)
  : list byte :=
  match data with
  | [] => []
  | b :: rest =>
      xor_byte b (keystream_byte key nonce i) :: ctr_update key nonce (S i) rest
  end.

(** [Cipher(algorithms.AES(key), modes.CTR(nonce))] followed by
    [update(data) + finalize()]; encryptor and decryptor are the same
    function.  [AES] rejects keys that are not 128, 192 or 256 bits long
    and [CTR] a nonce that is not one block long. *)
Definition Cipher_AES_CTR (key nonce data : list byte) : result (list byte) :=
  if negb ((length key =? 16) || (length key =? 24) || (length key =? 32))%nat
  then Err (ValueError "Invalid key size for AES.")
  else if negb (length nonce =? 16)%nat
  then Err (ValueError "Invalid nonce size for CTR.")
  else Ok (ctr_update key nonce 0 data).

(** The seed length of OAEP with SHA-256. *)
Definition oaep_seed_len : nat := 32.

Definition _encrypt (data : list byte) : M (list byte * pydict) :=
  let* self := get_self in
  match public_key self with
  | None => raise (RuntimeError "No public key available")
  | Some pub =>
      let* key := urandom 32 in
      let* nonce := urandom 16 in
      let* seed := urandom oaep_seed_len in
      let params : pydict :=
        [ ("algo", JStr "AES");
          ("mode", JStr "CTR");
          ("key", JStr (_b64encode_str (rsa_oaep_encrypt pub seed key)));
          ("nonce", JStr (_b64encode_str nonce)) ] in
      let* encrypted_data := lift (Cipher_AES_CTR key nonce data) in
      ret (encrypted_data, params)
  end.

(** The string stored under [k], as [bytes(d[k], 'utf-8')] needs it. *)
Definition str_item (k : string) (d : option json) : result bytes_or_str :=
  match d with
  | None => Err (KeyError k)
  | Some (JStr s) => Ok (PyStr s)
  | Some _ => Err (TypeError "encoding without a string argument")
  end.

Definition dict_item (k : string) (d : option json) : result pydict :=
  match d with
  | None => Err (KeyError k)
  | Some (JDict d') => Ok d'
  | Some _ => Err (TypeError "string indices must be integers")
  end.

(** The decryption steps of [from_saved_session], from the unlocked
    private key to the parsed session dictionary. *)
Definition from_saved_session_decrypt (private_key : rsa_private_key)
    (saved_session : gmap string json) : result json :=
  cryptoparams ← dict_item "cryptoparams" (saved_session !! "cryptoparams");
  wrapped ← str_item "key" (dict_get "key" cryptoparams);
  wrapped ← _b64decode wrapped;
  key ← rsa_oaep_decrypt private_key wrapped;
  nonce ← str_item "nonce" (dict_get "nonce" cryptoparams);
  nonce ← _b64decode nonce;
  data ← str_item "data" (saved_session !! "data");
  data ← _b64decode data;
  data ← Cipher_AES_CTR key nonce data;
  text ← _b64decode (PyBytes data);
  json_loads text.

(** [priv] recovers every 32-byte key wrapped under [pub]. *)
Definition unwraps (priv : rsa_private_key) (pub : rsa_public_key) : Prop :=
  forall seed key, length key = 32 ->
    rsa_oaep_decrypt priv (rsa_oaep_encrypt pub seed key) = Ok key.

(** *** Persistence *)

(** The system calls of [_write_and_rename(data, filename)]. *)
Definition _write_and_rename_calls (data : bytes_or_str) (filename : string)
  : list syscall :=
  let tmp := filename ++ ".new" in
  ([SysOpenTrunc tmp; SysChmod tmp mode_0600]
   ++ map (SysWrite tmp) (as_bytes data)
   ++ [SysClose tmp; SysRename tmp filename])%list.

Definition _write_and_rename (data : bytes_or_str) (filename : string) : M unit :=
  set_world (fun w =>
    with_fs (exec_syscalls (umask w) (fs w) (_write_and_rename_calls data filename)) w).

Definition optional_dict (t : option pydict) : json :=
  match t with
  | Some d => JDict d
  | None => JNull
  end.

(** The dictionary [save_session] encrypts. *)
Definition data_dict (self : OAuth2Client) : json :=
  JDict [ ("client", JDict (client self));
          ("registration", JDict (_registration self));
          ("tokendata", optional_dict (token self)) ].

Definition no_path_error : exn :=
  ValueError "No path specified and no default available.".

(** The first statement of [save_session]: which path is used. *)
Definition resolve_path (path : option string) : M (option string) :=
  let* self := get_self in
  match path, session_file_path self with
  | None, Some (String _ _) => ret (session_file_path self)
  | Some (String _ _), None =>
      set_self (with_session_file_path path) ;;; ret path
  | _, _ => raise no_path_error
  end.

Definition save_session (path : option string) : M unit :=
  let* path := resolve_path path in
  let* self := get_self in
  let* (data, params) := _encrypt (_encode_dict (data_dict self)) in
  set_self (fun o => with_saved_session
                       (<["data" := JStr (_b64encode_str data)]> (saved_session o)) o) ;;;
  set_self (fun o => with_saved_session
                       (<["cryptoparams" := JDict params]> (saved_session o)) o) ;;;
  match path with
  | None => raise (RuntimeError "No session file named for write.")
  | Some path =>
      let* self := get_self in
      let jsondata := json_dumps_pretty (JDict (map_to_list (saved_session self))) in
      set_self (fun o => with_saved_session (delete "data" (saved_session o)) o) ;;;
      set_self (fun o => with_saved_session (delete "cryptoparams" (saved_session o)) o) ;;;
      _write_and_rename (PyStr jsondata) path
  end.

(** *** Token refresh *)

(** [refreshed] is what [self.session.refresh_token(...)] returned or
    raised. *)
Definition refresh_token (refreshed : result pydict) : M unit :=
  _log "Starting token refresh" ;;;
  let* new_token := lift refreshed in
  _log "Token refreshed" ;;;
  set_self (with_token (Some new_token)) ;;;
  emit_event Notify ;;;
  save_session None.

(** *** PKCE *)

(** [s.rstrip(b'=')]. *)
Fixpoint rstrip_pad (s : list byte) : list byte :=
  match s with
  | [] => []
  | c :: s' =>
      match rstrip_pad s' with
      | [] => if Byte.eqb c Base64.BASE64_PAD then [] else [c]
      | r => c :: r
      end
  end.

(** [secrets.token_urlsafe(nbytes)] from the random bytes drawn. *)
Definition token_urlsafe (tok : list byte) : string :=
  decode_utf8 (rstrip_pad (Base64.urlsafe_b64encode tok)).

(** [_generate_pkce_context] from the bytes [secrets.token_bytes(90)]
    returned. *)
Definition pkce_context (tok : list byte) : string * pydict :=
  let verifier := token_urlsafe tok in
  let digest := sha256 (encode_utf8 verifier) in
  let challenge := decode_utf8 (removelast (Base64.urlsafe_b64encode digest)) in
  let pkce_challenge : pydict :=
    [ ("code_challenge_method", JStr "S256");
      ("code_challenge", JStr challenge) ] in
  (verifier, pkce_challenge).

Definition _generate_pkce_context : M (string * pydict) :=
  let* tok := urandom 90 in
  ret (pkce_context tok).

(** *** Redirect validation *)

Definition validate_authurl (url : string) : result bool :=
  parts ← Urllib.urlsplit url;
  let qvars := Urllib.parse_qs (Urllib.query parts) in
  Ok (bool_decide (is_Some (qvars !! "code"))).

(** The acceptance rule in the words of the specification: a candidate is
    accepted exactly when it parses as a URL whose query string contains
    a [code] parameter. *)
Definition accepts_iff_has_code : Prop :=
  forall url,
    validate_authurl url = Ok true <->
    exists parts, Urllib.urlsplit url = Ok parts
                  /\ Urllib.query_has_param "code" (Urllib.query parts) = true.

End OAuth2Client.

(* ===================================================================== *)
(** ** class _TokenSocketHandler                                          *)
(* ===================================================================== *)

(** What a handler sends on its connection, in order: status lines, the
    headers it adds itself, the end of the headers, and body writes. *)
Inductive wire : Type :=
| WStatus (code : nat)
| WHeader (name value : string)
| WEndHeaders
| WBody (b : list byte).

Module TokenSocketHandler.

Definition do_HEAD : list wire :=
  [WStatus 200; WHeader "Content-type" "text/plain"; WEndHeaders].

(** [do_GET] against the token of the client object: what was sent, and
    how the method ended. *)
Definition do_GET (token : option pydict) : list wire * result unit :=
  let sent := do_HEAD in
  match token with
  | Some ((_ :: _) as t) =>
      match dict_get "access_token" t with
      | None => (sent, Err (NoTokenError "Cannot retreive access token"))
      | Some (JStr response) =>
          ((sent ++ [WBody (encode_utf8 response)])%list, Ok tt)
      | Some _ => (sent, Err (TypeError "encoding without a string argument"))
      end
  | _ => (sent, Err (NoTokenError "Cannot retreive access token"))
  end.

(** The status lines and the body bytes of what was sent. *)
Definition statuses (ws : list wire) : list nat :=
  omap (fun w => match w with WStatus c => Some c | _ => None end) ws.

Definition body (ws : list wire) : list byte :=
  concat (omap (fun w => match w with WBody b => Some b | _ => None end) ws).

Definition content_types (ws : list wire) : list string :=
  omap (fun w => match w with
                 | WHeader "Content-type" v => Some v
                 | _ => None
                 end) ws.

End TokenSocketHandler.

(* ===================================================================== *)
(** ** The race for the authorization URL                                 *)
(* ===================================================================== *)

(** [_RedirectURIHandler.do_GET] runs in one thread per request,
    [_wait_for_authurl_on_stdin] in the main thread; they share
    [authurl] and [authurl_lock].  Each thread is a program counter, a
    step of a thread is one statement of the source, and a run is any
    interleaving of such steps. *)
Module AuthRace.

Inductive page : Type :=
| AlreadyProvided      (* _write_already_provided *)
| RedirectCompleted    (* _write_redirect_completed *)
| InvalidRequest.      (* _write_invalid_request *)

Inductive tid : Type :=
| Reader
| Handler (n : nat).

#[global] Instance tid_eq_dec : EqDecision tid.
Proof. solve_decision. Defined.

(** Where a [do_GET] thread stands. *)
Inductive handler_pc : Type :=
| HStart (path : string)   (* request read, [do_GET] not started *)
| HWaitLock (url : string) (* [validate_authurl] was true; at [with authurl_lock] *)
| HTest (url : string)     (* lock held; at [if server.context.authurl] *)
| HStore (url : string)    (* lock held; at [server.context.authurl = path] *)
| HUnlock (p : page)       (* page written; leaving the [with] block *)
| HDone (p : page)
| HRaised (e : exn).

(** How the reader leaves its [with] block. *)
Inductive leave : Type :=
| Continue   (* [continue], or the end of the loop body *)
| Break
| Raise (e : exn).

(** Where [_wait_for_authurl_on_stdin] stands. *)
Inductive reader_pc : Type :=
| RSelect                   (* at [select.select] *)
| RWaitLock (readers : bool) (* at [with self.authurl_lock] *)
| RTest (readers : bool)    (* lock held; at [if not self.authurl and readers] *)
| RRead                     (* lock held; at [sys.stdin.readline()] *)
| RStore (url : string)     (* lock held; at [self.authurl = url] *)
| RBreakTest                (* lock held; at [if self.authurl: break] *)
| RUnlock (l : leave)       (* leaving the [with] block *)
| RDone
| RRaised (e : exn).

Record config : Type := {
  slot : option string;          (* authurl *)
  lock : option tid;             (* the holder of authurl_lock *)
  reader : reader_pc;
  handlers : list handler_pc;
  stdout : list string;
  stores : list (tid * string)   (* every assignment to authurl, oldest first *)
}.

Definition authurl_prompt : string := "Please enter the full callback URL: ".
Definition no_authcode_msg : string := "Error: No authcode provided.".
Definition canceled_msg : string :=
  "<canceled>" ++ String (ascii_of_N 10) "Response provided by browser session.".

(** [_wait_for_authurl_on_stdin] has printed its prompt and is about to
    enter the loop; the listener has no request yet. *)
Definition init : config :=
  {| slot := None; lock := None; reader := RSelect; handlers := [];
     stdout := [authurl_prompt]; stores := [] |}.

Definition set_reader (pc : reader_pc) (c : config) : config :=
  {| slot := slot c; lock := lock c; reader := pc; handlers := handlers c;
     stdout := stdout c; stores := stores c |}.

Definition set_handler (n : nat) (pc : handler_pc) (c : config) : config :=
  {| slot := slot c; lock := lock c; reader := reader c;
     handlers := <[n := pc]> (handlers c);
     stdout := stdout c; stores := stores c |}.

Definition set_lock (l : option tid) (c : config) : config :=
  {| slot := slot c; lock := l; reader := reader c; handlers := handlers c;
     stdout := stdout c; stores := stores c |}.

Definition print (msg : string) (c : config) : config :=
  {| slot := slot c; lock := lock c; reader := reader c; handlers := handlers c;
     stdout := (stdout c ++ [msg])%list; stores := stores c |}.

Definition store (t : tid) (url : string) (c : config) : config :=
  {| slot := Some url; lock := lock c; reader := reader c; handlers := handlers c;
     stdout := stdout c; stores := (stores c ++ [(t, url)])%list |}.

Section with_library.
Context `{Library}.

(** One statement of the [do_GET] thread [n]; [None] when the thread
    cannot move (it waits for the lock, or it has ended). *)
Definition handler_step (n : nat) (c : config) : option config :=
  pc ← handlers c !! n;
  match pc with
  | HStart path =>
      let url := "http://localhost" ++ path in
      match validate_authurl url with
      | Ok true => Some (set_handler n (HWaitLock url) c)
      | Ok false => Some (set_handler n (HDone InvalidRequest) c)
      | Err e => Some (set_handler n (HRaised e) c)
      end
  | HWaitLock url =>
      match lock c with
      | None => Some (set_handler n (HTest url) (set_lock (Some (Handler n)) c))
      | Some _ => None
      end
  | HTest url =>
      if str_truthy (slot c)
      then Some (set_handler n (HUnlock AlreadyProvided) c)
      else Some (set_handler n (HStore url) c)
  | HStore url =>
      Some (set_handler n (HUnlock RedirectCompleted) (store (Handler n) url c))
  | HUnlock p => Some (set_handler n (HDone p) (set_lock None c))
  | HDone _ | HRaised _ => None
  end.

(** One statement of the reader.  [ready] is what [select] reports and
    [line] what [readline] returns or raises; each is used only by the
    statement that asks for it. *)
Definition reader_step (ready : bool) (line : input_event) (c : config)
  : option config :=
  match reader c with
  | RSelect => Some (set_reader (RWaitLock ready) c)
  | RWaitLock readers =>
      match lock c with
      | None => Some (set_reader (RTest readers) (set_lock (Some Reader) c))
      | Some _ => None
      end
  | RTest readers =>
      if negb (str_truthy (slot c)) && readers
      then Some (set_reader RRead c)
      else if str_truthy (slot c)
      then Some (set_reader RBreakTest (print canceled_msg c))
      else Some (set_reader RBreakTest c)
  | RRead =>
      match line with
      | Line url =>
          match validate_authurl url with
          | Ok true => Some (set_reader (RStore url) c)
          | Ok false =>
              Some (set_reader (RUnlock Continue)
                      (print authurl_prompt (print no_authcode_msg c)))
          | Err e => Some (set_reader (RUnlock (Raise e)) c)
          end
      | Interrupt => Some (set_reader (RUnlock Break) c)
      end
  | RStore url => Some (set_reader RBreakTest (store Reader url c))
  | RBreakTest =>
      if str_truthy (slot c)
      then Some (set_reader (RUnlock Break) c)
      else Some (set_reader (RUnlock Continue) c)
  | RUnlock l =>
      let next := match l with
                  | Continue => RSelect
                  | Break => RDone
                  | Raise e => RRaised e
                  end in
      Some (set_reader next (set_lock None c))
  | RDone | RRaised _ => None
  end.

(** What can happen next: the server starts a handler thread for a new
    request, a handler thread runs one statement, or the reader does. *)
Inductive label : Type :=
| Request (path : string)
| HandlerStep (n : nat)
| ReaderStep (ready : bool) (line : input_event).

Definition step (l : label) (c : config) : option config :=
  match l with
  | Request path =>
      Some {| slot := slot c; lock := lock c; reader := reader c;
              handlers := (handlers c ++ [HStart path])%list;
              stdout := stdout c; stores := stores c |}
  | HandlerStep n => handler_step n c
  | ReaderStep ready line => reader_step ready line c
  end.

Fixpoint run (ls : list label) (c : config) : option config :=
  match ls with
  | [] => Some c
  | l :: ls' => c' ← step l c; run ls' c'
  end.

Definition reachable (c : config) : Prop := exists ls, run ls init = Some c.

(** The thread a label belongs to, if any. *)
Definition actor (l : label) : option tid :=
  match l with
  | Request _ => None
  | HandlerStep n => Some (Handler n)
  | ReaderStep _ _ => Some Reader
  end.

End with_library.

(** The program points inside a [with authurl_lock] block. *)
Definition h_critical (pc : handler_pc) : bool :=
  match pc with
  | HTest _ | HStore _ | HUnlock _ => true
  | _ => false
  end.

Definition r_critical (pc : reader_pc) : bool :=
  match pc with
  | RTest _ | RRead | RStore _ | RBreakTest | RUnlock _ => true
  | _ => false
  end.

(** What a handler thread may assume at its program point: a thread
    about to store has seen the slot empty, and the URL a thread carries
    past validation is not the empty string. *)
Definition handler_ok (st : list (tid * string)) (n : nat) (pc : handler_pc)
  : Prop :=
  match pc with
  | HStore url => st = [] /\ url <> ""
  | HWaitLock url | HTest url => url <> ""
  | HUnlock RedirectCompleted | HDone RedirectCompleted =>
      exists url, st = [(Handler n, url)]
  | _ => True
  end.

Definition reader_ok (st : list (tid * string)) (pc : reader_pc) : Prop :=
  match pc with
  | RRead => st = []
  | RStore url => st = [] /\ url <> ""
  | _ => True
  end.

(** The slot holds the one URL that was stored, if any. *)
Definition slot_ok (c : config) : Prop :=
  (stores c = [] /\ slot c = None)
  \/ (exists t url, stores c = [(t, url)] /\ slot c = Some url /\ url <> "").

(** The invariant of the race: the lock is held by exactly the thread
    that is inside its [with] block, and the slot was assigned at most
    once. *)
Record inv (c : config) : Prop := {
  inv_reader_lock : r_critical (reader c) = bool_decide (lock c = Some Reader);
  inv_handler_lock : forall n pc,
    handlers c !! n = Some pc ->
    h_critical pc = bool_decide (lock c = Some (Handler n));
  inv_lock_range : forall n, lock c = Some (Handler n) -> n < length (handlers c);
  inv_slot : slot_ok c;
  inv_reader : reader_ok (stores c) (reader c);
  inv_handlers : forall n pc,
    handlers c !! n = Some pc -> handler_ok (stores c) n pc
}.

End AuthRace.

(* ===================================================================== *)
(** ** Schedules of the race                                              *)
(* ===================================================================== *)

Module Schedule.
Import AuthRace.

(** The label under which thread [t] moves. *)
Definition own (t : tid) (ready : bool) (line : input_event) : label :=
  match t with
  | Reader => ReaderStep ready line
  | Handler n => HandlerStep n
  end.

(** The user pressed Ctrl-C during this step. *)
Definition is_interrupt (l : label) : bool :=
  match l with
  | ReaderStep _ Interrupt => true
  | _ => false
  end.

(** The URL a handler thread carries past validation. *)
Definition carried (pc : handler_pc) : option string :=
  match pc with
  | HWaitLock url | HTest url | HStore url => Some url
  | _ => None
  end.

(** Whether thread [t] is inside its [with authurl_lock] block. *)
Definition inside (t : tid) (c : config) : bool :=
  match t with
  | Reader => r_critical (reader c)
  | Handler n =>
      match handlers c !! n with
      | Some pc => h_critical pc
      | None => false
      end
  end.

(** One pass of the reader through its loop with a line waiting on
    stdin: [select], the lock, the test, [readline], and then either the
    way out of the [with] block (the line was rejected) or the store, the
    [break] test and the way out (the line was accepted). *)
Definition rejected_round (line : string) : list label :=
  replicate 5 (ReaderStep true (Line line)).

Definition accepted_round (line : string) : list label :=
  replicate 7 (ReaderStep true (Line line)).

(** One pass with nothing to read: [select] timed out. *)
Definition idle_round : list label :=
  replicate 5 (ReaderStep false (Line "")).

End Schedule.

(** What the race keeps true about the URLs in flight: every URL that was
    stored, and every URL a thread carries towards the store, passed
    [validate_authurl]; the ones of the listener are [http://localhost]
    followed by the request path. *)
Section checked_urls.
Context `{Library}.
Import AuthRace.

Definition from_listener (url : string) : Prop :=
  exists path, url = "http://localhost" ++ path.

Record urls_checked (c : config) : Prop := {
  checked_stores : forall t url,
    (t, url) ∈ stores c -> validate_authurl url = Ok true;
  checked_handler_stores : forall n url,
    (Handler n, url) ∈ stores c -> from_listener url;
  checked_handlers : forall n pc url,
    handlers c !! n = Some pc -> Schedule.carried pc = Some url ->
    validate_authurl url = Ok true /\ from_listener url;
  checked_reader : forall url,
    reader c = RStore url -> validate_authurl url = Ok true
}.

(** Within [bound] steps under the label [l], the lock is free again. *)
Definition releases_within (bound : nat) (l : label) (c : config) : Prop :=
  exists k c', 1 <= k <= bound
               /\ run (replicate k l) c = Some c' /\ lock c' = None.

End checked_urls.

(* ===================================================================== *)
(** ** Helpers of the class                                                *)
(* ===================================================================== *)

(** [_b64decode_str]: the body calls [urlsafe_b64encode]. *)
Definition _b64decode_str (data : bytes_or_str) : string :=
  decode_utf8 (Base64.urlsafe_b64encode (as_bytes data)).

(** A byte that [urlsafe_b64decode] passes over: after the translation
    of [-] and [_] it is neither the pad nor in the alphabet. *)
Definition skipped_by_decoder (c : byte) : bool :=
  let c' := Base64.urlsafe_decode_translation c in
  negb (Byte.eqb c' Base64.BASE64_PAD)
  && match Base64.table_a2b_base64 c' with Some _ => false | None => true end.

(** A character of base64url text: the alphabet, or the pad. *)
Definition base64url_text (c : byte) : Prop :=
  Base64.urlsafe_char c = true \/ c = Base64.BASE64_PAD.

(* ===================================================================== *)
(** ** Handing out the access token                                       *)
(* ===================================================================== *)

Section TokenOutputs.
Context `{Library}.

Notation "'let*' x := m 'in' k" := (bind m (fun x => k))
  (at level 10, x pattern, m at level 100, k at level 200).
Notation "m ;;; k" := (bind m (fun _ => k))
  (at level 100, k at level 200, right associativity).

(** [print(message, file=sys.stderr)] when debugging or not on a
    terminal. *)
Definition _debug (message : string) : M unit :=
  let* self := get_self in
  let* w := get_world in
  if debug self || negb (stderr_isatty w)
  then emit_event (Stderr message) else ret tt.

(** Truth value of a Python value. *)
Definition py_truthy (v : json) : bool :=
  match v with
  | JNull => false
  | JBool b => b
  | JInt n => negb (n =? 0)%Z
  | JStr s => negb (String.eqb s "")
  | JList l => match l with [] => false | _ => true end
  | JDict d => match d with [] => false | _ => true end
  end.

(** [not self.token or not 'access_token' in self.token]. *)
Definition token_unavailable (t : option pydict) : bool :=
  match t with
  | Some ((_ :: _) as d) => negb (dict_contains "access_token" d)
  | _ => true
  end.

(** [self.token['access_token']]. *)
Definition token_item (t : option pydict) : result json :=
  match t with
  | None => Err (TypeError "'NoneType' object is not subscriptable")
  | Some d =>
      match dict_get "access_token" d with
      | Some v => Ok v
      | None => Err (KeyError "access_token")
      end
  end.

Definition get_access_token : M json :=
  let* self := get_self in
  if token_unavailable (token self)
  then raise (NoTokenError "No access token available")
  else lift (token_item (token self)).

(** [_write_and_rename] on any value.  What is neither [bytes] nor [str]
    makes [bytes(data, 'utf-8')] raise inside the [with] block: the file
    was opened, and leaving the block closes it. *)
Definition _write_and_rename_value (data : json) (filename : string) : M unit :=
  match data with
  | JStr s => _write_and_rename (PyStr s) filename
  | _ =>
      let tmp := filename ++ ".new" in
      set_world (fun w =>
        with_fs (exec_syscalls (umask w) (fs w) [SysOpenTrunc tmp; SysClose tmp]) w) ;;;
      raise (TypeError "encoding without a string argument")
  end.

Definition write_access_token (filename : string) : M unit :=
  let* self := get_self in
  if token_unavailable (token self)
  then raise (NoTokenError "No access token available.")
  else
    let* access_token := lift (token_item (token self)) in
    _write_and_rename_value access_token filename.

(** *** The file writer thread *)

(** What another thread did around an iteration of [_file_writer], and
    whether [_file_thread_exit] is set when the iteration tests it.
    [refreshed] is a token that [refresh_token] stored before the
    iteration took the lock.  [late_refresh] is one that it stored after
    the iteration compared: while the thread sat in
    [token_changed.wait()] (it is what wakes the thread up), wrote the
    file, or was on its way to the exit test.  The iteration does not
    look at the token again, so a late refresh is seen by the next
    iteration, if there is one. *)
Record round : Type := {
  refreshed : option pydict;
  late_refresh : option pydict;
  exit_set : bool
}.

(** How a run over finitely many iterations stands: still in the loop,
    or returned; in both cases with the local [my_token]. *)
Inductive writer_state : Type :=
| Running (my_token : option string)
| Exited (my_token : option string).

Definition last_written (st : writer_state) : option string :=
  match st with Running m | Exited m => m end.

(** [my_token == v] for a [my_token] that is [None] or a [str]. *)
Definition token_eq (my_token : option string) (v : json) : bool :=
  match my_token, v with
  | None, JNull => true
  | Some s, JStr s' => String.eqb s s'
  | _, _ => false
  end.

Definition unavailable_error : exn :=
  NoTokenError "Access token changed but is unavailable.".

Definition writing_msg (filename : string) : string :=
  "Writing out new access token to " ++ filename.

(** The [while True] loop of [_file_writer], one round per iteration.
    [token_changed.wait()] returns when the thread is woken up; the
    iteration goes on to its exit test without reading the token, and
    the next iteration looks at the token again. *)
Fixpoint file_writer_loop (filename : string) (rounds : list round)
    (my_token : option string) : M writer_state :=
  match rounds with
  | [] => ret (Running my_token)
  | r :: rest =>
      match refreshed r with
      | Some t => set_self (with_token (Some t))
      | None => ret tt
      end ;;;
      let* self := get_self in
      let* v := lift (token_item (token self)) in
      let* my_token :=
        if token_eq my_token v then
          if str_truthy my_token then ret my_token else raise unavailable_error
        else if py_truthy v then
          _log (writing_msg filename) ;;;
          _write_and_rename_value v filename ;;;
          ret (match v with JStr s => Some s | _ => None end)
        else raise unavailable_error in
      match late_refresh r with
      | Some t => set_self (with_token (Some t))
      | None => ret tt
      end ;;;
      if exit_set r
      then _debug "_file_writer: Exiting" ;;; ret (Exited my_token)
      else file_writer_loop filename rest my_token
  end.

Definition _file_writer (filename : string) (rounds : list round)
  : M writer_state :=
  let* self := get_self in
  if token_unavailable (token self)
  then raise (NoTokenError "No access token available.")
  else file_writer_loop filename rounds None.

(** The file [_write_and_rename] leaves behind for a string. *)
Definition token_file (s : string) : file :=
  {| f_mode := mode_0600; f_data := encode_utf8 s |}.

(** The object as an iteration finds it. *)
Definition after_refresh (r : round) (self : OAuth2Client) : OAuth2Client :=
  match refreshed r with
  | Some t => with_token (Some t) self
  | None => self
  end.

(** The object as the iteration leaves it. *)
Definition after_late (r : round) (self : OAuth2Client) : OAuth2Client :=
  match late_refresh r with
  | Some t => with_token (Some t) self
  | None => self
  end.

(** The iterations a run that does not raise goes through: all of them
    up to the first that finds the exit event set. *)
Fixpoint processed (rounds : list round) : list round :=
  match rounds with
  | [] => []
  | r :: rest => if exit_set r then [r] else r :: processed rest
  end.

(** A wake-up with nothing new and no request to stop. *)
Definition idle (r : round) : Prop :=
  refreshed r = None /\ late_refresh r = None /\ exit_set r = false.

End TokenOutputs.

(* ===================================================================== *)
(** ** Opening a saved session                                            *)
(* ===================================================================== *)




Definition unlock_prompt : string := "Enter password for private key: ".

Definition unlock_cancelled : exn :=
  NoPrivateKeyError "Cannot unlock private key without password.".

Section LoadSession.
Context `{Library}.

(** [serialization.load_pem_private_key(pem, password)] and
    [serialization.load_pem_public_key(pem)] of [cryptography], taken as
    given. *)
Class Serialization : Type := {
  load_pem_private_key : list byte -> list byte -> result rsa_private_key;
  load_pem_public_key : list byte -> result rsa_public_key
}.

Context `{Serialization}.

(** The [while private_key is None] loop of [from_saved_session], by
    recursion on the remaining input.  A blank entry is not tried; a
    [ValueError] of the loader is printed and the loop asks again; any
    other exception of the loader leaves the method. *)
Fixpoint unlock_loop (pem : list byte) (input : list input_event)
    (out : list event)
  : result rsa_private_key * list input_event * list event :=
  let out1 := (out ++ [Prompt unlock_prompt])%list in
  match input with
  | [] => (Err unlock_cancelled, [], out1)
  | Interrupt :: rest => (Err unlock_cancelled, rest, out1)
  | Line password :: rest =>
      if String.eqb password "" then unlock_loop pem rest out1
      else
        match load_pem_private_key pem (encode_utf8 password) with
        | Ok private_key => (Ok private_key, rest, out1)
        | Err (ValueError msg) =>
            unlock_loop pem rest (out1 ++ [Stdout msg])%list
        | Err e => (Err e, rest, out1)
        end
  end.

(** An entry the loop does not stop at: it is blank, or the loader
    answers it with a [ValueError]. *)
Definition turned_away (pem : list byte) (ev : input_event) : Prop :=
  exists password,
    ev = Line password
    /\ (password = ""
        \/ exists msg,
             load_pem_private_key pem (encode_utf8 password)
             = Err (ValueError msg)).



(** The document [save_session] serialises: the saved session with the
    [data] and [cryptoparams] that [_encrypt] produces in this world. *)
Definition session_document (self : OAuth2Client) (w : world)
  : gmap string json :=
  match fst (_encrypt (_encode_dict (data_dict self)) (self, w)) with
  | Ok (data, params) =>
      <["cryptoparams" := JDict params]>
        (<["data" := JStr (_b64encode_str data)]> (saved_session self))
  | Err _ => saved_session self
  end.

End LoadSession.

(* ===================================================================== *)
(** ** The listeners                                                      *)
(* ===================================================================== *)

(** The HTTP servers the class creates: the redirect listener on a
    port of 127.0.0.1, and the token listener on a Unix socket. *)
Inductive server : Type :=
| RedirectServer (port : nat)
| TokenSocketServer (filename : string).

#[global] Instance server_eq_dec : EqDecision server.
Proof. solve_decision. Defined.

(** [self._server], and the server whose [serve_forever] runs in
    [self._server_thread]. *)
Record listener : Type := {
  _server : option server;
  _server_thread : option server
}.

Definition mode_0777 : N := 511.

Section Listeners.
Context `{Library}.

(** How a call ends: it returns or raises, or it never returns. *)
Inductive ending : Type :=
| Ends (r : result unit) (l : listener) (st : OAuth2Client * world)
| Blocks.

(** The state after [self._debug(message)]. *)
Definition say (message : string) (st : OAuth2Client * world)
  : OAuth2Client * world :=
  snd (_debug message st).

Definition _start_server (l : listener) (st : OAuth2Client * world) : ending :=
  match _server_thread l with
  | Some _ => Ends (Err (RuntimeError "Server thread already running.")) l st
  | None =>
      match _server l with
      | None => Ends (Err (RuntimeError "HTTP server not set up yet.")) l st
      | Some s => Ends (Ok tt) {| _server := Some s; _server_thread := Some s |} st
      end
  end.

(** [shutdown()] returns once the [serve_forever] loop of the server has
    ended, so it waits for ever on a server that no thread serves;
    [join()] returns once the thread has ended, which it does after its
    server was shut down. *)
Definition _stop_server (l : listener) (st : OAuth2Client * world) : ending :=
  match _server l with
  | Some s =>
      let st1 := say "Telling HTTP server to shutdown" st in
      if decide (_server_thread l = Some s) then
        Ends (Ok tt) {| _server := None; _server_thread := None |}
          (say "HTTP server has shutdown"
             (say "Waiting for HTTP server to shutdown" st1))
      else Blocks
  | None =>
      match _server_thread l with
      | Some _ => Blocks
      | None => Ends (Ok tt) l st
      end
  end.

(** [os.path.exists], [os.unlink], the [bind] of the server's socket and
    [os.chmod] on the file system. *)
Definition bind_socket_file (filename : string) (w : world) : world :=
  let fs1 := match fs w !! filename with
             | Some _ => delete filename (fs w)
             | None => fs w
             end in
  let fs2 := <[filename := {| f_mode := N.ldiff mode_0777 (umask w);
                              f_data := [] |}]> fs1 in
  with_fs (alter (fun f => {| f_mode := mode_0600; f_data := f_data f |})
                 filename fs2) w.

Definition start_socket_listener (filename : string) (l : listener)
    (st : OAuth2Client * world) : ending :=
  match _server l, _server_thread l with
  | None, None =>
      let st1 := say ("Starting HTTP listener on " ++ filename) st in
      _start_server
        {| _server := Some (TokenSocketServer filename); _server_thread := None |}
        (fst st1, bind_socket_file filename (snd st1))
  | _, _ => Ends (Err (RuntimeError "Server already running")) l st
  end.

Definition stop_socket_listener : listener -> OAuth2Client * world -> ending :=
  _stop_server.

End Listeners.

(* ===================================================================== *)
(** ** A small instance of the library                                    *)
(* ===================================================================== *)

(** An instance of [Library] on which the definitions can be evaluated.
    It stands for no real cipher: keys are trivial, OAEP leaves the
    message as it is, the block function repeats the key, the digest
    keeps the length of SHA-256 only, and [json] knows the empty
    dictionary. *)
Definition toy_library : Library :=
  {| rsa_public_key := unit;
     rsa_private_key := unit;
     generate_private_key := fun _ => tt;
     to_public_key := fun _ => tt;
     private_bytes_pem := fun _ password => password;
     public_bytes_pem := fun _ => [];
     rsa_oaep_encrypt := fun _ _ m => m;
     rsa_oaep_decrypt := fun _ c => Ok c;
     aes_encrypt_block := fun key _ => take 16 key;
     sha256 := fun _ => replicate 32 Byte.x00;
     json_dumps := fun _ => "{}";
     json_dumps_pretty := fun _ => "{}";
     json_loads := fun _ => Ok (JDict []);
     netloc_checks := fun _ => true |}.

Definition toy_world : world :=
  {| fs := ∅;
     umask := 18;
     console_in := [];
     events := [];
     entropy := fun n => default Byte.x00 (Byte.of_nat (n mod 256));
     entropy_pos := 0;
     stderr_isatty := true |}.

(** A client as [__init__] leaves it, with a public key set. *)
Definition toy_client : @OAuth2Client toy_library :=
  {| _registration := [("token_endpoint", JStr "https://example.org/token")];
     client := [("client_id", JStr "id")];
     session_file_path := None;
     public_key := Some (tt : @rsa_public_key toy_library);
     saved_session := ∅;
     token := None;
     authurl := None;
     debug := false;
     verbose := false |}.

(** The same instance with a [json.loads] that answers [d]: enough to
    read back a document whose plaintext is [d]. *)
Definition reading_library (d : json) : Library :=
  {| rsa_public_key := unit;
     rsa_private_key := unit;
     generate_private_key := fun _ => tt;
     to_public_key := fun _ => tt;
     private_bytes_pem := fun _ password => password;
     public_bytes_pem := fun _ => [];
     rsa_oaep_encrypt := fun _ _ m => m;
     rsa_oaep_decrypt := fun _ c => Ok c;
     aes_encrypt_block := fun key _ => take 16 key;
     sha256 := fun _ => replicate 32 Byte.x00;
     json_dumps := fun _ => "{}";
     json_dumps_pretty := fun _ => "{}";
     json_loads := fun _ => Ok d;
     netloc_checks := fun _ => true |}.

Definition reading_client (d : json) (path : option string)
    (key : option (@rsa_public_key (reading_library d)))
  : @OAuth2Client (reading_library d) :=
  {| _registration := [("token_endpoint", JStr "https://example.org/token")];
     client := [("client_id", JStr "id")];
     session_file_path := path;
     public_key := key;
     saved_session := ∅;
     token := None;
     authurl := None;
     debug := false;
     verbose := false |}.

(** The session of [reading_client] once its token is [tok]. *)
Definition example_session (tok : option pydict) : json :=
  JDict [ ("client", JDict [("client_id", JStr "id")]);
          ("registration",
           JDict [("token_endpoint", JStr "https://example.org/token")]);
          ("tokendata", optional_dict tok) ].

(** The small instance with [json.loads] given, and the two
    serialisations told apart. *)
Definition vault_library (loads : list byte -> result json) : Library :=
  {| rsa_public_key := unit;
     rsa_private_key := unit;
     generate_private_key := fun _ => tt;
     to_public_key := fun _ => tt;
     private_bytes_pem := fun _ password => password;
     public_bytes_pem := fun _ => [];
     rsa_oaep_encrypt := fun _ _ m => m;
     rsa_oaep_decrypt := fun _ c => Ok c;
     aes_encrypt_block := fun key _ => take 16 key;
     sha256 := fun _ => replicate 32 Byte.x00;
     json_dumps := fun _ => "{}";
     json_dumps_pretty := fun _ => "{ }";
     json_loads := loads;
     netloc_checks := fun _ => true |}.

(** A loader for it: the PEM text of a private key is its password. *)
Definition vault_serialization (loads : list byte -> result json)
  : @Serialization (vault_library loads) :=
  {| load_pem_private_key := fun pem password =>
       if String.eqb (decode_utf8 pem) (decode_utf8 password)
       then Ok (tt : @rsa_private_key (vault_library loads))
       else Err (ValueError "Bad decrypt. Incorrect password?");
     load_pem_public_key := fun _ =>
       Ok (tt : @rsa_public_key (vault_library loads)) |}.

(** A client whose vault was made with the password [correct horse],
    holding the token [t1]. *)
Definition vault_client (loads : list byte -> result json)
  : @OAuth2Client (vault_library loads) :=
  {| _registration := [("token_endpoint", JStr "https://example.org/token")];
     client := [("client_id", JStr "id")];
     session_file_path := None;
     public_key := Some (tt : @rsa_public_key (vault_library loads));
     saved_session :=
       <["private_key" := JStr "correct horse"]>
         (<["public_key" := JStr ""]> ∅);
     token := Some [("access_token", JStr "t1")];
     authurl := None;
     debug := false;
     verbose := false |}.

(** The document its first save writes, and a [json.loads] that reads
    the two texts of this instance. *)
Definition vault_document : gmap string json :=
  session_document (vault_client (fun _ => Ok JNull)) toy_world.

Definition vault_loads (b : list byte) : result json :=
  if String.eqb (decode_utf8 b) "{}"
  then Ok (example_session (Some [("access_token", JStr "t1")]))
  else Ok (JDict (map_to_list vault_document)).

(** A run of the race on the small instance: a redirect arrives while
    the reader sits in [select]; the handler validates, takes the lock,
    finds the slot empty, stores, answers and gives the lock back; the
    reader then takes the lock and stands at its test. *)
Definition race_example : list AuthRace.label :=
  [ AuthRace.Request "/?code=abc123&state=xyz";
    AuthRace.HandlerStep 0;
    AuthRace.ReaderStep false (Line "");
    AuthRace.HandlerStep 0;
    AuthRace.HandlerStep 0;
    AuthRace.HandlerStep 0;
    AuthRace.HandlerStep 0;
    AuthRace.ReaderStep false (Line "") ].

Definition race_example_config : AuthRace.config :=
  Eval vm_compute in
    default AuthRace.init (@AuthRace.run toy_library race_example AuthRace.init).

(** The manual path on the small instance: one line is typed and
    accepted. *)
Definition manual_example : list AuthRace.label :=
  Schedule.accepted_round "http://localhost:8080/?code=abc123".

Definition manual_example_config : AuthRace.config :=
  Eval vm_compute in
    default AuthRace.init (@AuthRace.run toy_library manual_example AuthRace.init).

(* ===================================================================== *)
(** * Properties                                                          *)
(* ===================================================================== *)

(** ** base64 *)

Module Base64Facts.
Import Base64.

Lemma list_ind3 {A} (P : list A -> Prop) :
  P [] -> (forall x, P [x]) -> (forall x y, P [x; y]) ->
  (forall x y z r, P r -> P (x :: y :: z :: r)) ->
  forall l, P l.
Proof.
  intros H0 H1 H2 H3.
  refine (fix IH l : P l :=
            match l with
            | [] => H0
            | [x] => H1 x
            | [x; y] => H2 x y
            | x :: y :: z :: r => H3 x y z r (IH r)
            end).
Qed.

Ltac all_sextets s :=
  destruct s as [[] [] [] [] [] []]; vm_compute; reflexivity.

Lemma table_a2b_b2a s : table_a2b_base64 (b2a_char s) = Some s.
Proof. all_sextets s. Qed.

Lemma b2a_char_not_pad s : Byte.eqb (b2a_char s) BASE64_PAD = false.
Proof. all_sextets s. Qed.

Lemma urlsafe_translation_inv s :
  urlsafe_decode_translation (urlsafe_encode_translation (b2a_char s))
  = b2a_char s.
Proof. all_sextets s. Qed.

Lemma urlsafe_translation_safe s :
  urlsafe_char (urlsafe_encode_translation (b2a_char s)) = true.
Proof. all_sextets s. Qed.

Lemma urlsafe_translation_not_pad s :
  Byte.eqb (urlsafe_encode_translation (b2a_char s)) BASE64_PAD = false.
Proof. all_sextets s. Qed.

Lemma a2b_loop_char s rest q pads :
  a2b_loop (b2a_char s :: rest) q pads
  = let '(q', o) := a2b_step q s in emit o (a2b_loop rest q' 0).
Proof.
  cbn [a2b_loop]. rewrite b2a_char_not_pad, table_a2b_b2a. reflexivity.
Qed.

Lemma a2b_loop_pad rest q pads :
  a2b_loop (BASE64_PAD :: rest) q pads
  = if (2 <=? quad_pos q)%nat then
      if (4 <=? quad_pos q + S pads)%nat then Ok []
      else a2b_loop rest q (S pads)
    else a2b_loop rest q pads.
Proof. reflexivity. Qed.

Lemma byte_of_msb_to_bits x x0 x1 x2 x3 x4 x5 x6 x7 :
  Byte.to_bits x = (x0, (x1, (x2, (x3, (x4, (x5, (x6, x7))))))) ->
  byte_of_msb x7 x6 x5 x4 x3 x2 x1 x0 = x.
Proof.
  intros Hx. unfold byte_of_msb. rewrite <- Hx. apply Byte.of_bits_to_bits.
Qed.

(** Decoding what the encoder produced gives the input back. *)
Lemma a2b_b2a data : a2b_base64 (b2a_base64 data) = Ok data.
Proof.
  unfold a2b_base64. induction data as [|x|x y|x y z r IH] using list_ind3.
  - reflexivity.
  - cbn [b2a_base64]. unfold sextets3.
    destruct (Byte.to_bits x) as (x0&x1&x2&x3&x4&x5&x6&x7) eqn:Hx.
    change (Byte.to_bits zero_byte)
      with (false, (false, (false, (false, (false, (false, (false, false))))))).
    cbv iota beta.
    repeat (rewrite a2b_loop_char; cbn [a2b_step emit]). rewrite !a2b_loop_pad.
    cbn [quad_pos Nat.leb Nat.add emit fmap result_fmap].
    erewrite byte_of_msb_to_bits by eassumption. reflexivity.
  - cbn [b2a_base64]. unfold sextets3.
    destruct (Byte.to_bits x) as (x0&x1&x2&x3&x4&x5&x6&x7) eqn:Hx.
    destruct (Byte.to_bits y) as (y0&y1&y2&y3&y4&y5&y6&y7) eqn:Hy.
    change (Byte.to_bits zero_byte)
      with (false, (false, (false, (false, (false, (false, (false, false))))))).
    cbv iota beta.
    repeat (rewrite a2b_loop_char; cbn [a2b_step emit]). rewrite !a2b_loop_pad.
    cbn [quad_pos Nat.leb Nat.add emit fmap result_fmap].
    erewrite !byte_of_msb_to_bits by eassumption. reflexivity.
  - cbn [b2a_base64]. unfold sextets3.
    destruct (Byte.to_bits x) as (x0&x1&x2&x3&x4&x5&x6&x7) eqn:Hx.
    destruct (Byte.to_bits y) as (y0&y1&y2&y3&y4&y5&y6&y7) eqn:Hy.
    destruct (Byte.to_bits z) as (z0&z1&z2&z3&z4&z5&z6&z7) eqn:Hz.
    cbv iota beta.
    repeat (rewrite a2b_loop_char; cbn [a2b_step emit]). rewrite IH.
    cbn [emit fmap result_fmap].
    erewrite !byte_of_msb_to_bits by eassumption. reflexivity.
Qed.

Lemma symbol_intro s : symbol (urlsafe_encode_translation (b2a_char s)).
Proof. exists s. reflexivity. Qed.

Lemma length_mod3 {A} (x y z : A) r :
  length (x :: y :: z :: r) mod 3 = length r mod 3.
Proof.
  replace (length (x :: y :: z :: r)) with (length r + 1 * 3) by (simpl; lia).
  apply Nat.Div0.mod_add.
Qed.

(** The output is a run of symbols followed by the padding the input
    length calls for. *)
Lemma urlsafe_b64encode_shape data :
  exists body, Forall symbol body /\
    urlsafe_b64encode data = (body ++ pad_of (length data mod 3))%list.
Proof.
  unfold urlsafe_b64encode.
  induction data as [|x|x y|x y z r IH] using list_ind3.
  - exists []. split; [constructor | reflexivity].
  - cbn [b2a_base64]. destruct (sextets3 x zero_byte zero_byte) as [[[s0 s1] s2] s3].
    exists [urlsafe_encode_translation (b2a_char s0);
            urlsafe_encode_translation (b2a_char s1)].
    split; [repeat constructor; apply symbol_intro | reflexivity].
  - cbn [b2a_base64]. destruct (sextets3 x y zero_byte) as [[[s0 s1] s2] s3].
    exists [urlsafe_encode_translation (b2a_char s0);
            urlsafe_encode_translation (b2a_char s1);
            urlsafe_encode_translation (b2a_char s2)].
    split; [repeat constructor; apply symbol_intro | reflexivity].
  - destruct IH as (body & Hbody & IH).
    cbn [b2a_base64]. destruct (sextets3 x y z) as [[[s0 s1] s2] s3].
    exists (urlsafe_encode_translation (b2a_char s0)
            :: urlsafe_encode_translation (b2a_char s1)
            :: urlsafe_encode_translation (b2a_char s2)
            :: urlsafe_encode_translation (b2a_char s3) :: body).
    split; [repeat constructor; try apply symbol_intro; assumption |].
    rewrite length_mod3. cbn [map]. rewrite IH. reflexivity.
Qed.

Lemma urlsafe_translation_b2a data :
  map urlsafe_decode_translation (map urlsafe_encode_translation (b2a_base64 data))
  = b2a_base64 data.
Proof.
  induction data as [|x|x y|x y z r IH] using list_ind3.
  - reflexivity.
  - cbn [b2a_base64]. destruct (sextets3 x zero_byte zero_byte) as [[[s0 s1] s2] s3].
    cbn [map]. rewrite !urlsafe_translation_inv. reflexivity.
  - cbn [b2a_base64]. destruct (sextets3 x y zero_byte) as [[[s0 s1] s2] s3].
    cbn [map]. rewrite !urlsafe_translation_inv. reflexivity.
  - cbn [b2a_base64]. destruct (sextets3 x y z) as [[[s0 s1] s2] s3].
    cbn [map]. rewrite !urlsafe_translation_inv, IH. reflexivity.
Qed.

(** [urlsafe_b64decode] undoes [urlsafe_b64encode]. *)
Lemma urlsafe_b64decode_encode data :
  urlsafe_b64decode (urlsafe_b64encode data) = Ok data.
Proof.
  unfold urlsafe_b64decode, urlsafe_b64encode.
  rewrite urlsafe_translation_b2a. apply a2b_b2a.
Qed.

Lemma symbol_not_pad c : symbol c -> Byte.eqb c BASE64_PAD = false.
Proof. intros [s ->]. apply urlsafe_translation_not_pad. Qed.

Lemma symbol_urlsafe c : symbol c -> urlsafe_char c = true.
Proof. intros [s ->]. apply urlsafe_translation_safe. Qed.

End Base64Facts.

(** ** Results, bytes and strings *)

Lemma result_bind_Ok {A B} (a : A) (f : A -> result B) : (Ok a ≫= f) = f a.
Proof. reflexivity. Qed.

Lemma result_bind_Err {A B} (e : exn) (f : A -> result B) :
  (Err e ≫= f) = Err e.
Proof. reflexivity. Qed.

Lemma encode_decode_utf8 b : encode_utf8 (decode_utf8 b) = b.
Proof. apply list_byte_of_string_of_list_byte. Qed.

Lemma decode_encode_utf8 s : decode_utf8 (encode_utf8 s) = s.
Proof. apply string_of_list_byte_of_string. Qed.

(** ** PKCE *)

Section Pkce.
Context `{Library}.
Import Base64 Base64Facts.

Lemma rstrip_pad_pad_of n : rstrip_pad (pad_of n) = [].
Proof. destruct n as [|[|n]]; reflexivity. Qed.

Lemma rstrip_pad_app body pads :
  Forall symbol body -> rstrip_pad pads = [] ->
  rstrip_pad (body ++ pads) = body.
Proof.
  intros Hbody Hpads. induction Hbody as [|c body Hc Hbody IH]; [exact Hpads|].
  cbn [app rstrip_pad]. rewrite IH.
  destruct body; [|reflexivity]. rewrite (symbol_not_pad c Hc). reflexivity.
Qed.

(** On an input whose length is a multiple of three nothing is stripped. *)
Lemma rstrip_pad_encode_0 data :
  length data mod 3 = 0 ->
  rstrip_pad (urlsafe_b64encode data) = urlsafe_b64encode data
  /\ Forall symbol (urlsafe_b64encode data).
Proof.
  intros Hlen. destruct (urlsafe_b64encode_shape data) as (body & Hbody & Heq).
  rewrite Hlen in Heq. cbn [pad_of] in Heq. rewrite app_nil_r in Heq.
  rewrite Heq. split; [|assumption].
  rewrite <- (app_nil_r body) at 1. apply rstrip_pad_app; [assumption|reflexivity].
Qed.

(** On an input of length 2 modulo 3, dropping the last character is
    stripping the padding. *)
Lemma removelast_encode_2 data :
  length data mod 3 = 2 ->
  removelast (urlsafe_b64encode data) = rstrip_pad (urlsafe_b64encode data).
Proof.
  intros Hlen. destruct (urlsafe_b64encode_shape data) as (body & Hbody & Heq).
  rewrite Hlen in Heq. cbn [pad_of] in Heq. rewrite Heq.
  rewrite removelast_last. symmetry. apply rstrip_pad_app; [assumption|reflexivity].
Qed.

Lemma length_urandom_bytes (w : world) n :
  length (map (entropy w) (seq (entropy_pos w) n)) = n.
Proof. rewrite length_map. apply length_seq. Qed.

(** C6.  [_generate_pkce_context] draws 90 random bytes; the verifier is
    their URL-safe base64 text (it decodes back to all 90 bytes and uses
    URL-safe characters only), the challenge is the base64url text of the
    SHA-256 digest of the verifier with its padding removed, and the
    method is S256. *)
Theorem generate_pkce_context_spec (self : OAuth2Client) (w : world) :
  (forall b, length (sha256 b) = 32) ->
  exists verifier challenge w',
    _generate_pkce_context (self, w)
    = (Ok (verifier, [ ("code_challenge_method", JStr "S256");
                       ("code_challenge", JStr challenge) ]), (self, w'))
    /\ entropy_pos w' = entropy_pos w + 90
    /\ urlsafe_b64decode (encode_utf8 verifier)
       = Ok (map (entropy w) (seq (entropy_pos w) 90))
    /\ Forall (fun c => urlsafe_char c = true) (encode_utf8 verifier)
    /\ challenge
       = decode_utf8
           (rstrip_pad (urlsafe_b64encode (sha256 (encode_utf8 verifier)))).
Proof.
  intros Hsha.
  set (tok := map (entropy w) (seq (entropy_pos w) 90)).
  assert (Htok : length tok mod 3 = 0).
  { unfold tok. rewrite length_urandom_bytes. reflexivity. }
  destruct (rstrip_pad_encode_0 tok Htok) as [Hstrip Hsym].
  exists (token_urlsafe tok).
  exists (decode_utf8
            (rstrip_pad (urlsafe_b64encode (sha256 (encode_utf8 (token_urlsafe tok)))))).
  exists (with_entropy_pos (entropy_pos w + 90) w).
  assert (Hver : encode_utf8 (token_urlsafe tok) = urlsafe_b64encode tok).
  { unfold token_urlsafe. rewrite Hstrip. apply encode_decode_utf8. }
  repeat split.
  - unfold _generate_pkce_context, bind, urandom, ret, pkce_context. cbn [fst snd].
    fold tok. rewrite removelast_encode_2; [reflexivity|].
    rewrite Hsha. reflexivity.
  - rewrite Hver. apply urlsafe_b64decode_encode.
  - rewrite Hver. eapply Forall_impl; [exact Hsym|]. apply symbol_urlsafe.
Qed.

End Pkce.

(** The PKCE statement on the small instance of the library. *)
Lemma generate_pkce_context_spec_witness :
  (forall b, length (@sha256 toy_library b) = 32)
  /\ exists verifier challenge w',
      @_generate_pkce_context toy_library (toy_client, toy_world)
      = (Ok (verifier, [ ("code_challenge_method", JStr "S256");
                         ("code_challenge", JStr challenge) ]),
         (toy_client, w'))
      /\ entropy_pos w' = entropy_pos toy_world + 90
      /\ Base64.urlsafe_b64decode (encode_utf8 verifier)
         = Ok (map (entropy toy_world) (seq (entropy_pos toy_world) 90))
      /\ Forall (fun c => Base64.urlsafe_char c = true) (encode_utf8 verifier)
      /\ challenge
         = decode_utf8
             (rstrip_pad
                (Base64.urlsafe_b64encode
                   (@sha256 toy_library (encode_utf8 verifier)))).
Proof.
  split.
  - intros b. reflexivity.
  - apply (@generate_pkce_context_spec toy_library toy_client toy_world).
    intros b. reflexivity.
Defined.

(** ** The session cipher *)

Section SessionCrypto.
Context `{Library}.
Import Base64 Base64Facts.

Lemma xor_byte_involutive a k : xor_byte (xor_byte a k) k = a.
Proof.
  unfold xor_byte.
  destruct (Byte.to_bits a) as (a0&a1&a2&a3&a4&a5&a6&a7) eqn:Ha.
  destruct (Byte.to_bits k) as (k0&k1&k2&k3&k4&k5&k6&k7) eqn:Hk.
  rewrite Byte.to_bits_of_bits.
  rewrite !xorb_assoc, !xorb_nilpotent, !xorb_false_r.
  rewrite <- Ha. apply Byte.of_bits_to_bits.
Qed.

Lemma ctr_update_involutive key nonce data i :
  ctr_update key nonce i (ctr_update key nonce i data) = data.
Proof.
  revert i. induction data as [|b data IH]; intros i; [reflexivity|].
  cbn [ctr_update]. rewrite xor_byte_involutive, IH. reflexivity.
Qed.

(** The stream cipher is its own inverse. *)
Lemma Cipher_AES_CTR_involutive key nonce data c :
  Cipher_AES_CTR key nonce data = Ok c ->
  Cipher_AES_CTR key nonce c = Ok data.
Proof.
  unfold Cipher_AES_CTR.
  destruct (negb _); [discriminate|]. destruct (negb _); [discriminate|].
  intros [= <-]. rewrite ctr_update_involutive. reflexivity.
Qed.

Lemma _b64decode_b64encode_str data :
  _b64decode (PyStr (_b64encode_str data)) = Ok data.
Proof.
  unfold _b64decode, _b64encode_str, _b64encode, as_bytes.
  rewrite encode_decode_utf8. apply urlsafe_b64decode_encode.
Qed.

(** C1.  What [_encrypt(_encode_dict(D))] produces, stored by
    [save_session] under [data] and [cryptoparams], is turned back into
    [D] by the decryption steps of [from_saved_session]: unwrap the AES
    key with the private key, apply AES-CTR with the stored nonce,
    base64url-decode and parse.  The private key must match the public
    key, and [json] must round-trip [D]. *)
Theorem session_crypto_round_trip
    (priv : rsa_private_key) (pub : rsa_public_key) (D : json)
    (self : OAuth2Client) (w : world) (saved : gmap string json) :
  public_key self = Some pub ->
  unwraps priv pub ->
  json_loads (encode_utf8 (json_dumps D)) = Ok D ->
  exists data params w',
    _encrypt (_encode_dict D) (self, w) = (Ok (data, params), (self, w'))
    /\ from_saved_session_decrypt priv
         (<["cryptoparams" := JDict params]>
            (<["data" := JStr (_b64encode_str data)]> saved))
       = Ok D.
Proof.
  intros Hpub Hpair Hjson.
  set (key := map (entropy w) (seq (entropy_pos w) 32)).
  set (w1 := with_entropy_pos (entropy_pos w + 32) w).
  set (nonce := map (entropy w1) (seq (entropy_pos w1) 16)).
  set (w2 := with_entropy_pos (entropy_pos w1 + 16) w1).
  set (seed := map (entropy w2) (seq (entropy_pos w2) oaep_seed_len)).
  set (w3 := with_entropy_pos (entropy_pos w2 + oaep_seed_len) w2).
  assert (Hkey : length key = 32) by apply length_urandom_bytes.
  assert (Hnonce : length nonce = 16) by apply length_urandom_bytes.
  assert (Henc : Cipher_AES_CTR key nonce (_encode_dict D)
                 = Ok (ctr_update key nonce 0 (_encode_dict D))).
  { unfold Cipher_AES_CTR. rewrite Hkey, Hnonce. reflexivity. }
  exists (ctr_update key nonce 0 (_encode_dict D)).
  exists [ ("algo", JStr "AES"); ("mode", JStr "CTR");
           ("key", JStr (_b64encode_str (rsa_oaep_encrypt pub seed key)));
           ("nonce", JStr (_b64encode_str nonce)) ].
  exists w3.
  split.
  - unfold _encrypt, bind, get_self, urandom, lift, ret. cbn [fst snd].
    rewrite Hpub. cbn [fst snd]. fold key. fold w1. fold nonce. fold w2. fold seed. fold w3.
    rewrite Henc. reflexivity.
  - unfold from_saved_session_decrypt.
    rewrite lookup_insert_eq. cbn [dict_item]. rewrite result_bind_Ok.
    cbn [dict_get String.eqb Ascii.eqb Bool.eqb str_item].
    rewrite result_bind_Ok, _b64decode_b64encode_str, result_bind_Ok.
    rewrite (Hpair seed key Hkey), !result_bind_Ok.
    rewrite _b64decode_b64encode_str, result_bind_Ok.
    rewrite lookup_insert_ne by discriminate. rewrite lookup_insert_eq.
    cbn [str_item].
    rewrite result_bind_Ok, _b64decode_b64encode_str, result_bind_Ok.
    rewrite (Cipher_AES_CTR_involutive _ _ _ _ Henc), result_bind_Ok.
    unfold _b64decode, _encode_dict, as_bytes.
    rewrite urlsafe_b64decode_encode, result_bind_Ok.
    exact Hjson.
Qed.

End SessionCrypto.

(** The round trip on the small instance, for the empty dictionary. *)
Lemma session_crypto_round_trip_witness :
  exists data params w',
    @_encrypt toy_library (@_encode_dict toy_library (JDict []))
      (toy_client, toy_world)
    = (Ok (data, params), (toy_client, w'))
    /\ @from_saved_session_decrypt toy_library tt
         (<["cryptoparams" := JDict params]>
            (<["data" := JStr (_b64encode_str data)]> ∅))
       = Ok (JDict []).
Proof.
  apply (@session_crypto_round_trip toy_library tt tt (JDict [])
           toy_client toy_world ∅).
  - reflexivity.
  - intros seed key Hlen. reflexivity.
  - reflexivity.
Defined.

(** ** Writing a file and renaming it *)

Lemma exec_syscalls_cons um fs c cs :
  exec_syscalls um fs (c :: cs) = exec_syscalls um (exec_syscall um fs c) cs.
Proof. reflexivity. Qed.

Lemma exec_syscalls_app um fs cs1 cs2 :
  exec_syscalls um fs (cs1 ++ cs2)
  = exec_syscalls um (exec_syscalls um fs cs1) cs2.
Proof. apply fold_left_app. Qed.

Section WriteAndRename.
Variables (um : N) (fs0 : gmap string file) (filename : string).

Local Abbreviation tmp := (filename ++ ".new").
Local Abbreviation holds m d := (<[tmp := {| f_mode := m; f_data := d |}]> fs0).

Lemma tmp_ne_filename : tmp <> filename.
Proof.
  induction filename as [|c s IH]; [discriminate|].
  cbn. intros [= Heq]. exact (IH Heq).
Qed.

Lemma exec_open :
  exists m0, exec_syscall um fs0 (SysOpenTrunc tmp) = holds m0 [].
Proof.
  cbn [exec_syscall]. destruct (fs0 !! tmp) as [f|]; eexists; reflexivity.
Qed.

Lemma exec_chmod m0 :
  exec_syscall um (holds m0 []) (SysChmod tmp mode_0600) = holds mode_0600 [].
Proof. cbn [exec_syscall]. rewrite alter_insert_eq. reflexivity. Qed.

Lemma exec_write d b :
  exec_syscall um (holds mode_0600 d) (SysWrite tmp b)
  = holds mode_0600 (d ++ [b])%list.
Proof. cbn [exec_syscall]. rewrite alter_insert_eq. reflexivity. Qed.

Lemma exec_rename d :
  exec_syscall um (holds mode_0600 d) (SysRename tmp filename)
  = <[filename := {| f_mode := mode_0600; f_data := d |}]> (delete tmp fs0).
Proof.
  cbn [exec_syscall]. rewrite lookup_insert_eq, delete_insert_eq. reflexivity.
Qed.

Lemma exec_writes bs : forall d,
  exec_syscalls um (holds mode_0600 d) (map (SysWrite tmp) bs)
  = holds mode_0600 (d ++ bs)%list.
Proof.
  unfold exec_syscalls. induction bs as [|b bs IH]; intros d.
  - cbn. rewrite app_nil_r. reflexivity.
  - cbn [map fold_left]. rewrite exec_write, IH, <- app_assoc. reflexivity.
Qed.

(** The states of the write phase hold a prefix of the data, under mode
    0600, in the temporary file. *)
Lemma fs_trace_write_phase (P : gmap string file -> Prop) bs rest : forall d,
  (forall k, P (holds mode_0600 (d ++ take k bs)%list)) ->
  Forall P (fs_trace um (holds mode_0600 (d ++ bs)%list) rest) ->
  Forall P (fs_trace um (holds mode_0600 d) (map (SysWrite tmp) bs ++ rest)%list).
Proof.
  induction bs as [|b bs IH]; intros d Hk Hrest.
  - cbn [map app]. rewrite app_nil_r in Hrest. exact Hrest.
  - cbn [map app fs_trace]. constructor.
    + specialize (Hk 0). cbn [take] in Hk. rewrite app_nil_r in Hk. exact Hk.
    + rewrite exec_write. apply IH.
      * intros k. specialize (Hk (S k)). cbn [take] in Hk.
        rewrite <- app_assoc. exact Hk.
      * rewrite <- app_assoc. exact Hrest.
Qed.

(** What a state of the run may show: the target as it was or fully
    written, and in the temporary file a prefix of the data, non-empty
    only under mode 0600. *)
Lemma running_state_ok (data : list byte) m d :
  d `prefix_of` data -> (d <> [] -> m = mode_0600) ->
  let s := holds m d in
  s !! filename = fs0 !! filename
  /\ forall f, s !! tmp = Some f ->
       f_data f `prefix_of` data /\ (f_data f <> [] -> f_mode f = mode_0600).
Proof.
  intros Hpre Hmode. split.
  - apply lookup_insert_ne, tmp_ne_filename.
  - intros f. rewrite lookup_insert_eq. intros [= <-]. split; assumption.
Qed.

End WriteAndRename.

(** The file system after [_write_and_rename]. *)
Lemma exec_write_and_rename
    (um : N) (fs0 : gmap string file) (data : bytes_or_str) (filename : string) :
  exec_syscalls um fs0 (_write_and_rename_calls data filename)
  = <[filename := {| f_mode := mode_0600; f_data := as_bytes data |}]>
      (delete (filename ++ ".new") fs0).
Proof.
  destruct (exec_open um fs0 filename) as [m0 Hopen].
  unfold _write_and_rename_calls. cbn [app].
  rewrite !exec_syscalls_cons, Hopen, exec_chmod.
  rewrite exec_syscalls_app, exec_writes.
  rewrite !exec_syscalls_cons. cbn [app exec_syscall exec_syscalls fold_left].
  rewrite lookup_insert_eq, delete_insert_eq. reflexivity.
Qed.

(** Every state the run of the calls goes through. *)
Lemma fs_trace_write_and_rename
    (um : N) (fs0 : gmap string file) (data : bytes_or_str) (filename : string) :
  let tmp := filename ++ ".new" in
  let calls := _write_and_rename_calls data filename in
  let written := {| f_mode := mode_0600; f_data := as_bytes data |} in
  forall i s, fs_trace um fs0 calls !! i = Some s ->
    (s !! filename = fs0 !! filename \/ s !! filename = Some written)
    /\ (1 <= i -> forall f, s !! tmp = Some f ->
          f_data f `prefix_of` as_bytes data
          /\ (f_data f <> [] -> f_mode f = mode_0600)).
Proof.
  intros tmp calls written. subst tmp calls written.
  destruct (exec_open um fs0 filename) as [m0 Hopen].
  set (written := {| f_mode := mode_0600; f_data := as_bytes data |}).
  set (calls := _write_and_rename_calls data filename).
  set (Q := fun s : gmap string file =>
              (s !! filename = fs0 !! filename \/ s !! filename = Some written)
              /\ forall f, s !! (filename ++ ".new") = Some f ->
                   f_data f `prefix_of` as_bytes data
                   /\ (f_data f <> [] -> f_mode f = mode_0600)).
  assert (Hrun : forall m d, d `prefix_of` as_bytes data ->
                   (d <> [] -> m = mode_0600) ->
                   Q (<[filename ++ ".new" := {| f_mode := m; f_data := d |}]> fs0)).
  { intros m d Hd Hm.
    destruct (running_state_ok fs0 filename (as_bytes data) m d Hd Hm) as [Ht Hf].
    split; [left; exact Ht | exact Hf]. }
  assert (Htail : Forall Q (fs_trace um (exec_syscall um fs0 (SysOpenTrunc (filename ++ ".new")))
                              (tail calls))).
  { unfold calls, _write_and_rename_calls. cbn [app tail].
    rewrite Hopen. cbn [fs_trace]. constructor.
    { apply Hrun; [apply prefix_nil | intros []; reflexivity]. }
    rewrite exec_chmod.
    apply (fs_trace_write_phase um fs0 filename Q (as_bytes data) _ []).
    - intros k. apply Hrun; [apply prefix_take | reflexivity].
    - cbn [app fs_trace exec_syscall].
      rewrite lookup_insert_eq, delete_insert_eq.
      constructor; [apply Hrun; [reflexivity | reflexivity] |].
      constructor; [apply Hrun; [reflexivity | reflexivity] |].
      constructor; [|constructor].
      split.
      + right. apply lookup_insert_eq.
      + intros f.
        rewrite lookup_insert_ne
          by (intros Heq; exact (tmp_ne_filename filename (eq_sym Heq))).
        rewrite lookup_delete_eq. discriminate. }
  intros i s Hi. destruct i as [|i].
  + unfold calls, _write_and_rename_calls in Hi. cbn in Hi.
    injection Hi as <-. split; [left; reflexivity | lia].
  + unfold calls, _write_and_rename_calls in Hi. cbn [app fs_trace] in Hi.
    cbn [lookup list_lookup] in Hi.
    rewrite Forall_lookup in Htail.
    unfold calls, _write_and_rename_calls in Htail. cbn [app tail] in Htail.
    destruct (Htail i s Hi) as [Ht Hf]. split; [exact Ht | intros _; exact Hf].
Qed.

(** A run of calls starts in the given state and ends in the state the
    calls leave. *)
Lemma fs_trace_ends um cs : forall fs0,
  fs_trace um fs0 cs !! 0 = Some fs0
  /\ last (fs_trace um fs0 cs) = Some (exec_syscalls um fs0 cs).
Proof.
  induction cs as [|c cs IH]; intros fs0; [split; reflexivity|].
  split; [reflexivity|].
  cbn [fs_trace]. rewrite last_cons, (proj2 (IH _)). reflexivity.
Qed.

(** C7.  [_write_and_rename(data, filename)] returns with the payload
    under the target name, in a file of mode 0600, and with the
    temporary name (the target name plus [.new]) gone; it changes
    nothing else.  On the way from the state it found to the state it
    leaves, in every state the target is what it was before or the
    complete new file, and from the open on the temporary file holds a
    prefix of the payload that is non-empty only under mode 0600: the
    mode is set before the first byte, and the rename comes last. *)
Theorem write_and_rename_atomic
    (data : bytes_or_str) (filename : string) `{Library}
    (self : OAuth2Client) (w : world) :
  let tmp := filename ++ ".new" in
  let written := {| f_mode := mode_0600; f_data := as_bytes data |} in
  let states :=
    fs_trace (umask w) (fs w) (_write_and_rename_calls data filename) in
  exists w',
    _write_and_rename data filename (self, w) = (Ok tt, (self, w'))
    /\ fs w' = <[filename := written]> (delete tmp (fs w))
    /\ fs w' !! filename = Some written /\ fs w' !! tmp = None
    /\ (umask w' = umask w /\ console_in w' = console_in w
        /\ events w' = events w /\ entropy_pos w' = entropy_pos w)
    /\ states !! 0 = Some (fs w) /\ last states = Some (fs w')
    /\ forall i s, states !! i = Some s ->
         (s !! filename = fs w !! filename \/ s !! filename = Some written)
         /\ (1 <= i -> forall f, s !! tmp = Some f ->
               f_data f `prefix_of` as_bytes data
               /\ (f_data f <> [] -> f_mode f = mode_0600)).
Proof.
  intros tmp written states. subst tmp written states.
  exists (with_fs (<[filename := {| f_mode := mode_0600;
                                   f_data := as_bytes data |}]>
                     (delete (filename ++ ".new") (fs w))) w).
  split.
  { unfold _write_and_rename, set_world. cbn [fst snd].
    rewrite exec_write_and_rename. reflexivity. }
  cbn [fs with_fs umask console_in events entropy_pos].
  destruct (fs_trace_ends (umask w) (_write_and_rename_calls data filename) (fs w))
    as [Hfirst Hlast].
  rewrite Hlast, Hfirst, exec_write_and_rename.
  split; [reflexivity|].
  split; [apply lookup_insert_eq|].
  split.
  { rewrite lookup_insert_ne
      by (intros Heq; exact (tmp_ne_filename filename (eq_sym Heq))).
    apply lookup_delete_eq. }
  split; [repeat split|]. split; [reflexivity|]. split; [reflexivity|].
  apply fs_trace_write_and_rename.
Qed.

(** A token written on the small instance. *)
Lemma write_and_rename_atomic_witness :
  let data := PyStr "t1" in
  let tmp := "token" ++ ".new" in
  let written := {| f_mode := mode_0600; f_data := as_bytes data |} in
  let states :=
    fs_trace (umask toy_world) (fs toy_world)
      (_write_and_rename_calls data "token") in
  exists w',
    @_write_and_rename toy_library data "token" (toy_client, toy_world)
    = (Ok tt, (toy_client, w'))
    /\ fs w' = <["token" := written]> (delete tmp (fs toy_world))
    /\ fs w' !! "token" = Some written /\ fs w' !! tmp = None
    /\ (umask w' = umask toy_world /\ console_in w' = console_in toy_world
        /\ events w' = events toy_world
        /\ entropy_pos w' = entropy_pos toy_world)
    /\ states !! 0 = Some (fs toy_world) /\ last states = Some (fs w')
    /\ forall i s, states !! i = Some s ->
         (s !! "token" = fs toy_world !! "token" \/ s !! "token" = Some written)
         /\ (1 <= i -> forall f, s !! tmp = Some f ->
               f_data f `prefix_of` as_bytes data
               /\ (f_data f <> [] -> f_mode f = mode_0600)).
Proof.
  exact (@write_and_rename_atomic (PyStr "t1") "token" toy_library
           toy_client toy_world).
Defined.

(** ** Saving the session *)

Section SaveSession.
Context `{Library}.

(** [_encrypt] leaves the object alone and, in the world, only draws
    randomness. *)
Lemma _encrypt_frame data self w r self' w' :
  _encrypt data (self, w) = (r, (self', w')) ->
  self' = self /\ fs w' = fs w /\ umask w' = umask w
  /\ events w' = events w /\ console_in w' = console_in w.
Proof.
  unfold _encrypt, bind, get_self, raise, urandom, lift, ret. cbn [fst snd].
  destruct (public_key self) as [pub|].
  - destruct (Cipher_AES_CTR _ _ data); intros [= <- <- <-]; repeat split.
  - intros [= <- <- <-]. repeat split.
Qed.

Lemma _encrypt_with_key data self w pub :
  public_key self = Some pub ->
  exists enc params w', _encrypt data (self, w) = (Ok (enc, params), (self, w')).
Proof.
  intros Hpub. unfold _encrypt, bind, get_self, urandom, lift, ret.
  cbn [fst snd]. rewrite Hpub. cbn [fst snd].
  unfold Cipher_AES_CTR. rewrite !length_map, !length_seq. cbn [Nat.eqb orb negb].
  eexists _, _, _. reflexivity.
Qed.

Lemma _encrypt_without_key data self w :
  public_key self = None ->
  _encrypt data (self, w) = (Err (RuntimeError "No public key available"), (self, w)).
Proof.
  intros Hpub. unfold _encrypt, bind, get_self, raise. cbn [fst snd].
  rewrite Hpub. reflexivity.
Qed.

(** The three outcomes of the path resolution. *)
Lemma resolve_path_stored self w c q :
  session_file_path self = Some (String c q) ->
  resolve_path None (self, w) = (Ok (Some (String c q)), (self, w)).
Proof.
  intros Hp. unfold resolve_path, bind, get_self, ret. cbn [fst snd].
  rewrite Hp. reflexivity.
Qed.

Lemma resolve_path_given self w c p :
  session_file_path self = None ->
  resolve_path (Some (String c p)) (self, w)
  = (Ok (Some (String c p)),
     (with_session_file_path (Some (String c p)) self, w)).
Proof.
  intros Hp. unfold resolve_path, bind, get_self, set_self, ret. cbn [fst snd].
  rewrite Hp. reflexivity.
Qed.

Lemma resolve_path_Ok path self w p self' w' :
  resolve_path path (self, w) = (Ok p, (self', w')) ->
  w' = w /\ session_file_path self' = p
  /\ (exists c q, p = Some (String c q))
  /\ self' = with_session_file_path p self.
Proof.
  unfold resolve_path, bind, get_self, set_self, ret, raise. cbn [fst snd].
  destruct path as [[|c p']|], (session_file_path self) as [[|c' q]|] eqn:Hs;
    intros [= <- <- <-]; (split; [reflexivity|]); (split; [try reflexivity|]);
    try (split; [eauto|]).
  all: try reflexivity.
  all: destruct self; cbn in *; subst; reflexivity.
Qed.

Lemma resolve_path_Err path self w e self' w' :
  resolve_path path (self, w) = (Err e, (self', w')) ->
  self' = self /\ w' = w /\ e = no_path_error.
Proof.
  unfold resolve_path, bind, get_self, set_self, ret, raise. cbn [fst snd].
  destruct path as [[|c p']|], (session_file_path self) as [[|c' q]|];
    intros [= <- <- <-]; repeat split.
Qed.

(** [save_session] from a resolved path on: an explicit description of
    the final state. *)
Lemma save_session_run path self w :
  match resolve_path path (self, w) with
  | (Err e, st) => save_session path (self, w) = (Err e, st)
  | (Ok p, (self1, w1)) =>
      match _encrypt (_encode_dict (data_dict self1)) (self1, w1) with
      | (Err e, st) => save_session path (self, w) = (Err e, st)
      | (Ok (data, params), (self2, w2)) =>
          let doc := <["cryptoparams" := JDict params]>
                       (<["data" := JStr (_b64encode_str data)]>
                          (saved_session self2)) in
          match p with
          | None =>
              save_session path (self, w)
              = (Err (RuntimeError "No session file named for write."),
                 (with_saved_session doc self2, w2))
          | Some p =>
              save_session path (self, w)
              = (Ok tt,
                 (with_saved_session
                    (delete "cryptoparams" (delete "data" doc)) self2,
                  with_fs
                    (exec_syscalls (umask w2) (fs w2)
                       (_write_and_rename_calls
                          (PyStr (json_dumps_pretty (JDict (map_to_list doc)))) p))
                    w2))
          end
      end
  end.
Proof.
  unfold save_session, bind.
  destruct (resolve_path path (self, w)) as [[p|e] [self1 w1]]; [|reflexivity].
  unfold get_self, set_self, raise. cbn [fst snd].
  destruct (_encrypt _ (self1, w1)) as [[[data params]|e] [self2 w2]];
    [|reflexivity].
  cbn [fst snd]. destruct p as [p|]; reflexivity.
Qed.

(** C9.  After a successful [save_session] the in-memory [saved_session]
    has neither [data] nor [cryptoparams], every other key is as it was,
    and the file written at the session path is the serialisation of the
    document that does carry both fields. *)
Theorem save_session_frame path self w self' w' :
  save_session path (self, w) = (Ok tt, (self', w')) ->
  saved_session self' !! "data" = None
  /\ saved_session self' !! "cryptoparams" = None
  /\ (forall k, k <> "data" -> k <> "cryptoparams" ->
        saved_session self' !! k = saved_session self !! k)
  /\ exists p data params,
       let doc := <["cryptoparams" := JDict params]>
                    (<["data" := JStr data]> (saved_session self)) in
       session_file_path self' = Some p
       /\ doc !! "data" = Some (JStr data)
       /\ doc !! "cryptoparams" = Some (JDict params)
       /\ fs w' !! p
          = Some {| f_mode := mode_0600;
                    f_data := encode_utf8
                                (json_dumps_pretty (JDict (map_to_list doc))) |}.
Proof.
  intros Hsave. pose proof (save_session_run path self w) as Hrun.
  destruct (resolve_path path (self, w)) as [[p|e] [self1 w1]] eqn:Hres;
    [|congruence].
  apply resolve_path_Ok in Hres as (-> & Hp & (c & q & ->) & ->).
  destruct (_encrypt _ _) as [[[data params]|e] [self2 w2]] eqn:Henc;
    [|congruence].
  apply _encrypt_frame in Henc as (-> & Hfs & Hum & _ & _).
  cbv zeta in Hrun. rewrite Hrun in Hsave.
  pose proof (f_equal (fun x => fst (snd x)) Hsave) as Hself.
  pose proof (f_equal (fun x => snd (snd x)) Hsave) as Hworld.
  cbv beta in Hself, Hworld. cbn [fst snd] in Hself, Hworld.
  subst self' w'. clear Hsave Hrun.
  set (final := exec_syscalls _ _ _).
  cbn [saved_session with_saved_session with_session_file_path
         session_file_path fs with_fs].
  split; [|split; [|split]].
  - rewrite lookup_delete_ne by discriminate. apply lookup_delete_eq.
  - apply lookup_delete_eq.
  - intros k Hd Hc.
    rewrite lookup_delete_ne, lookup_delete_ne by congruence.
    rewrite lookup_insert_ne, lookup_insert_ne by congruence. reflexivity.
  - exists (String c q), (_b64encode_str data), params. cbv zeta.
    split; [reflexivity|]. split.
    { rewrite lookup_insert_ne by discriminate. apply lookup_insert_eq. }
    split; [apply lookup_insert_eq|].
    pose proof (fun d => exec_write_and_rename (umask w2) (fs w2) d (String c q))
      as Hfinal.
    subst final.
    rewrite Hfinal. apply lookup_insert_eq.
Qed.

(** C3 (the code at the failing input).  With a path stored on the
    object, a call that also names a path raises the "no path" error,
    whatever the two paths are, and writes nothing. *)
Theorem save_session_given_and_stored_raises self w p q :
  save_session (Some p) (with_session_file_path (Some q) self, w)
  = (Err no_path_error, (with_session_file_path (Some q) self, w)).
Proof.
  unfold save_session, bind, resolve_path, get_self, raise. cbn [fst snd].
  cbn [session_file_path with_session_file_path].
  destruct p as [|c p], q as [|c' q]; reflexivity.
Qed.

(** The cases of the claim that the code does honour. *)
Lemma save_session_no_path_known self w :
  session_file_path self = None ->
  save_session None (self, w) = (Err no_path_error, (self, w)).
Proof.
  intros Hp. destruct self. cbn in Hp. subst. reflexivity.
Qed.

Lemma save_session_uses_stored_path self w c q pub :
  session_file_path self = Some (String c q) -> public_key self = Some pub ->
  exists self' w',
    save_session None (self, w) = (Ok tt, (self', w'))
    /\ session_file_path self' = Some (String c q)
    /\ is_Some (fs w' !! String c q).
Proof.
  intros Hp Hk. pose proof (save_session_run None self w) as Hrun.
  rewrite (resolve_path_stored self w c q Hp) in Hrun.
  destruct (_encrypt_with_key (_encode_dict (data_dict self)) self w pub Hk)
    as (enc & params & w2 & Henc).
  rewrite Henc in Hrun. cbv zeta in Hrun.
  eexists _, _. split; [exact Hrun|]. split; [exact Hp|].
  cbn [fs with_fs].
  rewrite exec_write_and_rename, lookup_insert_eq. eauto.
Qed.

Lemma save_session_records_given_path self w c p pub :
  session_file_path self = None -> public_key self = Some pub ->
  exists self' w',
    save_session (Some (String c p)) (self, w) = (Ok tt, (self', w'))
    /\ session_file_path self' = Some (String c p)
    /\ is_Some (fs w' !! String c p).
Proof.
  intros Hp Hk. pose proof (save_session_run (Some (String c p)) self w) as Hrun.
  rewrite (resolve_path_given self w c p Hp) in Hrun.
  destruct (_encrypt_with_key
              (_encode_dict (data_dict (with_session_file_path (Some (String c p)) self)))
              (with_session_file_path (Some (String c p)) self) w pub Hk)
    as (enc & params & w2 & Henc).
  rewrite Henc in Hrun. cbv zeta in Hrun.
  eexists _, _. split; [exact Hrun|]. split; [reflexivity|].
  cbn [fs with_fs].
  rewrite exec_write_and_rename, lookup_insert_eq. eauto.
Qed.

(** [save_session] touches neither the token nor the event log, whether
    it returns or raises. *)
Lemma save_session_keeps_token path self w r self' w' :
  save_session path (self, w) = (r, (self', w')) ->
  token self' = token self /\ events w' = events w.
Proof.
  intros Hsave. pose proof (save_session_run path self w) as Hrun.
  destruct (resolve_path path (self, w)) as [[p|e] [self1 w1]] eqn:Hres.
  - apply resolve_path_Ok in Hres as (-> & _ & _ & ->).
    destruct (_encrypt _ _) as [[[data params]|e] [self2 w2]] eqn:Henc.
    + apply _encrypt_frame in Henc as (-> & _ & _ & Hev & _).
      cbv zeta in Hrun. destruct p as [p|]; rewrite Hrun in Hsave;
        pose proof (f_equal (fun x => fst (snd x)) Hsave) as Hself;
        pose proof (f_equal (fun x => snd (snd x)) Hsave) as Hworld;
        cbv beta in Hself, Hworld; cbn [fst snd] in Hself, Hworld;
        subst self' w'; split; [reflexivity | exact Hev | reflexivity | exact Hev].
    + apply _encrypt_frame in Henc as (-> & _ & _ & Hev & _).
      rewrite Hrun in Hsave. injection Hsave as _ <- <-.
      split; [reflexivity | exact Hev].
  - apply resolve_path_Err in Hres as (-> & -> & ->).
    rewrite Hrun in Hsave. injection Hsave as _ <- <-. split; reflexivity.
Qed.

(** ** Refreshing the token *)

Lemma _log_run message self w :
  exists w' logged,
    _log message (self, w) = (Ok tt, (self, w'))
    /\ events w' = (events w ++ logged)%list.
Proof.
  unfold _log, bind, get_self, get_world, emit_event, set_world, ret.
  cbn [fst snd].
  destruct (verbose self || debug self || negb (stderr_isatty w)).
  - eexists _, [Stderr message]. split; reflexivity.
  - exists w, []. rewrite app_nil_r. split; reflexivity.
Qed.

(** [refresh_token] up to the call of [save_session]. *)
Lemma refresh_token_run new_token self w :
  exists w1 logged,
    events w1 = (events w ++ logged ++ [Notify])%list
    /\ refresh_token (Ok new_token) (self, w)
       = save_session None (with_token (Some new_token) self, w1).
Proof.
  destruct (_log_run "Starting token refresh" self w) as (wa & la & Ha & Hea).
  destruct (_log_run "Token refreshed" self wa) as (wb & lb & Hb & Heb).
  exists (with_events (events wb ++ [Notify]) wb), (la ++ lb)%list. split.
  - cbn [events with_events]. rewrite Heb, Hea, <- !app_assoc. reflexivity.
  - unfold refresh_token. unfold bind at 1. rewrite Ha.
    unfold bind at 1. unfold lift at 1. unfold bind at 1. rewrite Hb.
    reflexivity.
Qed.

(** C10.  When the external refresh has returned [new_token] and
    [refresh_token] then raises, the object already holds [new_token] as
    its token, and the notification of the waiters is in the event log,
    after everything that was there before. *)
Theorem refresh_token_no_rollback new_token self w e self' w' :
  refresh_token (Ok new_token) (self, w) = (Err e, (self', w')) ->
  token self' = Some new_token
  /\ exists logged, events w' = (events w ++ logged ++ [Notify])%list.
Proof.
  intros Hrefresh.
  destruct (refresh_token_run new_token self w) as (w1 & logged & Hev & Hrun).
  rewrite Hrun in Hrefresh.
  apply save_session_keeps_token in Hrefresh as [Htok Hev'].
  split; [exact Htok|]. exists logged. rewrite Hev'. exact Hev.
Qed.

(** Such a call exists: without a session path, [save_session] raises. *)
Lemma refresh_token_raises_without_path new_token self w :
  session_file_path self = None ->
  exists self' w',
    refresh_token (Ok new_token) (self, w) = (Err no_path_error, (self', w')).
Proof.
  intros Hp.
  destruct (refresh_token_run new_token self w) as (w1 & logged & _ & Hrun).
  rewrite Hrun. eexists _, _. apply save_session_no_path_known. exact Hp.
Qed.

End SaveSession.

(** A successful save on the small instance. *)
Lemma save_session_frame_witness :
  exists self' w',
    @save_session toy_library (Some "session.json") (toy_client, toy_world)
    = (Ok tt, (self', w'))
    /\ saved_session self' !! "data" = None
    /\ saved_session self' !! "cryptoparams" = None
    /\ (forall k, k <> "data" -> k <> "cryptoparams" ->
          saved_session self' !! k = saved_session toy_client !! k)
    /\ exists p data params,
         let doc := <["cryptoparams" := JDict params]>
                      (<["data" := JStr data]> (saved_session toy_client)) in
         session_file_path self' = Some p
         /\ doc !! "data" = Some (JStr data)
         /\ doc !! "cryptoparams" = Some (JDict params)
         /\ fs w' !! p
            = Some {| f_mode := mode_0600;
                      f_data := encode_utf8
                                  (@json_dumps_pretty toy_library
                                     (JDict (map_to_list doc))) |}.
Proof.
  set (r := @save_session toy_library (Some "session.json")
              (toy_client, toy_world)).
  assert (Hr : r = (Ok tt, (fst (snd r), snd (snd r))))
    by (vm_compute; reflexivity).
  exists (fst (snd r)), (snd (snd r)). split; [exact Hr|].
  apply (@save_session_frame toy_library (Some "session.json")
           toy_client toy_world).
  exact Hr.
Defined.

(** A refresh on the small instance, with no session path known. *)
Lemma refresh_token_no_rollback_witness :
  exists e self' w',
    @refresh_token toy_library (Ok [("access_token", JStr "t2")])
      (toy_client, toy_world) = (Err e, (self', w'))
    /\ token self' = Some [("access_token", JStr "t2")]
    /\ exists logged,
         events w' = (events toy_world ++ logged ++ [Notify])%list.
Proof.
  set (r := @refresh_token toy_library (Ok [("access_token", JStr "t2")])
              (toy_client, toy_world)).
  assert (Hr : r = (Err no_path_error, (fst (snd r), snd (snd r))))
    by (vm_compute; reflexivity).
  exists no_path_error, (fst (snd r)), (snd (snd r)). split; [exact Hr|].
  apply (@refresh_token_no_rollback toy_library [("access_token", JStr "t2")]
           toy_client toy_world no_path_error).
  exact Hr.
Defined.

(** ** The token socket *)

Module TokenSocketFacts.
Import TokenSocketHandler.

(** With a token that has an [access_token] string, the body is exactly
    that string, sent as [text/plain] under status 200. *)
Lemma do_GET_with_token (t : pydict) (access_token : string) :
  dict_get "access_token" t = Some (JStr access_token) ->
  exists sent,
    do_GET (Some t) = (sent, Ok tt)
    /\ statuses sent = [200]
    /\ content_types sent = ["text/plain"]
    /\ body sent = encode_utf8 access_token.
Proof.
  intros Hget. unfold do_GET. destruct t as [|kv t]; [discriminate|].
  rewrite Hget. eexists. split; [reflexivity|].
  repeat split. cbn. apply app_nil_r.
Qed.

(** Without a usable token the method raises [NoTokenError], after the
    status line 200 and the headers have gone out. *)
Lemma do_GET_without_token (token : option pydict) :
  dict_truthy token = false
  \/ (exists t, token = Some t /\ dict_contains "access_token" t = false) ->
  do_GET token = (do_HEAD, Err (NoTokenError "Cannot retreive access token")).
Proof.
  intros [Hfalsy | (t & -> & Hno)]; unfold do_GET.
  - destruct token as [[|kv t]|]; [reflexivity | discriminate | reflexivity].
  - unfold dict_contains in Hno. destruct t as [|kv t]; [reflexivity|].
    destruct (dict_get "access_token" (kv :: t)); [discriminate | reflexivity].
Qed.

(** C4 (the code at the failing input).  A GET that arrives before any
    token is set raises [NoTokenError] in the handler, but the only
    status line sent on the connection is 200, followed by an empty
    body. *)
Theorem do_GET_before_token_answers_200 :
  let '(sent, outcome) := do_GET None in
  outcome = Err (NoTokenError "Cannot retreive access token")
  /\ statuses sent = [200]
  /\ content_types sent = ["text/plain"]
  /\ body sent = [].
Proof. repeat split. Qed.

End TokenSocketFacts.

(** ** The password of a new vault *)

Section NewPassword.

Lemma prompts_shown_app a b :
  prompts_shown (a ++ b) = prompts_shown a + prompts_shown b.
Proof. unfold prompts_shown. rewrite List.filter_app. apply length_app. Qed.

(** One pass through the loop body, case by case. *)
Lemma password_loop_accept pw rest out :
  10 <= py_len pw ->
  password_loop (Line pw :: Line pw :: rest) out
  = (Ok (encode_utf8 pw), rest,
     (out ++ [Prompt new_password_prompt] ++ [Prompt "Repeat: "])%list).
Proof.
  intros Hlen. cbn [password_loop].
  destruct (Nat.ltb_spec (py_len pw) 10) as [Hlt|_]; [lia|].
  rewrite String.eqb_refl, <- app_assoc. reflexivity.
Qed.

Lemma password_loop_too_short pw rest out :
  py_len pw < 10 ->
  password_loop (Line pw :: rest) out
  = password_loop rest
      (out ++ [Prompt new_password_prompt] ++ [Stderr too_short_msg])%list.
Proof.
  intros Hlen. cbn [password_loop].
  destruct (Nat.ltb_spec (py_len pw) 10) as [_|Hge]; [|lia].
  rewrite <- app_assoc. reflexivity.
Qed.

Lemma password_loop_mismatch pw1 pw2 rest out :
  10 <= py_len pw1 -> pw1 <> pw2 ->
  password_loop (Line pw1 :: Line pw2 :: rest) out
  = password_loop rest
      (out ++ [Prompt new_password_prompt] ++ [Prompt "Repeat: "]
           ++ [Stdout mismatch_msg])%list.
Proof.
  intros Hlen Hne. cbn [password_loop].
  destruct (Nat.ltb_spec (py_len pw1) 10) as [Hlt|_]; [lia|].
  apply String.eqb_neq in Hne. rewrite Hne, <- !app_assoc. reflexivity.
Qed.

(** [_init_saved_session] returns when the loop accepted a password and
    raises what the loop raised otherwise. *)
Lemma _init_saved_session_outcome `{Library} (self : OAuth2Client) (w : world) :
  fst (_init_saved_session (self, w))
  = match fst (fst (password_loop (console_in w) (events w))) with
    | Ok _ => Ok tt
    | Err e => Err e
    end.
Proof.
  unfold _init_saved_session, bind, get_world, set_world, lift, urandom,
    set_self, ret.
  cbn [fst snd].
  destruct (password_loop (console_in w) (events w)) as [[[pw|e] rest] evs];
    reflexivity.
Qed.

Lemma password_loop_cancelled :
  (forall rest out, fst (fst (password_loop (Interrupt :: rest) out))
                    = Err cancelled_error)
  /\ (forall out, fst (fst (password_loop [] out)) = Err cancelled_error)
  /\ (forall pw rest out, 10 <= py_len pw ->
        fst (fst (password_loop (Line pw :: Interrupt :: rest) out))
        = Err cancelled_error)
  /\ (forall pw out, 10 <= py_len pw ->
        fst (fst (password_loop [Line pw] out)) = Err cancelled_error).
Proof.
  repeat split; intros; cbn [password_loop]; try reflexivity.
  all: destruct (Nat.ltb_spec (py_len pw) 10) as [Hlt|_]; [lia|reflexivity].
Qed.

(** Whatever was accepted had at least 10 characters and was entered
    twice in a row, after the entries the loop rejected. *)
Lemma password_loop_accepted_only n : forall input out pwb rest evs,
  length input <= n ->
  password_loop input out = (Ok pwb, rest, evs) ->
  exists pw before,
    pwb = encode_utf8 pw /\ 10 <= py_len pw
    /\ input = (before ++ Line pw :: Line pw :: rest)%list.
Proof.
  induction n as [|n IH]; intros input out pwb rest evs Hlen Hrun.
  - destruct input; [discriminate | cbn in Hlen; lia].
  - destruct input as [|[pw1|] input]; [discriminate| |discriminate].
    cbn [password_loop] in Hrun. cbn [length] in Hlen.
    destruct (Nat.ltb_spec (py_len pw1) 10) as [Hlt|Hge].
    + apply IH in Hrun as (pw & before & -> & Hpw & ->); [|lia].
      exists pw, (Line pw1 :: before). repeat split; assumption.
    + destruct input as [|[pw2|] input]; [discriminate| |discriminate].
      cbn [length] in Hlen.
      destruct (String.eqb_spec pw1 pw2) as [<-|Hne].
      * injection Hrun as <- <- <-. exists pw1, []. repeat split; assumption.
      * apply IH in Hrun as (pw & before & -> & Hpw & ->); [|lia].
        exists pw, (Line pw1 :: Line pw2 :: before). repeat split; assumption.
Qed.

(** Any number of rejected entries may precede the accepted one. *)
Lemma password_loop_after_rejections n : forall out,
  let input := (replicate n (Line "short")
                ++ [Line "abcdefghij"; Line "abcdefghij"])%list in
  fst (fst (password_loop input out)) = Ok (encode_utf8 "abcdefghij")
  /\ prompts_shown (snd (password_loop input out)) = prompts_shown out + S n.
Proof.
  induction n as [|n IH]; intros out input; subst input.
  - cbn [replicate app].
    rewrite password_loop_accept by (cbn; lia). cbn [fst snd].
    split; [reflexivity|]. rewrite !prompts_shown_app. cbn. lia.
  - cbn [replicate app].
    rewrite password_loop_too_short by (cbn; lia).
    destruct (IH (out ++ [Prompt new_password_prompt] ++ [Stderr too_short_msg])%list)
      as [Hok Hcount].
    split; [exact Hok|]. rewrite Hcount, !prompts_shown_app. cbn. lia.
Qed.

(** C8, as amended.  A candidate is accepted exactly when it has at least
    10 characters and its repetition matches: such a pair ends the loop
    with the password, a shorter entry or a different repetition makes
    the loop ask again, and nothing else is ever accepted.  The loop has
    no bound on its retries: after any number of rejected entries a good
    pair is still accepted.  Cancelling the input at either prompt raises
    [NoPrivateKeyError]. *)
Theorem new_password_acceptance :
  (forall pw rest out, 10 <= py_len pw ->
     password_loop (Line pw :: Line pw :: rest) out
     = (Ok (encode_utf8 pw), rest,
        (out ++ [Prompt new_password_prompt] ++ [Prompt "Repeat: "])%list))
  /\ (forall pw rest out, py_len pw < 10 ->
        password_loop (Line pw :: rest) out
        = password_loop rest
            (out ++ [Prompt new_password_prompt] ++ [Stderr too_short_msg])%list)
  /\ (forall pw1 pw2 rest out, 10 <= py_len pw1 -> pw1 <> pw2 ->
        password_loop (Line pw1 :: Line pw2 :: rest) out
        = password_loop rest
            (out ++ [Prompt new_password_prompt] ++ [Prompt "Repeat: "]
                 ++ [Stdout mismatch_msg])%list)
  /\ (forall input out pwb rest evs,
        password_loop input out = (Ok pwb, rest, evs) ->
        exists pw before,
          pwb = encode_utf8 pw /\ 10 <= py_len pw
          /\ input = (before ++ Line pw :: Line pw :: rest)%list)
  /\ (forall n,
        let input := (replicate n (Line "short")
                      ++ [Line "abcdefghij"; Line "abcdefghij"])%list in
        fst (fst (password_loop input [])) = Ok (encode_utf8 "abcdefghij")
        /\ attempts input = S n)
  /\ (forall rest out, fst (fst (password_loop (Interrupt :: rest) out))
                       = Err cancelled_error)
  /\ (forall pw rest out, 10 <= py_len pw ->
        fst (fst (password_loop (Line pw :: Interrupt :: rest) out))
        = Err cancelled_error).
Proof.
  split; [exact password_loop_accept|].
  split; [exact password_loop_too_short|].
  split; [exact password_loop_mismatch|].
  split.
  { intros input out pwb rest evs Hrun.
    exact (password_loop_accepted_only (length input) input out pwb rest evs
             (Nat.le_refl _) Hrun). }
  split.
  { intros n. exact (password_loop_after_rejections n []). }
  destruct password_loop_cancelled as (Hc1 & _ & Hc2 & _).
  split; assumption.
Qed.

End NewPassword.

(** The three cases of the loop body on concrete entries. *)
Lemma new_password_acceptance_witness :
  password_loop [Line "abcdefghij"; Line "abcdefghij"] []
  = (Ok (encode_utf8 "abcdefghij"), [],
     [Prompt new_password_prompt; Prompt "Repeat: "])
  /\ password_loop [Line "short"; Line "abcdefghij"; Line "abcdefghij"] []
     = password_loop [Line "abcdefghij"; Line "abcdefghij"]
         [Prompt new_password_prompt; Stderr too_short_msg]
  /\ password_loop [Line "abcdefghij"; Line "abcdefghik"] []
     = password_loop []
         [Prompt new_password_prompt; Prompt "Repeat: "; Stdout mismatch_msg].
Proof.
  destruct new_password_acceptance as (Haccept & Hshort & Hmismatch & _).
  split; [|split].
  - apply (Haccept "abcdefghij" [] []). cbn. lia.
  - apply (Hshort "short" [Line "abcdefghij"; Line "abcdefghij"] []). cbn. lia.
  - apply (Hmismatch "abcdefghij" "abcdefghik" [] []); [cbn; lia | discriminate].
Defined.

(** C8 as stated fails: no number of prompts bounds the loop. *)
Lemma password_retries_not_bounded : ~ retries_bounded attempts.
Proof.
  intros [bound Hbound].
  pose proof (password_loop_after_rejections bound []) as [_ Hcount].
  cbv zeta in Hcount.
  specialize (Hbound (replicate bound (Line "short")
                      ++ [Line "abcdefghij"; Line "abcdefghij"])%list).
  unfold attempts in Hbound. rewrite Hcount in Hbound. cbn in Hbound. lia.
Qed.

(** ** urllib.parse *)

Module UrllibFacts.
Import Urllib.

Lemma parse_field_Some field k v :
  parse_field field = Some (k, v) <->
  field_value field <> ""
  /\ k = unquote (plus_to_space (field_name field))
  /\ v = unquote (plus_to_space (field_value field)).
Proof.
  unfold parse_field, field_name, field_value.
  destruct field as [|c field].
  - cbn. split; [discriminate | intros [Hv _]; contradiction].
  - destruct (partition "=" (String c field)) as [[name found] value].
    cbn [fst snd]. destruct value as [|c' value].
    + split; [discriminate | intros [Hv _]; contradiction].
    + split.
      * intros [= <- <-]. repeat split. discriminate.
      * intros (_ & -> & ->). reflexivity.
Qed.

(** The keys of [parse_qs] are the names of [parse_qsl]. *)
Lemma parse_qs_fold_keys (pairs : list (string * string)) :
  forall (acc : gmap string (list string)) k,
    is_Some (fold_left
               (fun (parsed_result : gmap string (list string))
                    (pair : string * string) =>
                  let '(name, value) := pair in
                  match parsed_result !! name with
                  | Some vs => <[name := (vs ++ [value])%list]> parsed_result
                  | None => <[name := [value]]> parsed_result
                  end) pairs acc !! k)
    <-> is_Some (acc !! k) \/ exists v, (k, v) ∈ pairs.
Proof.
  induction pairs as [|[n v] pairs IH]; intros acc k.
  - cbn [fold_left]. split; [auto|]. intros [Hacc | [v Hv]]; [exact Hacc|].
    apply elem_of_nil in Hv. contradiction.
  - cbn [fold_left]. rewrite IH. split.
    + intros [Hins | [v' Hv']].
      * destruct (decide (n = k)) as [->|Hne].
        { right. exists v. apply elem_of_cons. left. reflexivity. }
        left. destruct (acc !! n); rewrite lookup_insert_ne in Hins by exact Hne;
          exact Hins.
      * right. exists v'. apply elem_of_cons. right. exact Hv'.
    + intros [Hacc | [v' Hv']].
      * left. destruct (decide (n = k)) as [->|Hne].
        { destruct (acc !! k); rewrite lookup_insert_eq; eauto. }
        destruct (acc !! n); rewrite lookup_insert_ne by exact Hne; exact Hacc.
      * apply elem_of_cons in Hv' as [[= -> ->] | Hin].
        { left. destruct (acc !! n); rewrite lookup_insert_eq; eauto. }
        right. exists v'. exact Hin.
Qed.

Lemma parse_qs_keys qs k :
  is_Some (parse_qs qs !! k) <-> exists v, (k, v) ∈ parse_qsl qs.
Proof.
  unfold parse_qs. rewrite parse_qs_fold_keys. rewrite lookup_empty. split.
  - intros [[x Hx] | Hv]; [discriminate | exact Hv].
  - intros Hv. right. exact Hv.
Qed.

Lemma parse_qsl_fields qs k v :
  (k, v) ∈ parse_qsl qs <->
  exists field, field ∈ split "&" qs /\ parse_field field = Some (k, v).
Proof.
  unfold parse_qsl. destruct qs as [|c qs].
  - cbn [split]. split.
    + intros Hin. apply elem_of_nil in Hin. contradiction.
    + intros (field & Hin & Hf). apply elem_of_cons in Hin as [-> | Hin].
      * discriminate.
      * apply elem_of_nil in Hin. contradiction.
  - apply list_elem_of_omap.
Qed.

(** [code in parse_qs(qs)], field by field. *)
Lemma parse_qs_has_key qs name :
  bool_decide (is_Some (parse_qs qs !! name)) = query_has_valued_param name qs.
Proof.
  apply eq_true_iff_eq. rewrite bool_decide_eq_true, parse_qs_keys.
  unfold query_has_valued_param. rewrite existsb_exists. split.
  - intros (v & Hv). apply parse_qsl_fields in Hv as (field & Hin & Hf).
    apply parse_field_Some in Hf as (Hval & -> & _).
    exists field. split; [apply list_elem_of_In; exact Hin|].
    unfold names_param. rewrite String.eqb_refl. cbn [andb].
    apply negb_true_iff, String.eqb_neq. exact Hval.
  - intros (field & Hin & Hf). apply andb_true_iff in Hf as [Hname Hval].
    apply String.eqb_eq in Hname. apply negb_true_iff, String.eqb_neq in Hval.
    exists (unquote (plus_to_space (field_value field))).
    apply parse_qsl_fields. exists field.
    split; [apply list_elem_of_In; exact Hin|].
    apply parse_field_Some. repeat split; [exact Hval | symmetry; exact Hname].
Qed.

End UrllibFacts.

(** ** Validation of the redirect URL *)

Section ValidateAuthurl.
Context `{Library}.
Import Urllib UrllibFacts AuthRace.

Lemma validate_authurl_true url :
  validate_authurl url = Ok true <->
  exists parts, urlsplit url = Ok parts
                /\ query_has_valued_param "code" (query parts) = true.
Proof.
  unfold validate_authurl. destruct (urlsplit url) as [parts|e].
  - rewrite result_bind_Ok, parse_qs_has_key. split.
    + intros [= Hq]. eauto.
    + intros (parts' & [= <-] & Hq). rewrite Hq. reflexivity.
  - rewrite result_bind_Err. split; [discriminate|].
    intros (parts & Hp & _). discriminate.
Qed.

Lemma validate_authurl_false url :
  validate_authurl url = Ok false <->
  exists parts, urlsplit url = Ok parts
                /\ query_has_valued_param "code" (query parts) = false.
Proof.
  unfold validate_authurl. destruct (urlsplit url) as [parts|e].
  - rewrite result_bind_Ok, parse_qs_has_key. split.
    + intros [= Hq]. eauto.
    + intros (parts' & [= <-] & Hq). rewrite Hq. reflexivity.
  - rewrite result_bind_Err. split; [discriminate|].
    intros (parts & Hp & _). discriminate.
Qed.

(** The reader told of an invalid line: the message, a fresh prompt, and
    back to the top of the loop with the slot as it was. *)
Lemma reader_rejects c ready url :
  reader c = RRead -> validate_authurl url = Ok false ->
  exists c1,
    reader_step ready (Line url) c = Some c1
    /\ stdout c1 = (stdout c ++ [no_authcode_msg; authurl_prompt])%list
    /\ slot c1 = slot c
    /\ reader c1 = RUnlock Continue
    /\ forall ready' line',
         exists c2, reader_step ready' line' c1 = Some c2
                    /\ reader c2 = RSelect /\ slot c2 = slot c
                    /\ stdout c2 = stdout c1.
Proof.
  intros Hpc Hval. unfold reader_step. rewrite Hpc, Hval.
  eexists. split; [reflexivity|]. cbn [stdout slot reader set_reader print].
  split; [rewrite <- app_assoc; reflexivity|].
  repeat split. intros ready' line'. eexists. split; [reflexivity|].
  repeat split.
Qed.

(** The listener asked for an invalid URI: the "does not represent an
    authorization redirect" page, and nothing else changes. *)
Lemma handler_rejects c n path :
  handlers c !! n = Some (HStart path) ->
  validate_authurl ("http://localhost" ++ path) = Ok false ->
  exists c1,
    handler_step n c = Some c1
    /\ handlers c1 !! n = Some (HDone InvalidRequest)
    /\ slot c1 = slot c /\ lock c1 = lock c
    /\ reader c1 = reader c /\ stores c1 = stores c.
Proof.
  intros Hpc Hval. unfold handler_step. rewrite Hpc. cbn [mbind option_bind].
  rewrite Hval. eexists. split; [reflexivity|].
  cbn [handlers set_handler slot lock reader stores].
  split; [|repeat split].
  apply list_lookup_insert_eq. apply lookup_lt_Some in Hpc. exact Hpc.
Qed.

Lemma validate_authurl_examples :
  netloc_checks "localhost:8080" = true ->
  validate_authurl "http://localhost:8080/?code=abc123&state=xyz" = Ok true
  /\ validate_authurl "http://localhost:8080/favicon.ico" = Ok false.
Proof.
  intros Hn. split.
  - apply validate_authurl_true.
    exists {| netloc := "localhost:8080"; path := "/";
              query := "code=abc123&state=xyz"; fragment := "" |}.
    split; [|reflexivity]. vm_compute in Hn. vm_compute. rewrite Hn. reflexivity.
  - apply validate_authurl_false.
    exists {| netloc := "localhost:8080"; path := "/favicon.ico";
              query := ""; fragment := "" |}.
    split; [|reflexivity]. vm_compute in Hn. vm_compute. rewrite Hn. reflexivity.
Qed.

(** C5, as amended.  [validate_authurl] accepts a candidate exactly when
    it parses as a URL whose query string has a field named [code] with a
    value that is not empty.  A candidate it rejects gets an explicit
    message on either path and the wait goes on: the reader prints the
    error and a new prompt and returns to the top of its loop, the
    listener answers with the invalid-request page and touches nothing.
    The two example URLs are accepted and rejected as described. *)
Theorem validate_authurl_spec :
  (forall url,
     validate_authurl url = Ok true <->
     exists parts, urlsplit url = Ok parts
                   /\ query_has_valued_param "code" (query parts) = true)
  /\ (forall c ready url,
        reader c = RRead -> validate_authurl url = Ok false ->
        exists c1,
          reader_step ready (Line url) c = Some c1
          /\ stdout c1 = (stdout c ++ [no_authcode_msg; authurl_prompt])%list
          /\ slot c1 = slot c
          /\ reader c1 = RUnlock Continue
          /\ forall ready' line',
               exists c2, reader_step ready' line' c1 = Some c2
                          /\ reader c2 = RSelect /\ slot c2 = slot c
                          /\ stdout c2 = stdout c1)
  /\ (forall c n path,
        handlers c !! n = Some (HStart path) ->
        validate_authurl ("http://localhost" ++ path) = Ok false ->
        exists c1,
          handler_step n c = Some c1
          /\ handlers c1 !! n = Some (HDone InvalidRequest)
          /\ slot c1 = slot c /\ lock c1 = lock c
          /\ reader c1 = reader c /\ stores c1 = stores c)
  /\ (netloc_checks "localhost:8080" = true ->
      validate_authurl "http://localhost:8080/?code=abc123&state=xyz" = Ok true
      /\ validate_authurl "http://localhost:8080/favicon.ico" = Ok false).
Proof.
  split; [exact validate_authurl_true|].
  split; [exact reader_rejects|].
  split; [exact handler_rejects|].
  exact validate_authurl_examples.
Qed.

End ValidateAuthurl.

(** The two example URLs on the small instance. *)
Lemma validate_authurl_spec_witness :
  @validate_authurl toy_library "http://localhost:8080/?code=abc123&state=xyz"
  = Ok true
  /\ @validate_authurl toy_library "http://localhost:8080/favicon.ico" = Ok false.
Proof.
  destruct (@validate_authurl_spec toy_library) as (_ & _ & _ & Hexamples).
  apply Hexamples. reflexivity.
Defined.

(** A [code] field without a value is in the query string, and the URL
    is rejected. *)
Lemma blank_code_is_rejected :
  @validate_authurl toy_library "http://localhost:8080/?code=" = Ok false
  /\ exists parts,
       @Urllib.urlsplit toy_library "http://localhost:8080/?code=" = Ok parts
       /\ Urllib.query_has_param "code" (Urllib.query parts) = true.
Proof.
  split; [vm_compute; reflexivity|].
  eexists. split; vm_compute; reflexivity.
Qed.

(** C5 as stated fails: acceptance is not equivalent to the query string
    containing a [code] parameter. *)
Lemma accepts_iff_has_code_fails : ~ (forall L : Library, @accepts_iff_has_code L).
Proof.
  intros Hclaim. destruct blank_code_is_rejected as [Hrej Hhas].
  apply (Hclaim toy_library) in Hhas. rewrite Hrej in Hhas. discriminate.
Qed.

(** ** The race for the authorization URL *)

Section AuthRaceFacts.
Context `{Library}.
Import AuthRace.

Lemma validate_authurl_nonempty url : validate_authurl url = Ok true -> url <> "".
Proof.
  intros Hval ->. unfold validate_authurl, Urllib.urlsplit in Hval.
  cbn in Hval. destruct (netloc_checks ""); discriminate.
Qed.

Lemma slot_empty c :
  slot_ok c -> str_truthy (slot c) = false -> stores c = [] /\ slot c = None.
Proof.
  intros [[Hst Hsl] | (t & url & Hst & Hsl & Hne)] Htruthy; [auto|].
  rewrite Hsl in Htruthy. destruct url; [contradiction | discriminate].
Qed.

Lemma slot_full c :
  slot_ok c -> str_truthy (slot c) = true ->
  exists t url, stores c = [(t, url)] /\ slot c = Some url /\ url <> "".
Proof.
  intros [[Hst Hsl] | Hfull] Htruthy; [|exact Hfull].
  rewrite Hsl in Htruthy. discriminate.
Qed.

Lemma str_truthy_nonempty url : url <> "" -> str_truthy (Some url) = true.
Proof. destruct url; [contradiction | reflexivity]. Qed.

Lemma inv_init : inv init.
Proof.
  constructor; cbn; try done.
  - left. split; reflexivity.
Qed.

Ltac lookup_insert H :=
  apply list_lookup_insert_Some in H as [(? & ? & ?) | (? & ?)]; subst.

Ltac bd := repeat case_bool_decide; simplify_eq; try congruence; try done.

Lemma inv_request c path :
  inv c ->
  inv {| slot := slot c; lock := lock c; reader := reader c;
         handlers := (handlers c ++ [HStart path])%list;
         stdout := stdout c; stores := stores c |}.
Proof.
  intros [I1 I2 I3 I4 I5 I6]. constructor; cbn [slot lock reader handlers stores].
  - exact I1.
  - intros n pc Hn. apply lookup_app_Some in Hn as [Hn | [Hlen Hn]].
    + exact (I2 n pc Hn).
    + apply list_lookup_singleton_Some in Hn as [Hz <-]. cbn.
      symmetry. apply bool_decide_eq_false. intros Hl. apply I3 in Hl. lia.
  - intros n Hn. apply I3 in Hn. rewrite length_app. cbn. lia.
  - exact I4.
  - exact I5.
  - intros n pc Hn. apply lookup_app_Some in Hn as [Hn | [Hlen Hn]].
    + exact (I6 n pc Hn).
    + apply list_lookup_singleton_Some in Hn as [Hz <-]. exact I.
Qed.

(** A step of handler thread [n]: it may take or give back the lock, and
    it may store if it is inside its [with] block and nothing was stored
    before. *)
Lemma inv_set_handler c n pc pc' lk sl st :
  inv c -> handlers c !! n = Some pc ->
  h_critical pc' = bool_decide (lk = Some (Handler n)) ->
  (lk = lock c
   \/ (h_critical pc = true \/ lock c = None)
      /\ (lk = None \/ lk = Some (Handler n))) ->
  (st = stores c /\ sl = slot c
   \/ h_critical pc = true /\ stores c = []
      /\ exists url, url <> "" /\ st = [(Handler n, url)] /\ sl = Some url) ->
  handler_ok st n pc' ->
  inv {| slot := sl; lock := lk; reader := reader c;
         handlers := <[n := pc']> (handlers c);
         stdout := stdout c; stores := st |}.
Proof.
  intros [I1 I2 I3 I4 I5 I6] Hpc Hcrit Hlock Hslot Hok.
  pose proof (I2 n pc Hpc) as Hn.
  assert (Hfree : lk = lock c \/ lock c <> Some Reader
                                 /\ (forall m, m <> n -> lock c <> Some (Handler m))
                                 /\ (lk = None \/ lk = Some (Handler n))).
  { destruct Hlock as [-> | [[Hc | Hnone] Hlk]]; [left; reflexivity | |].
    - right. rewrite Hc in Hn. symmetry in Hn. apply bool_decide_eq_true in Hn.
      rewrite Hn. repeat split; [discriminate | congruence | exact Hlk].
    - right. rewrite Hnone. repeat split; [discriminate | discriminate | exact Hlk]. }
  constructor; cbn [slot lock reader handlers stores].
  - destruct Hfree as [-> | (Hr & _ & Hlk)]; [exact I1|].
    rewrite I1. destruct Hlk as [-> | ->]; bd.
  - intros m pcm Hm. lookup_insert Hm; [exact Hcrit|].
    rewrite (I2 m pcm) by assumption.
    destruct Hfree as [-> | (_ & Hm' & Hlk)]; [reflexivity|].
    specialize (Hm' m ltac:(congruence)). destruct Hlk as [-> | ->]; bd.
  - intros m Hm. rewrite length_insert.
    destruct Hfree as [-> | (_ & _ & [-> | ->])]; [apply I3; exact Hm | discriminate |].
    injection Hm as <-. apply lookup_lt_Some in Hpc. exact Hpc.
  - destruct Hslot as [[-> ->] | (_ & _ & url & Hne & -> & ->)]; [exact I4|].
    right. eauto.
  - destruct Hslot as [[-> _] | (Hc & _ & _)]; [exact I5|].
    rewrite Hc in Hn. symmetry in Hn. apply bool_decide_eq_true in Hn.
    rewrite Hn in I1. destruct (reader c); try exact I.
    all: cbn in I1; symmetry in I1; apply bool_decide_eq_true in I1;
      discriminate.
  - intros m pcm Hm. lookup_insert Hm; [exact Hok|].
    pose proof (I6 m pcm ltac:(assumption)) as Hold.
    destruct Hslot as [[-> _] | (Hc & Hempty & url & Hne & -> & _)]; [exact Hold|].
    pose proof (I2 m pcm ltac:(assumption)) as Hm2.
    rewrite Hc in Hn. symmetry in Hn. apply bool_decide_eq_true in Hn.
    rewrite Hn in Hm2. rewrite Hempty in Hold.
    destruct pcm as [| | | |[]|[]|]; cbn in Hm2, Hold |- *;
      try exact I; try exact Hold; bd.
    all: destruct Hold as [url' Hold]; discriminate.
Qed.

(** The same for a step of the reader. *)
Lemma inv_set_reader c pc' lk sl st out :
  inv c ->
  r_critical pc' = bool_decide (lk = Some Reader) ->
  (lk = lock c
   \/ (r_critical (reader c) = true \/ lock c = None)
      /\ (lk = None \/ lk = Some Reader)) ->
  (st = stores c /\ sl = slot c
   \/ r_critical (reader c) = true /\ stores c = []
      /\ exists url, url <> "" /\ st = [(Reader, url)] /\ sl = Some url) ->
  reader_ok st pc' ->
  inv {| slot := sl; lock := lk; reader := pc'; handlers := handlers c;
         stdout := out; stores := st |}.
Proof.
  intros [I1 I2 I3 I4 I5 I6] Hcrit Hlock Hslot Hok.
  assert (Hfree : lk = lock c \/ (forall m, lock c <> Some (Handler m))
                                 /\ (lk = None \/ lk = Some Reader)).
  { destruct Hlock as [-> | [[Hc | Hnone] Hlk]]; [left; reflexivity | |].
    - right. rewrite Hc in I1. symmetry in I1. apply bool_decide_eq_true in I1.
      rewrite I1. split; [discriminate | exact Hlk].
    - right. rewrite Hnone. split; [discriminate | exact Hlk]. }
  constructor; cbn [slot lock reader handlers stores].
  - exact Hcrit.
  - intros m pcm Hm. rewrite (I2 m pcm Hm).
    destruct Hfree as [-> | (Hm' & Hlk)]; [reflexivity|].
    specialize (Hm' m). destruct Hlk as [-> | ->]; bd.
  - intros m Hm.
    destruct Hfree as [-> | (_ & [-> | ->])]; [apply I3; exact Hm | discriminate..].
  - destruct Hslot as [[-> ->] | (_ & _ & url & Hne & -> & ->)]; [exact I4|].
    right. eauto.
  - exact Hok.
  - intros m pcm Hm. pose proof (I6 m pcm Hm) as Hold.
    destruct Hslot as [[-> _] | (Hc & Hempty & url & Hne & -> & _)]; [exact Hold|].
    pose proof (I2 m pcm Hm) as Hm2.
    rewrite Hc in I1. symmetry in I1. apply bool_decide_eq_true in I1.
    rewrite I1 in Hm2. rewrite Hempty in Hold.
    destruct pcm as [| | | |[]|[]|]; cbn in Hm2, Hold |- *;
      try exact I; try exact Hold; bd.
    all: destruct Hold as [url' Hold]; discriminate.
Qed.

Lemma localhost_url_nonempty path : "http://localhost" ++ path <> "".
Proof. discriminate. Qed.

(** Every step keeps the invariant. *)
Lemma inv_handler_step n c c' : inv c -> handler_step n c = Some c' -> inv c'.
Proof.
  intros Hinv Hstep. unfold handler_step in Hstep.
  destruct (handlers c !! n) as [pc|] eqn:Hpc; [|discriminate].
  cbn [mbind option_bind] in Hstep.
  pose proof (inv_handler_lock c Hinv n pc Hpc) as Hn.
  pose proof (inv_handlers c Hinv n pc Hpc) as Hok.
  destruct pc as [path|url|url|url|p|p|e]; cbn [h_critical handler_ok] in Hn, Hok.
  - destruct (validate_authurl _) as [[]|e]; injection Hstep as <-;
      apply (inv_set_handler c n _ _ _ _ _ Hinv Hpc).
    all: try exact Hn.
    all: try (left; reflexivity).
    all: try (left; split; reflexivity).
    all: try exact I.
    apply localhost_url_nonempty.
  - destruct (lock c) eqn:Hl; [discriminate|]. injection Hstep as <-.
    apply (inv_set_handler c n _ _ _ _ _ Hinv Hpc).
    + cbn. symmetry. apply bool_decide_eq_true. reflexivity.
    + right. split; [right; exact Hl | right; reflexivity].
    + left. split; reflexivity.
    + exact Hok.
  - destruct (str_truthy (slot c)) eqn:Htruthy; injection Hstep as <-;
      apply (inv_set_handler c n _ _ _ _ _ Hinv Hpc).
    all: try exact Hn.
    all: try (left; reflexivity).
    all: try (left; split; reflexivity).
    all: try exact I.
    split; [|exact Hok].
    apply (slot_empty c (inv_slot c Hinv) Htruthy).
  - injection Hstep as <-. destruct Hok as [Hempty Hne].
    apply (inv_set_handler c n _ _ _ _ _ Hinv Hpc).
    + exact Hn.
    + left. reflexivity.
    + right. split; [reflexivity|]. split; [exact Hempty|].
      exists url. cbn. rewrite Hempty. auto.
    + exists url. cbn. rewrite Hempty. reflexivity.
  - injection Hstep as <-.
    apply (inv_set_handler c n _ _ _ _ _ Hinv Hpc).
    + cbn. symmetry. apply bool_decide_eq_false. discriminate.
    + right. split; [left; reflexivity | left; reflexivity].
    + left. split; reflexivity.
    + destruct p; exact Hok || exact I.
  - discriminate.
  - discriminate.
Qed.

Lemma inv_reader_step ready line c c' :
  inv c -> reader_step ready line c = Some c' -> inv c'.
Proof.
  intros Hinv Hstep. unfold reader_step in Hstep.
  pose proof (inv_reader_lock c Hinv) as Hr.
  pose proof (inv_reader c Hinv) as Hok.
  destruct (reader c) as [|readers|readers| |url| |l| |e] eqn:Hpc;
    cbn [r_critical reader_ok] in Hr, Hok.
  - injection Hstep as <-. apply (inv_set_reader c _ _ _ _ _ Hinv).
    + exact Hr.
    + left. reflexivity.
    + left. split; reflexivity.
    + exact I.
  - destruct (lock c) eqn:Hl; [discriminate|]. injection Hstep as <-.
    apply (inv_set_reader c _ _ _ _ _ Hinv).
    + cbn. symmetry. apply bool_decide_eq_true. reflexivity.
    + right. split; [right; exact Hl | right; reflexivity].
    + left. split; reflexivity.
    + exact I.
  - destruct (negb (str_truthy (slot c)) && readers) eqn:Htest;
      [|destruct (str_truthy (slot c))]; injection Hstep as <-;
      apply (inv_set_reader c _ _ _ _ _ Hinv).
    all: try exact Hr.
    all: try (left; reflexivity).
    all: try (left; split; reflexivity).
    all: try exact I.
    apply andb_true_iff in Htest as [Htest _]. apply negb_true_iff in Htest.
    apply (slot_empty c (inv_slot c Hinv) Htest).
  - destruct line as [url|].
    + destruct (validate_authurl url) as [[]|e] eqn:Hval; injection Hstep as <-;
        apply (inv_set_reader c _ _ _ _ _ Hinv).
      all: try exact Hr.
      all: try (left; reflexivity).
      all: try (left; split; reflexivity).
      all: try exact I.
      split; [exact Hok | exact (validate_authurl_nonempty url Hval)].
    + injection Hstep as <-. apply (inv_set_reader c _ _ _ _ _ Hinv).
      * exact Hr.
      * left. reflexivity.
      * left. split; reflexivity.
      * exact I.
  - injection Hstep as <-. destruct Hok as [Hempty Hne].
    apply (inv_set_reader c _ _ _ _ _ Hinv).
    + exact Hr.
    + left. reflexivity.
    + right. rewrite Hpc. split; [reflexivity|]. split; [exact Hempty|].
      exists url. cbn. rewrite Hempty. auto.
    + exact I.
  - destruct (str_truthy (slot c)); injection Hstep as <-;
      apply (inv_set_reader c _ _ _ _ _ Hinv).
    all: try exact Hr.
    all: try (left; reflexivity).
    all: try (left; split; reflexivity).
    all: exact I.
  - injection Hstep as <-. apply (inv_set_reader c _ _ _ _ _ Hinv).
    + destruct l; cbn; symmetry; apply bool_decide_eq_false; discriminate.
    + right. rewrite Hpc. split; [left; reflexivity | left; reflexivity].
    + left. split; reflexivity.
    + destruct l; exact I.
  - discriminate.
  - discriminate.
Qed.

Lemma inv_step l c c' : inv c -> step l c = Some c' -> inv c'.
Proof.
  intros Hinv Hstep. destruct l as [path|n|ready line]; cbn [step] in Hstep.
  - injection Hstep as <-. apply inv_request. exact Hinv.
  - exact (inv_handler_step n c c' Hinv Hstep).
  - exact (inv_reader_step ready line c c' Hinv Hstep).
Qed.

Lemma inv_run ls : forall c c', inv c -> run ls c = Some c' -> inv c'.
Proof.
  induction ls as [|l ls IH]; intros c c' Hinv Hrun; cbn [run] in Hrun.
  - injection Hrun as <-. exact Hinv.
  - destruct (step l c) as [c1|] eqn:Hstep; [|discriminate].
    cbn [mbind option_bind] in Hrun.
    exact (IH c1 c' (inv_step l c c1 Hinv Hstep) Hrun).
Qed.

Lemma reachable_inv c : reachable c -> inv c.
Proof. intros [ls Hrun]. exact (inv_run ls init c inv_init Hrun). Qed.

(** A step leaves the slot alone, or it is the store of the lock holder
    into the empty slot. *)
Lemma step_slot l c c' :
  inv c -> step l c = Some c' ->
  (slot c' = slot c /\ stores c' = stores c)
  \/ (slot c = None /\ stores c = []
      /\ exists t url, actor l = Some t /\ lock c = Some t
                       /\ slot c' = Some url /\ stores c' = [(t, url)]).
Proof.
  intros Hinv Hstep. destruct l as [path|n|ready line]; cbn [step] in Hstep.
  - injection Hstep as <-. left. split; reflexivity.
  - unfold handler_step in Hstep.
    destruct (handlers c !! n) as [pc|] eqn:Hpc; [|discriminate].
    cbn [mbind option_bind] in Hstep.
    pose proof (inv_handler_lock c Hinv n pc Hpc) as Hn.
    pose proof (inv_handlers c Hinv n pc Hpc) as Hok.
    destruct pc as [path|url|url|url|p|p|e]; cbn [h_critical handler_ok] in Hn, Hok.
    + destruct (validate_authurl _) as [[]|e]; injection Hstep as <-;
        left; split; reflexivity.
    + destruct (lock c); [discriminate|]. injection Hstep as <-.
      left. split; reflexivity.
    + destruct (str_truthy (slot c)); injection Hstep as <-;
        left; split; reflexivity.
    + injection Hstep as <-. right. destruct Hok as [Hempty _].
      destruct (inv_slot c Hinv) as [[_ Hsl] | (t & u & Hst & _)]; [|congruence].
      symmetry in Hn. apply bool_decide_eq_true in Hn.
      repeat split; [exact Hsl | exact Hempty|].
      exists (Handler n), url. cbn. rewrite Hempty. auto.
    + injection Hstep as <-. left. split; reflexivity.
    + discriminate.
    + discriminate.
  - unfold reader_step in Hstep.
    pose proof (inv_reader_lock c Hinv) as Hr.
    pose proof (inv_reader c Hinv) as Hok.
    destruct (reader c) as [|readers|readers| |url| |lv| |e] eqn:Hpc;
      cbn [r_critical reader_ok] in Hr, Hok.
    + injection Hstep as <-. left. split; reflexivity.
    + destruct (lock c); [discriminate|]. injection Hstep as <-.
      left. split; reflexivity.
    + destruct (negb (str_truthy (slot c)) && readers);
        [|destruct (str_truthy (slot c))]; injection Hstep as <-;
        left; split; reflexivity.
    + destruct line as [url|];
        [destruct (validate_authurl url) as [[]|e]|]; injection Hstep as <-;
        left; split; reflexivity.
    + injection Hstep as <-. right. destruct Hok as [Hempty _].
      destruct (inv_slot c Hinv) as [[_ Hsl] | (t & u & Hst & _)]; [|congruence].
      symmetry in Hr. apply bool_decide_eq_true in Hr.
      repeat split; [exact Hsl | exact Hempty|].
      exists Reader, url. cbn. rewrite Hempty. auto.
    + destruct (str_truthy (slot c)); injection Hstep as <-;
        left; split; reflexivity.
    + injection Hstep as <-. left. split; reflexivity.
    + discriminate.
    + discriminate.
Qed.

(** Once the slot holds a URL, no run changes it. *)
Lemma run_keeps_slot ls : forall c c',
  inv c -> str_truthy (slot c) = true -> run ls c = Some c' ->
  slot c' = slot c /\ stores c' = stores c.
Proof.
  induction ls as [|l ls IH]; intros c c' Hinv Htruthy Hrun; cbn [run] in Hrun.
  - injection Hrun as <-. split; reflexivity.
  - destruct (step l c) as [c1|] eqn:Hstep; [|discriminate].
    cbn [mbind option_bind] in Hrun.
    destruct (step_slot l c c1 Hinv Hstep) as [[Hsl Hst] | (Hnone & _)].
    + destruct (IH c1 c' (inv_step l c c1 Hinv Hstep)
                  ltac:(rewrite Hsl; exact Htruthy) Hrun) as [Hsl' Hst'].
      split; congruence.
    + rewrite Hnone in Htruthy. discriminate.
Qed.

(** The reader that finds the slot taken prints the notice and leaves. *)
Lemma reader_cancels c readers :
  reader c = RTest readers -> str_truthy (slot c) = true ->
  forall ready line,
    exists c1 c2 c3,
      reader_step ready line c = Some c1
      /\ stdout c1 = (stdout c ++ [canceled_msg])%list
      /\ reader_step ready line c1 = Some c2
      /\ reader_step ready line c2 = Some c3
      /\ reader c3 = RDone /\ slot c3 = slot c /\ lock c3 = None
      /\ stdout c3 = stdout c1.
Proof.
  intros Hpc Htruthy ready line. unfold reader_step at 1.
  rewrite Hpc, Htruthy. cbn [negb andb].
  eexists _, _, _. split; [reflexivity|]. split; [reflexivity|].
  unfold reader_step at 1. cbn [reader set_reader slot print].
  rewrite Htruthy. split; [reflexivity|].
  unfold reader_step at 1. cbn [reader set_reader].
  split; [reflexivity|]. repeat split.
Qed.

(** The handler that finds the slot taken answers "already provided". *)
Lemma handler_already_provided c n url :
  handlers c !! n = Some (HTest url) -> str_truthy (slot c) = true ->
  exists c',
    handler_step n c = Some c'
    /\ handlers c' !! n = Some (HUnlock AlreadyProvided)
    /\ slot c' = slot c /\ stores c' = stores c.
Proof.
  intros Hpc Htruthy. unfold handler_step. rewrite Hpc.
  cbn [mbind option_bind]. rewrite Htruthy.
  eexists. split; [reflexivity|]. cbn [handlers set_handler slot stores].
  split; [|split; reflexivity].
  apply list_lookup_insert_eq. apply lookup_lt_Some in Hpc. exact Hpc.
Qed.

(** C2.  In every configuration the two threads of an authorization
    attempt can reach: at most one URL was ever stored in the slot; a
    slot that holds a URL is never changed again; the slot changes only
    by a store of the thread holding the lock, into the empty slot; a
    thread is at its test of the slot only while it holds the lock; a
    handler that finds the slot taken answers "already provided", and the
    only handler that answers "completed" is the one whose URL is in the
    slot; the reader that finds the slot taken prints the cancellation
    notice and leaves its loop. *)
Theorem authurl_single_assignment c :
  reachable c ->
  length (stores c) <= 1
  /\ (forall ls c', run ls c = Some c' -> str_truthy (slot c) = true ->
        slot c' = slot c /\ stores c' = stores c)
  /\ (forall l c', step l c = Some c' -> slot c' <> slot c ->
        slot c = None
        /\ exists t url, actor l = Some t /\ lock c = Some t
                         /\ slot c' = Some url /\ stores c' = [(t, url)])
  /\ (forall n url, handlers c !! n = Some (HTest url) ->
        lock c = Some (Handler n)
        /\ (str_truthy (slot c) = true ->
            exists c', handler_step n c = Some c'
                       /\ handlers c' !! n = Some (HUnlock AlreadyProvided)
                       /\ slot c' = slot c /\ stores c' = stores c))
  /\ (forall n, handlers c !! n = Some (HDone RedirectCompleted) ->
        exists url, stores c = [(Handler n, url)] /\ slot c = Some url)
  /\ (forall readers, reader c = RTest readers ->
        lock c = Some Reader
        /\ (str_truthy (slot c) = true ->
            forall ready line,
              exists c1 c2 c3,
                reader_step ready line c = Some c1
                /\ stdout c1 = (stdout c ++ [canceled_msg])%list
                /\ reader_step ready line c1 = Some c2
                /\ reader_step ready line c2 = Some c3
                /\ reader c3 = RDone /\ slot c3 = slot c /\ lock c3 = None
                /\ stdout c3 = stdout c1)).
Proof.
  intros Hreach. pose proof (reachable_inv c Hreach) as Hinv.
  split.
  { destruct (inv_slot c Hinv) as [[-> _] | (t & u & -> & _)]; cbn; lia. }
  split.
  { intros ls c' Hrun Htruthy. exact (run_keeps_slot ls c c' Hinv Htruthy Hrun). }
  split.
  { intros l c' Hstep Hchange.
    destruct (step_slot l c c' Hinv Hstep)
      as [[Hsl _] | (Hnone & _ & t & url & Hactor & Hlock & Hsl & Hst)];
      [contradiction|].
    split; [exact Hnone|]. exists t, url. auto. }
  split.
  { intros n url Hpc. split.
    - pose proof (inv_handler_lock c Hinv n _ Hpc) as Hn. cbn in Hn.
      symmetry in Hn. apply bool_decide_eq_true in Hn. exact Hn.
    - intros Htruthy. exact (handler_already_provided c n url Hpc Htruthy). }
  split.
  { intros n Hpc. destruct (inv_handlers c Hinv n _ Hpc) as [url Hst].
    exists url. split; [exact Hst|].
    destruct (inv_slot c Hinv) as [[Hempty _] | (t & u & Hst' & Hsl & _)];
      congruence. }
  intros readers Hpc. split.
  - pose proof (inv_reader_lock c Hinv) as Hr. rewrite Hpc in Hr. cbn in Hr.
    symmetry in Hr. apply bool_decide_eq_true in Hr. exact Hr.
  - intros Htruthy. exact (reader_cancels c readers Hpc Htruthy).
Qed.

End AuthRaceFacts.

(** The invariant at the end of the example run. *)
Lemma authurl_single_assignment_witness :
  @AuthRace.reachable toy_library race_example_config
  /\ length (AuthRace.stores race_example_config) <= 1
  /\ AuthRace.lock race_example_config = Some AuthRace.Reader
  /\ AuthRace.slot race_example_config
     = Some "http://localhost/?code=abc123&state=xyz".
Proof.
  assert (Hreach : @AuthRace.reachable toy_library race_example_config).
  { exists race_example. vm_compute. reflexivity. }
  split; [exact Hreach|].
  destruct (@authurl_single_assignment toy_library race_example_config Hreach)
    as (Hone & _ & _ & _ & Hdone & Htest).
  split; [exact Hone|].
  split.
  - destruct (Htest false) as [Hlock _]; [reflexivity | exact Hlock].
  - destruct (Hdone 0) as (url & Hst & Hsl); [reflexivity|].
    rewrite Hsl. vm_compute in Hst. injection Hst as <-. reflexivity.
Defined.

(** ** More on the race: what is stored, and who can move *)

Section AuthRaceMore.
Context `{Library}.
Import AuthRace Schedule.

Lemma urls_checked_init : urls_checked init.
Proof.
  constructor; cbn.
  - intros t url Hin. apply elem_of_nil in Hin. contradiction.
  - intros n url Hin. apply elem_of_nil in Hin. contradiction.
  - intros n pc url Hn. rewrite lookup_nil in Hn. discriminate.
  - discriminate.
Qed.

Lemma urls_checked_request c path :
  urls_checked c ->
  urls_checked {| slot := slot c; lock := lock c; reader := reader c;
                  handlers := (handlers c ++ [HStart path])%list;
                  stdout := stdout c; stores := stores c |}.
Proof.
  intros [V1 V2 V3 V4]. constructor; cbn [slot lock reader handlers stores].
  - exact V1.
  - exact V2.
  - intros n pc url Hn Hc. apply lookup_app_Some in Hn as [Hn | [_ Hn]].
    + exact (V3 n pc url Hn Hc).
    + apply list_lookup_singleton_Some in Hn as [_ <-]. discriminate.
  - exact V4.
Qed.

(** A handler step that stores nothing. *)
Lemma urls_checked_set_handler c n pc' lk out :
  urls_checked c ->
  n < length (handlers c) ->
  (forall url, carried pc' = Some url ->
     validate_authurl url = Ok true /\ from_listener url) ->
  urls_checked {| slot := slot c; lock := lk; reader := reader c;
                  handlers := <[n := pc']> (handlers c);
                  stdout := out; stores := stores c |}.
Proof.
  intros [V1 V2 V3 V4] Hlt Hpc'.
  constructor; cbn [slot lock reader handlers stores].
  - exact V1.
  - exact V2.
  - intros m pc url Hm Hc.
    apply list_lookup_insert_Some in Hm as [(-> & <- & _) | (_ & Hm)].
    + exact (Hpc' url Hc).
    + exact (V3 m pc url Hm Hc).
  - exact V4.
Qed.

Lemma urls_checked_handler_step n c c' :
  urls_checked c -> handler_step n c = Some c' -> urls_checked c'.
Proof.
  intros Hv Hstep. unfold handler_step in Hstep.
  destruct (handlers c !! n) as [pc|] eqn:Hpc; [|discriminate].
  cbn [mbind option_bind] in Hstep.
  pose proof (lookup_lt_Some _ _ _ Hpc) as Hlt.
  pose proof (fun url => checked_handlers c Hv n pc url Hpc) as Hcar.
  destruct pc as [path|url|url|url|p|p|e]; cbn [carried] in Hcar.
  - destruct (validate_authurl _) as [[]|e] eqn:Hval; injection Hstep as <-;
      apply (urls_checked_set_handler c n); try assumption; cbn [carried];
      try discriminate.
    intros url [= <-]. split; [exact Hval | exists path; reflexivity].
  - destruct (lock c); [discriminate|]. injection Hstep as <-.
    apply (urls_checked_set_handler c n (HTest url)); assumption.
  - destruct (str_truthy (slot c)); injection Hstep as <-.
    + apply (urls_checked_set_handler c n); try assumption; try discriminate.
    + apply (urls_checked_set_handler c n (HStore url)); assumption.
  - injection Hstep as <-. destruct (Hcar url eq_refl) as [Hval Hfrom].
    destruct Hv as [V1 V2 V3 V4].
    constructor; cbn [slot lock reader handlers stores set_handler store].
    + intros t u Hin. apply elem_of_app in Hin as [Hin | Hin]; [eauto|].
      apply list_elem_of_singleton in Hin as [= -> ->]. exact Hval.
    + intros m u Hin. apply elem_of_app in Hin as [Hin | Hin]; [eauto|].
      apply list_elem_of_singleton in Hin as [= -> ->]. exact Hfrom.
    + intros m pc u Hm Hc.
      apply list_lookup_insert_Some in Hm as [(-> & <- & _) | (_ & Hm)];
        [discriminate | exact (V3 m pc u Hm Hc)].
    + exact V4.
  - injection Hstep as <-.
    apply (urls_checked_set_handler c n); try assumption; try discriminate.
  - discriminate.
  - discriminate.
Qed.

Lemma urls_checked_set_reader c pc' lk out :
  urls_checked c ->
  (forall url, pc' = RStore url -> validate_authurl url = Ok true) ->
  urls_checked {| slot := slot c; lock := lk; reader := pc';
                  handlers := handlers c; stdout := out; stores := stores c |}.
Proof.
  intros [V1 V2 V3 V4] Hpc'. constructor; cbn [slot lock reader handlers stores].
  - exact V1.
  - exact V2.
  - exact V3.
  - exact Hpc'.
Qed.

Lemma urls_checked_reader_step ready line c c' :
  urls_checked c -> reader_step ready line c = Some c' -> urls_checked c'.
Proof.
  intros Hv Hstep. unfold reader_step in Hstep.
  pose proof (checked_reader c Hv) as Hr.
  destruct (reader c) as [|readers|readers| |url| |l| |e] eqn:Hpc.
  - injection Hstep as <-. apply (urls_checked_set_reader c); try assumption; try discriminate.
  - destruct (lock c); [discriminate|]. injection Hstep as <-.
    apply (urls_checked_set_reader c); try assumption; try discriminate.
  - destruct (negb (str_truthy (slot c)) && readers);
      [|destruct (str_truthy (slot c))]; injection Hstep as <-;
      apply (urls_checked_set_reader c); try assumption; discriminate.
  - destruct line as [url|].
    + destruct (validate_authurl url) as [[]|e] eqn:Hval; injection Hstep as <-;
        apply (urls_checked_set_reader c); try assumption; try discriminate.
      intros u [= <-]. exact Hval.
    + injection Hstep as <-.
      apply (urls_checked_set_reader c); try assumption; try discriminate.
  - injection Hstep as <-. pose proof (Hr url eq_refl) as Hval.
    destruct Hv as [V1 V2 V3 V4].
    constructor; cbn [slot lock reader handlers stores set_reader store].
    + intros t u Hin. apply elem_of_app in Hin as [Hin | Hin]; [eauto|].
      apply list_elem_of_singleton in Hin as [= -> ->]. exact Hval.
    + intros m u Hin. apply elem_of_app in Hin as [Hin | Hin]; [eauto|].
      apply list_elem_of_singleton in Hin. discriminate.
    + exact V3.
    + discriminate.
  - destruct (str_truthy (slot c)); injection Hstep as <-;
      apply (urls_checked_set_reader c); try assumption; discriminate.
  - injection Hstep as <-.
    apply (urls_checked_set_reader c); [assumption|]. destruct l; discriminate.
  - discriminate.
  - discriminate.
Qed.

Lemma urls_checked_run ls : forall c c',
  urls_checked c -> run ls c = Some c' -> urls_checked c'.
Proof.
  induction ls as [|l ls IH]; intros c c' Hv Hrun; cbn [run] in Hrun.
  - injection Hrun as <-. exact Hv.
  - destruct (step l c) as [c1|] eqn:Hstep; [|discriminate].
    cbn [mbind option_bind] in Hrun. apply (IH c1 c'); [|exact Hrun].
    destruct l as [path|n|ready line]; cbn [step] in Hstep.
    + injection Hstep as <-. apply urls_checked_request. exact Hv.
    + exact (urls_checked_handler_step n c c1 Hv Hstep).
    + exact (urls_checked_reader_step ready line c c1 Hv Hstep).
Qed.

(** X1.  Whatever sits in the slot passed [validate_authurl]; it was
    stored by exactly one thread, and if that thread is a listener
    handler the URL is [http://localhost] followed by the request
    path. *)
Theorem accepted_url_is_validated c url :
  reachable c -> slot c = Some url ->
  validate_authurl url = Ok true
  /\ exists t, stores c = [(t, url)]
               /\ forall n, t = Handler n -> from_listener url.
Proof.
  intros Hreach Hslot. pose proof (reachable_inv c Hreach) as Hinv.
  destruct Hreach as [ls Hrun].
  pose proof (urls_checked_run ls init c urls_checked_init Hrun) as Hv.
  destruct (inv_slot c Hinv) as [[_ Hnone] | (t & u & Hst & Hsl & _)];
    [congruence|].
  assert (u = url) as -> by congruence.
  assert (Hin : (t, url) ∈ stores c).
  { rewrite Hst. apply list_elem_of_singleton. reflexivity. }
  split; [exact (checked_stores c Hv t url Hin)|].
  exists t. split; [exact Hst|].
  intros n ->. exact (checked_handler_stores c Hv n url Hin).
Qed.

Lemma run_cons l ls c c1 c' :
  step l c = Some c1 -> run ls c1 = Some c' -> run (l :: ls) c = Some c'.
Proof. intros Hstep Hrun. cbn [run]. rewrite Hstep. exact Hrun. Qed.

Lemma releases_after_step bound l c c1 :
  step l c = Some c1 -> releases_within bound l c1 ->
  releases_within (S bound) l c.
Proof.
  intros Hstep (k & c' & Hk & Hrun & Hlock). exists (S k), c'.
  split; [lia|]. split; [|exact Hlock].
  cbn [replicate]. exact (run_cons l _ c c1 c' Hstep Hrun).
Qed.

Lemma releases_more bound bound' l c :
  bound <= bound' -> releases_within bound l c -> releases_within bound' l c.
Proof.
  intros Hle (k & c' & Hk & Hrun & Hlock). exists k, c'.
  split; [lia|]. split; assumption.
Qed.

Lemma handler_releases c n pc :
  handlers c !! n = Some pc -> h_critical pc = true ->
  releases_within 3 (HandlerStep n) c.
Proof.
  intros Hpc Hcrit. pose proof (lookup_lt_Some _ _ _ Hpc) as Hlt.
  assert (Hunlock : forall c0 p, handlers c0 !! n = Some (HUnlock p) ->
                     releases_within 1 (HandlerStep n) c0).
  { intros c0 p H0. exists 1, (set_handler n (HDone p) (set_lock None c0)).
    split; [lia|]. split; [|reflexivity].
    cbn [replicate run step]. unfold handler_step. rewrite H0. reflexivity. }
  assert (Hstore : forall c0 url, handlers c0 !! n = Some (HStore url) ->
                    releases_within 2 (HandlerStep n) c0).
  { intros c0 url H0. pose proof (lookup_lt_Some _ _ _ H0) as Hlt0.
    eapply releases_after_step.
    - cbn [step]. unfold handler_step. rewrite H0. reflexivity.
    - apply (Hunlock _ RedirectCompleted). cbn [handlers set_handler store].
      apply list_lookup_insert_eq. exact Hlt0. }
  destruct pc as [path|url|url|url|p|p|e]; try discriminate.
  - destruct (str_truthy (slot c)) eqn:Htruthy.
    + apply (releases_more 2); [lia|]. eapply releases_after_step.
      * cbn [step]. unfold handler_step. rewrite Hpc. cbn [mbind option_bind].
        rewrite Htruthy. reflexivity.
      * apply (Hunlock _ AlreadyProvided). cbn [handlers set_handler].
        apply list_lookup_insert_eq. exact Hlt.
    + eapply releases_after_step.
      * cbn [step]. unfold handler_step. rewrite Hpc. cbn [mbind option_bind].
        rewrite Htruthy. reflexivity.
      * apply (Hstore _ url). cbn [handlers set_handler].
        apply list_lookup_insert_eq. exact Hlt.
  - apply (releases_more 2); [lia|]. exact (Hstore c url Hpc).
  - apply (releases_more 1); [lia|]. exact (Hunlock c p Hpc).
Qed.

Lemma reader_releases c ready line :
  r_critical (reader c) = true ->
  releases_within 5 (ReaderStep ready line) c.
Proof.
  intros Hcrit.
  assert (Hunlock : forall c0 l, reader c0 = RUnlock l ->
                     releases_within 1 (ReaderStep ready line) c0).
  { intros c0 l H0. eexists 1, _. split; [lia|]. split.
    - cbn [replicate run step]. unfold reader_step. rewrite H0. reflexivity.
    - reflexivity. }
  assert (Hbreak : forall c0, reader c0 = RBreakTest ->
                    releases_within 2 (ReaderStep ready line) c0).
  { intros c0 H0. destruct (str_truthy (slot c0)) eqn:Htruthy;
      (eapply releases_after_step;
       [cbn [step]; unfold reader_step; rewrite H0, Htruthy; reflexivity
       |eapply Hunlock; reflexivity]). }
  assert (Hstore : forall c0 url, reader c0 = RStore url ->
                    releases_within 3 (ReaderStep ready line) c0).
  { intros c0 url H0. eapply releases_after_step.
    - cbn [step]. unfold reader_step. rewrite H0. reflexivity.
    - apply Hbreak. reflexivity. }
  assert (Hread : forall c0, reader c0 = RRead ->
                   releases_within 4 (ReaderStep ready line) c0).
  { intros c0 H0. destruct line as [url|].
    - destruct (validate_authurl url) as [[]|e] eqn:Hval.
      + eapply releases_after_step.
        * cbn [step]. unfold reader_step. rewrite H0, Hval. reflexivity.
        * eapply Hstore. reflexivity.
      + apply (releases_more 2); [lia|]. eapply releases_after_step.
        * cbn [step]. unfold reader_step. rewrite H0, Hval. reflexivity.
        * eapply Hunlock. reflexivity.
      + apply (releases_more 2); [lia|]. eapply releases_after_step.
        * cbn [step]. unfold reader_step. rewrite H0, Hval. reflexivity.
        * eapply Hunlock. reflexivity.
    - apply (releases_more 2); [lia|]. eapply releases_after_step.
      + cbn [step]. unfold reader_step. rewrite H0. reflexivity.
      + eapply Hunlock. reflexivity. }
  destruct (reader c) as [|readers|readers| |url| |l| |e] eqn:Hpc;
    try discriminate.
  - destruct (negb (str_truthy (slot c)) && readers) eqn:Htest.
    + eapply releases_after_step.
      * cbn [step]. unfold reader_step. rewrite Hpc, Htest. reflexivity.
      * apply Hread. reflexivity.
    + apply (releases_more 3); [lia|].
      destruct (str_truthy (slot c)) eqn:Htruthy;
        (eapply releases_after_step;
         [cbn [step]; unfold reader_step; rewrite Hpc, Htruthy, Htest;
          reflexivity
         |eapply Hbreak; reflexivity]).
  - apply (releases_more 4); [lia|]. apply Hread. exact Hpc.
  - apply (releases_more 3); [lia|]. exact (Hstore c url Hpc).
  - apply (releases_more 2); [lia|]. exact (Hbreak c Hpc).
  - apply (releases_more 1); [lia|]. exact (Hunlock c l Hpc).
Qed.

(** A thread is inside its block exactly while it holds the lock. *)
Lemma inside_iff_holder c t :
  inv c -> inside t c = true <-> lock c = Some t.
Proof.
  intros Hinv. destruct t as [|n]; cbn [inside].
  - rewrite (inv_reader_lock c Hinv). apply bool_decide_eq_true.
  - destruct (handlers c !! n) as [pc|] eqn:Hpc.
    + rewrite (inv_handler_lock c Hinv n pc Hpc). apply bool_decide_eq_true.
    + split; [discriminate|]. intros Hlock.
      pose proof (inv_lock_range c Hinv n Hlock) as Hlt.
      apply lookup_ge_None in Hpc. lia.
Qed.

(** X2.  The lock is given back on every way out of a [with] block.  In
    every reachable state the holder of [authurl_lock] is inside its
    block and no other thread is.  From there, with what [readline]
    returns or raises taken as given (a line that is accepted or
    rejected, a line on which [validate_authurl] raises, Ctrl-C), the
    holder needs at most five of its own statements to leave the block,
    and the lock is free when it has left.  How long [readline], which
    the reader calls under the lock, takes to return is not part of the
    statement. *)
Theorem lock_holder_releases c t ready line :
  reachable c -> lock c = Some t ->
  inside t c = true
  /\ (forall t', inside t' c = true -> t' = t)
  /\ exists k c',
       1 <= k <= 5
       /\ run (replicate k (own t ready line)) c = Some c'
       /\ lock c' = None
       /\ forall t', inside t' c' = false.
Proof.
  intros Hreach Hlock. pose proof (reachable_inv c Hreach) as Hinv.
  split; [apply (inside_iff_holder c t Hinv); exact Hlock|].
  split.
  { intros t' Hin. apply (inside_iff_holder c t' Hinv) in Hin. congruence. }
  assert (Hrel : releases_within 5 (own t ready line) c).
  { destruct t as [|n]; cbn [own].
    - apply reader_releases. rewrite (inv_reader_lock c Hinv).
      apply bool_decide_eq_true. exact Hlock.
    - pose proof (inv_lock_range c Hinv n Hlock) as Hlt.
      destruct (lookup_lt_is_Some_2 _ _ Hlt) as [pc Hpc].
      apply (releases_more 3); [lia|]. apply (handler_releases c n pc Hpc).
      rewrite (inv_handler_lock c Hinv n pc Hpc).
      apply bool_decide_eq_true. exact Hlock. }
  destruct Hrel as (k & c' & Hk & Hrun & Hfree).
  exists k, c'. split; [exact Hk|]. split; [exact Hrun|]. split; [exact Hfree|].
  intros t'. pose proof (inv_run _ c c' Hinv Hrun) as Hinv'.
  destruct (inside t' c') eqn:Hin; [|reflexivity].
  apply (inside_iff_holder c' t' Hinv') in Hin. congruence.
Qed.

Lemma handler_step_reader n c c' :
  handler_step n c = Some c' -> reader c' = reader c.
Proof.
  unfold handler_step. destruct (handlers c !! n) as [pc|]; [|discriminate].
  cbn [mbind option_bind].
  destruct pc as [path|url|url|url|p|p|e]; try discriminate.
  - destruct (validate_authurl _) as [[]|e]; intros [= <-]; reflexivity.
  - destruct (lock c); [discriminate|]. intros [= <-]. reflexivity.
  - destruct (str_truthy (slot c)); intros [= <-]; reflexivity.
  - intros [= <-]. reflexivity.
  - intros [= <-]. reflexivity.
Qed.

(** Where the reader stands once it has decided to leave its loop. *)
Lemma leaving_step l c c' :
  inv c -> is_interrupt l = false -> step l c = Some c' ->
  (reader c = RUnlock Break \/ reader c = RDone -> str_truthy (slot c) = true) ->
  reader c' = RUnlock Break \/ reader c' = RDone -> str_truthy (slot c') = true.
Proof.
  intros Hinv Hint Hstep Hold Hnew.
  destruct l as [path|n|ready line]; cbn [step] in Hstep.
  - injection Hstep as <-. exact (Hold Hnew).
  - pose proof (handler_step_reader n c c' Hstep) as Hr. rewrite Hr in Hnew.
    destruct (step_slot (HandlerStep n) c c' Hinv Hstep)
      as [[Hsl _] | (Hnone & _)].
    + rewrite Hsl. exact (Hold Hnew).
    + specialize (Hold Hnew). rewrite Hnone in Hold. discriminate.
  - unfold reader_step in Hstep.
    destruct (reader c) as [|readers|readers| |url| |lv| |e] eqn:Hpc.
    + injection Hstep as <-. destruct Hnew; discriminate.
    + destruct (lock c); [discriminate|]. injection Hstep as <-.
      destruct Hnew; discriminate.
    + destruct (negb (str_truthy (slot c)) && readers);
        [|destruct (str_truthy (slot c))]; injection Hstep as <-;
        destruct Hnew; discriminate.
    + destruct line as [url|]; [|discriminate].
      destruct (validate_authurl url) as [[]|e]; injection Hstep as <-;
        destruct Hnew; discriminate.
    + injection Hstep as <-. destruct Hnew; discriminate.
    + destruct (str_truthy (slot c)) eqn:Htruthy; injection Hstep as <-.
      * exact Htruthy.
      * destruct Hnew; discriminate.
    + injection Hstep as <-. cbn [slot set_reader set_lock].
      destruct lv; cbn in Hnew; try (destruct Hnew; discriminate).
      apply Hold. left. reflexivity.
    + discriminate.
    + discriminate.
Qed.

Lemma leaving_run ls : forall c c',
  inv c -> forallb (fun l => negb (is_interrupt l)) ls = true ->
  run ls c = Some c' ->
  (reader c = RUnlock Break \/ reader c = RDone -> str_truthy (slot c) = true) ->
  reader c' = RUnlock Break \/ reader c' = RDone -> str_truthy (slot c') = true.
Proof.
  induction ls as [|l ls IH]; intros c c' Hinv Hint Hrun Hold;
    cbn [run forallb] in Hrun, Hint.
  - injection Hrun as <-. exact Hold.
  - destruct (step l c) as [c1|] eqn:Hstep; [|discriminate].
    cbn [mbind option_bind] in Hrun.
    apply andb_true_iff in Hint as [Hl Hint]. apply negb_true_iff in Hl.
    apply (IH c1 c' (inv_step l c c1 Hinv Hstep) Hint Hrun).
    exact (leaving_step l c c1 Hinv Hl Hstep Hold).
Qed.

(** X3.  Unless the user interrupts it, [_wait_for_authurl_on_stdin]
    returns only when the slot holds a URL, and that URL passed
    [validate_authurl]: the "stopped waiting but none found" error of the
    caller is out of reach. *)
Theorem reader_returns_with_url ls c :
  run ls init = Some c ->
  forallb (fun l => negb (is_interrupt l)) ls = true ->
  reader c = RDone ->
  exists url, slot c = Some url /\ url <> ""
              /\ validate_authurl url = Ok true.
Proof.
  intros Hrun Hint Hdone.
  pose proof (inv_run ls init c inv_init Hrun) as Hinv.
  pose proof (urls_checked_run ls init c urls_checked_init Hrun) as Hv.
  assert (Htruthy : str_truthy (slot c) = true).
  { apply (leaving_run ls init c inv_init Hint Hrun).
    - intros [Hr | Hr]; discriminate.
    - right. exact Hdone. }
  destruct (slot_full c (inv_slot c Hinv) Htruthy) as (t & url & Hst & Hsl & Hne).
  exists url. split; [exact Hsl|]. split; [exact Hne|].
  apply (checked_stores c Hv t url). rewrite Hst.
  apply list_elem_of_singleton. reflexivity.
Qed.

Lemma run_app ls1 ls2 c c1 :
  run ls1 c = Some c1 -> run (ls1 ++ ls2) c = run ls2 c1.
Proof.
  revert c. induction ls1 as [|l ls1 IH]; intros c Hrun; cbn [run app] in *.
  - injection Hrun as <-. reflexivity.
  - destruct (step l c) as [c0|]; [|discriminate].
    cbn [mbind option_bind] in *. exact (IH c0 Hrun).
Qed.

Ltac reader_moves tac :=
  eapply run_cons;
  [ cbn [step]; unfold reader_step;
    cbn [reader lock slot handlers stdout stores
         set_reader set_lock store print];
    tac; cbn [negb andb];
    cbv beta iota delta [set_reader set_lock store print
                         slot lock reader handlers stdout stores];
    reflexivity
  | ].

Ltac reader_stops :=
  cbn [run]; apply f_equal; rewrite <- ?app_assoc; reflexivity.

(** A pass of the loop over a line that is rejected. *)
Lemma rejected_round_run line c :
  reader c = RSelect -> lock c = None -> str_truthy (slot c) = false ->
  validate_authurl line = Ok false ->
  run (rejected_round line) c
  = Some {| slot := slot c; lock := None; reader := RSelect;
            handlers := handlers c;
            stdout := (stdout c ++ [no_authcode_msg; authurl_prompt])%list;
            stores := stores c |}.
Proof.
  intros Hpc Hlock Htruthy Hval. destruct c as [sl lk rd hs out st].
  cbn in Hpc, Hlock, Htruthy. subst rd lk.
  unfold rejected_round. cbn [replicate slot handlers stdout stores].
  reader_moves idtac. reader_moves idtac.
  reader_moves ltac:(rewrite Htruthy).
  reader_moves ltac:(rewrite Hval).
  reader_moves idtac. reader_stops.
Qed.

(** A pass of the loop over a line that is accepted. *)
Lemma accepted_round_run line c :
  reader c = RSelect -> lock c = None -> str_truthy (slot c) = false ->
  validate_authurl line = Ok true ->
  run (accepted_round line) c
  = Some {| slot := Some line; lock := None; reader := RDone;
            handlers := handlers c; stdout := stdout c;
            stores := (stores c ++ [(Reader, line)])%list |}.
Proof.
  intros Hpc Hlock Htruthy Hval. destruct c as [sl lk rd hs out st].
  cbn in Hpc, Hlock, Htruthy. subst rd lk.
  pose proof (str_truthy_nonempty line (validate_authurl_nonempty line Hval))
    as Hline.
  unfold accepted_round. cbn [replicate slot handlers stdout stores].
  reader_moves idtac. reader_moves idtac.
  reader_moves ltac:(rewrite Htruthy).
  reader_moves ltac:(rewrite Hval).
  reader_moves idtac.
  reader_moves ltac:(rewrite Hline).
  reader_moves idtac. reader_stops.
Qed.

(** X4.  The manual path on its own: after any number of lines that
    [validate_authurl] rejects, each answered by the error message and a
    new prompt, the first accepted line is stored as the authorization
    URL and the loop ends with the lock free. *)
Theorem manual_entry_accepts_first_valid_line (bads : list string) good : forall c,
  reader c = RSelect -> lock c = None -> str_truthy (slot c) = false ->
  Forall (fun line => validate_authurl line = Ok false) bads ->
  validate_authurl good = Ok true ->
  run (concat (map rejected_round bads) ++ accepted_round good) c
  = Some {| slot := Some good; lock := None; reader := RDone;
            handlers := handlers c;
            stdout := (stdout c
                       ++ concat (map (fun _ => [no_authcode_msg; authurl_prompt])
                                      bads))%list;
            stores := (stores c ++ [(Reader, good)])%list |}.
Proof.
  induction bads as [|bad bads IH]; intros c Hpc Hlock Htruthy Hbads Hgood.
  - cbn [map concat app]. rewrite app_nil_r.
    exact (accepted_round_run good c Hpc Hlock Htruthy Hgood).
  - apply Forall_cons in Hbads as [Hbad Hbads].
    cbn [map concat]. rewrite <- app_assoc.
    rewrite (run_app _ _ c _ (rejected_round_run bad c Hpc Hlock Htruthy Hbad)).
    rewrite IH; try assumption; try reflexivity.
    cbn [slot lock reader handlers stdout stores].
    rewrite <- app_assoc. reflexivity.
Qed.

(** X5.  A poll that times out changes nothing: with no line to read and
    an empty slot, a pass of the loop takes and frees the lock and leaves
    the configuration exactly as it was. *)
Theorem idle_poll_changes_nothing c :
  reader c = RSelect -> lock c = None -> str_truthy (slot c) = false ->
  run idle_round c = Some c.
Proof.
  intros Hpc Hlock Htruthy. destruct c as [sl lk rd hs out st].
  cbn in Hpc, Hlock, Htruthy. subst rd lk.
  unfold idle_round. cbn [replicate].
  reader_moves idtac. reader_moves idtac.
  reader_moves ltac:(rewrite Htruthy).
  reader_moves ltac:(rewrite Htruthy).
  reader_moves idtac. reader_stops.
Qed.

End AuthRaceMore.

(** The accepted URL of the example run. *)
Lemma accepted_url_is_validated_witness :
  @validate_authurl toy_library "http://localhost/?code=abc123&state=xyz"
  = Ok true
  /\ exists t,
       AuthRace.stores race_example_config
       = [(t, "http://localhost/?code=abc123&state=xyz")]
       /\ forall n, t = AuthRace.Handler n ->
                    from_listener "http://localhost/?code=abc123&state=xyz".
Proof.
  apply (@accepted_url_is_validated toy_library race_example_config).
  - exists race_example. vm_compute. reflexivity.
  - reflexivity.
Defined.

(** The reader of the example run holds the lock and gives it back. *)
Lemma lock_holder_releases_witness :
  Schedule.inside AuthRace.Reader race_example_config = true
  /\ (forall t', Schedule.inside t' race_example_config = true -> t' = AuthRace.Reader)
  /\ exists k c',
       1 <= k <= 5
       /\ @AuthRace.run toy_library
            (replicate k (Schedule.own AuthRace.Reader false (Line "")))
            race_example_config = Some c'
       /\ AuthRace.lock c' = None
       /\ forall t', Schedule.inside t' c' = false.
Proof.
  apply (@lock_holder_releases toy_library race_example_config
           AuthRace.Reader false (Line "")).
  - exists race_example. vm_compute. reflexivity.
  - reflexivity.
Defined.

(** The manual example ends with its line in the slot. *)
Lemma reader_returns_with_url_witness :
  exists url,
    AuthRace.slot manual_example_config = Some url /\ url <> ""
    /\ @validate_authurl toy_library url = Ok true.
Proof.
  apply (@reader_returns_with_url toy_library manual_example
           manual_example_config).
  - vm_compute. reflexivity.
  - reflexivity.
  - reflexivity.
Defined.

(** Two rejected lines, then an accepted one. *)
Lemma manual_entry_accepts_first_valid_line_witness :
  @AuthRace.run toy_library
    (concat (map Schedule.rejected_round ["hello"; "http://localhost/?state=x"])
     ++ Schedule.accepted_round "http://localhost/?code=abc123")
    AuthRace.init
  = Some {| AuthRace.slot := Some "http://localhost/?code=abc123";
            AuthRace.lock := None;
            AuthRace.reader := AuthRace.RDone;
            AuthRace.handlers := AuthRace.handlers AuthRace.init;
            AuthRace.stdout :=
              (AuthRace.stdout AuthRace.init
               ++ concat (map (fun _ => [AuthRace.no_authcode_msg;
                                         AuthRace.authurl_prompt])
                              ["hello"; "http://localhost/?state=x"]))%list;
            AuthRace.stores :=
              (AuthRace.stores AuthRace.init
               ++ [(AuthRace.Reader, "http://localhost/?code=abc123")])%list |}.
Proof.
  apply (@manual_entry_accepts_first_valid_line toy_library
           ["hello"; "http://localhost/?state=x"]
           "http://localhost/?code=abc123" AuthRace.init).
  - reflexivity.
  - reflexivity.
  - reflexivity.
  - repeat constructor.
  - vm_compute. reflexivity.
Defined.

(** A timed-out poll at the start of the wait. *)
Lemma idle_poll_changes_nothing_witness :
  @AuthRace.run toy_library Schedule.idle_round AuthRace.init
  = Some AuthRace.init.
Proof.
  apply (@idle_poll_changes_nothing toy_library AuthRace.init); reflexivity.
Defined.

(** ** More on saving: outcomes, and reading back what was written *)

Section SaveSessionMore.
Context `{Library}.
Import Base64 Base64Facts.

(** The outcome of [save_session], from the two paths and the key. *)
Lemma save_session_result path self w :
  fst (save_session path (self, w))
  = match path, session_file_path self with
    | None, Some (String _ _) | Some (String _ _), None =>
        match public_key self with
        | Some _ => Ok tt
        | None => Err (RuntimeError "No public key available")
        end
    | _, _ => Err no_path_error
    end.
Proof.
  destruct path as [[|c p]|], (session_file_path self) as [[|c' q]|] eqn:Hs.
  all: try (destruct self; cbn [session_file_path] in Hs; subst; reflexivity).
  - destruct (public_key self) as [pub|] eqn:Hpub.
    + destruct (save_session_records_given_path self w c p pub Hs Hpub)
        as (self' & w' & -> & _). reflexivity.
    + pose proof (save_session_run (Some (String c p)) self w) as Hrun.
      rewrite (resolve_path_given self w c p Hs) in Hrun.
      rewrite _encrypt_without_key in Hrun by exact Hpub.
      rewrite Hrun. reflexivity.
  - destruct (public_key self) as [pub|] eqn:Hpub.
    + destruct (save_session_uses_stored_path self w c' q pub Hs Hpub)
        as (self' & w' & -> & _). reflexivity.
    + pose proof (save_session_run None self w) as Hrun.
      rewrite (resolve_path_stored self w c' q Hs) in Hrun.
      rewrite _encrypt_without_key in Hrun by exact Hpub.
      rewrite Hrun. reflexivity.
Qed.

Lemma length_ctr_update key nonce data : forall i,
  length (ctr_update key nonce i data) = length data.
Proof.
  induction data as [|b data IH]; intros i; [reflexivity|].
  cbn [ctr_update length]. rewrite IH. reflexivity.
Qed.

(** What [_encrypt] returns when a public key is set: the key, the nonce
    and the OAEP seed are the next 32, 16 and 32 random bytes. *)
Lemma _encrypt_value pt self w pub :
  public_key self = Some pub ->
  let key := map (entropy w) (seq (entropy_pos w) 32) in
  let nonce := map (entropy w) (seq (entropy_pos w + 32) 16) in
  let seed := map (entropy w) (seq (entropy_pos w + 32 + 16) oaep_seed_len) in
  _encrypt pt (self, w)
  = (Ok (ctr_update key nonce 0 pt,
         [ ("algo", JStr "AES"); ("mode", JStr "CTR");
           ("key", JStr (_b64encode_str (rsa_oaep_encrypt pub seed key)));
           ("nonce", JStr (_b64encode_str nonce)) ]),
     (self, with_entropy_pos (entropy_pos w + 32 + 16 + oaep_seed_len) w)).
Proof.
  intros Hpub key nonce seed.
  unfold _encrypt, bind, get_self, urandom, lift, ret. cbn [fst snd].
  rewrite Hpub. cbn [fst snd].
  unfold Cipher_AES_CTR. rewrite !length_map, !length_seq.
  reflexivity.
Qed.

(** The decryption steps of [from_saved_session] on a document that
    carries a ciphertext and its parameters. *)
Lemma decrypt_encrypted priv pub (key nonce seed pt : list byte)
    (saved : gmap string json) :
  length key = 32 -> length nonce = 16 -> unwraps priv pub ->
  from_saved_session_decrypt priv
    (<["cryptoparams" :=
         JDict [ ("algo", JStr "AES"); ("mode", JStr "CTR");
                 ("key", JStr (_b64encode_str (rsa_oaep_encrypt pub seed key)));
                 ("nonce", JStr (_b64encode_str nonce)) ]]>
       (<["data" := JStr (_b64encode_str (ctr_update key nonce 0 pt))]> saved))
  = (text ← _b64decode (PyBytes pt); json_loads text).
Proof.
  intros Hkey Hnonce Hpair. unfold from_saved_session_decrypt.
  rewrite lookup_insert_eq. cbn [dict_item]. rewrite result_bind_Ok.
  cbn [dict_get String.eqb Ascii.eqb Bool.eqb str_item].
  rewrite result_bind_Ok, _b64decode_b64encode_str, result_bind_Ok.
  rewrite (Hpair seed key Hkey), !result_bind_Ok.
  rewrite _b64decode_b64encode_str, result_bind_Ok.
  rewrite lookup_insert_ne by discriminate. rewrite lookup_insert_eq.
  cbn [str_item].
  rewrite result_bind_Ok, _b64decode_b64encode_str, result_bind_Ok.
  unfold Cipher_AES_CTR at 1. rewrite Hkey, Hnonce.
  cbn [Nat.eqb orb negb]. rewrite ctr_update_involutive, result_bind_Ok.
  reflexivity.
Qed.

(** A successful [save_session], followed by the decryption steps of
    [from_saved_session] on the document it wrote. *)
Lemma save_session_then_decrypt path self w self' w' priv pub :
  save_session path (self, w) = (Ok tt, (self', w')) ->
  public_key self = Some pub ->
  unwraps priv pub ->
  json_loads (encode_utf8 (json_dumps (data_dict self))) = Ok (data_dict self) ->
  exists p doc,
    session_file_path self' = Some p
    /\ fs w' !! p
       = Some {| f_mode := mode_0600;
                 f_data := encode_utf8
                             (json_dumps_pretty (JDict (map_to_list doc))) |}
    /\ (forall k, k <> "data" -> k <> "cryptoparams" ->
          doc !! k = saved_session self !! k)
    /\ from_saved_session_decrypt priv doc = Ok (data_dict self).
Proof.
  intros Hsave Hpub Hpair Hjson.
  pose proof (save_session_run path self w) as Hrun.
  destruct (resolve_path path (self, w)) as [[p|e] [self1 w1]] eqn:Hres;
    [|congruence].
  apply resolve_path_Ok in Hres as (-> & Hp & (c & q & ->) & ->).
  pose proof (_encrypt_value
                (_encode_dict (data_dict (with_session_file_path
                                            (Some (String c q)) self)))
                (with_session_file_path (Some (String c q)) self) w pub Hpub)
    as Henc.
  cbv zeta in Henc. rewrite Henc in Hrun. cbv zeta in Hrun.
  rewrite Hrun in Hsave.
  pose proof (f_equal (fun x => fst (snd x)) Hsave) as Hself.
  pose proof (f_equal (fun x => snd (snd x)) Hsave) as Hworld.
  cbv beta in Hself, Hworld. cbn [fst snd] in Hself, Hworld.
  subst self' w'. clear Hsave Hrun Henc.
  set (final := exec_syscalls _ _ _).
  eexists (String c q), _. split; [reflexivity|].
  split.
  { cbn [fs with_fs]. subst final.
    rewrite exec_write_and_rename. apply lookup_insert_eq. }
  split.
  { intros k Hd Hc. rewrite !lookup_insert_ne by congruence. reflexivity. }
  cbn [saved_session with_session_file_path].
  rewrite (decrypt_encrypted priv pub);
    [|apply length_urandom_bytes
     |rewrite length_map; apply length_seq
     |exact Hpair].
  unfold _b64decode, _encode_dict, as_bytes.
  rewrite urlsafe_b64decode_encode, result_bind_Ok. exact Hjson.
Qed.

(** X6.  Which exception [save_session] raises before it has written
    anything.  It raises the "no path" error exactly when the two paths
    do not resolve (neither is known, or both are), and "No public key
    available" exactly when they resolve and no key is set; it returns
    only when they resolve and a key is set.  Its second path check, "No
    session file named for write.", is never reached.  The client, the
    registration and the token are JSON values here, so [json.dumps]
    accepts them, and the errors of [open], [chmod] and [rename] in the
    final write are not modelled: what is said of a call that returns is
    a necessary condition only. *)
Theorem save_session_outcomes path self w :
  let r := fst (save_session path (self, w)) in
  let resolves :=
    (path = None /\ str_truthy (session_file_path self) = true)
    \/ (session_file_path self = None /\ str_truthy path = true) in
  (r = Err no_path_error <-> ~ resolves)
  /\ (r = Err (RuntimeError "No public key available")
      <-> resolves /\ public_key self = None)
  /\ (r = Ok tt -> resolves /\ public_key self <> None)
  /\ r <> Err (RuntimeError "No session file named for write.").
Proof.
  intros r resolves. subst r resolves. rewrite save_session_result.
  unfold no_path_error.
  destruct path as [[|c p]|], (session_file_path self) as [[|c' q]|],
    (public_key self) as [pub|]; cbn [str_truthy];
    repeat split; try discriminate; try congruence;
    intuition (try discriminate; try congruence).
Qed.

(** X7.  A save that fails for want of a public key has already recorded
    the path given on the call: nothing is written and no randomness is
    drawn, but the same call made again now ends in the "no path"
    error. *)
Theorem save_session_without_key_records_path c p self w :
  public_key self = None -> session_file_path self = None ->
  save_session (Some (String c p)) (self, w)
  = (Err (RuntimeError "No public key available"),
     (with_session_file_path (Some (String c p)) self, w))
  /\ fst (save_session (Some (String c p))
            (with_session_file_path (Some (String c p)) self, w))
     = Err no_path_error.
Proof.
  intros Hkey Hpath. split.
  - pose proof (save_session_run (Some (String c p)) self w) as Hrun.
    rewrite (resolve_path_given self w c p Hpath) in Hrun.
    rewrite _encrypt_without_key in Hrun by exact Hkey. exact Hrun.
  - rewrite save_session_result. reflexivity.
Qed.

(** X8.  Save, then read back: the file a successful [save_session]
    leaves at the session path is a document that keeps every field the
    session had and that the decryption steps of [from_saved_session]
    turn back into the client, the registration and the token of the
    object, given the matching private key. *)
Theorem saved_document_decrypts path self w self' w' priv pub :
  save_session path (self, w) = (Ok tt, (self', w')) ->
  public_key self = Some pub ->
  unwraps priv pub ->
  json_loads (encode_utf8 (json_dumps (data_dict self))) = Ok (data_dict self) ->
  exists p doc,
    session_file_path self' = Some p
    /\ fs w' !! p
       = Some {| f_mode := mode_0600;
                 f_data := encode_utf8
                             (json_dumps_pretty (JDict (map_to_list doc))) |}
    /\ (forall k, k <> "data" -> k <> "cryptoparams" ->
          doc !! k = saved_session self !! k)
    /\ from_saved_session_decrypt priv doc = Ok (data_dict self).
Proof. exact (save_session_then_decrypt path self w self' w' priv pub). Qed.

(** X9.  [_encrypt] with a key set always succeeds: the ciphertext is as
    long as the plaintext, the parameters are [algo], [mode], [key] and
    [nonce] in this order, the nonce text decodes to 16 bytes and the key
    text to the wrapped 32-byte key, and 80 random bytes were drawn. *)
Theorem _encrypt_shape pt self w pub :
  public_key self = Some pub ->
  exists data params w',
    _encrypt pt (self, w) = (Ok (data, params), (self, w'))
    /\ length data = length pt
    /\ map fst params = ["algo"; "mode"; "key"; "nonce"]
    /\ dict_get "algo" params = Some (JStr "AES")
    /\ dict_get "mode" params = Some (JStr "CTR")
    /\ (exists text key seed,
          dict_get "key" params = Some (JStr text) /\ length key = 32
          /\ _b64decode (PyStr text) = Ok (rsa_oaep_encrypt pub seed key))
    /\ (exists text nonce,
          dict_get "nonce" params = Some (JStr text) /\ length nonce = 16
          /\ _b64decode (PyStr text) = Ok nonce)
    /\ entropy_pos w' = entropy_pos w + 80
    /\ fs w' = fs w /\ events w' = events w.
Proof.
  intros Hpub. pose proof (_encrypt_value pt self w pub Hpub) as Henc.
  cbv zeta in Henc. eexists _, _, _. split; [exact Henc|].
  split; [apply length_ctr_update|].
  split; [reflexivity|]. split; [reflexivity|]. split; [reflexivity|].
  split.
  { eexists _, _, _. split; [reflexivity|].
    split; [apply length_urandom_bytes|]. apply _b64decode_b64encode_str. }
  split.
  { eexists _, _. split; [reflexivity|].
    split; [|apply _b64decode_b64encode_str].
    rewrite length_map. apply length_seq. }
  split; [|split; reflexivity].
  cbn [entropy_pos with_entropy_pos]. unfold oaep_seed_len. lia.
Qed.

(** [_log] prints or keeps quiet, and touches nothing else. *)
Lemma _log_frame message self w :
  exists w' logged,
    _log message (self, w) = (Ok tt, (self, w'))
    /\ events w' = (events w ++ logged)%list
    /\ (logged = [] \/ logged = [Stderr message])
    /\ fs w' = fs w /\ entropy_pos w' = entropy_pos w
    /\ console_in w' = console_in w.
Proof.
  unfold _log, bind, get_self, get_world, emit_event, set_world, ret.
  cbn [fst snd].
  destruct (verbose self || debug self || negb (stderr_isatty w)).
  - eexists _, [Stderr message]. split; [reflexivity|].
    split; [reflexivity|]. split; [right; reflexivity|]. repeat split.
  - exists w, []. rewrite app_nil_r. split; [reflexivity|].
    split; [reflexivity|]. split; [left; reflexivity|]. repeat split.
Qed.

(** X10.  When the external refresh raises, [refresh_token] passes the
    exception on and leaves the client as it was: the token is not
    replaced, nobody is notified, nothing is written and no randomness is
    drawn; the first log line is all that may have been printed. *)
Theorem refresh_token_failure_changes_nothing e self w :
  exists w' logged,
    refresh_token (Err e) (self, w) = (Err e, (self, w'))
    /\ events w' = (events w ++ logged)%list
    /\ (logged = [] \/ logged = [Stderr "Starting token refresh"])
    /\ fs w' = fs w /\ entropy_pos w' = entropy_pos w.
Proof.
  destruct (_log_frame "Starting token refresh" self w)
    as (w' & logged & Hlog & Hev & Hlogged & Hfs & Hpos & _).
  exists w', logged. split.
  - unfold refresh_token. unfold bind at 1. rewrite Hlog. reflexivity.
  - repeat split; assumption.
Qed.

(** X11.  A refresh that succeeds on a client with a session path and a
    key installs the new token, notifies, and leaves at the session path
    a document that decrypts to the session with the new token. *)
Theorem refresh_token_persists_new_token new_token self w c q priv pub :
  session_file_path self = Some (String c q) ->
  public_key self = Some pub ->
  unwraps priv pub ->
  json_loads (encode_utf8
                (json_dumps (data_dict (with_token (Some new_token) self))))
  = Ok (data_dict (with_token (Some new_token) self)) ->
  exists self' w' doc,
    refresh_token (Ok new_token) (self, w) = (Ok tt, (self', w'))
    /\ token self' = Some new_token
    /\ Notify ∈ events w'
    /\ fs w' !! String c q
       = Some {| f_mode := mode_0600;
                 f_data := encode_utf8
                             (json_dumps_pretty (JDict (map_to_list doc))) |}
    /\ from_saved_session_decrypt priv doc
       = Ok (data_dict (with_token (Some new_token) self)).
Proof.
  intros Hpath Hpub Hpair Hjson.
  destruct (refresh_token_run new_token self w) as (w1 & logged & Hev & Hrun).
  destruct (save_session_uses_stored_path
              (with_token (Some new_token) self) w1 c q pub Hpath Hpub)
    as (self' & w' & Hsave & Hpath' & _).
  destruct (save_session_keeps_token _ _ _ _ _ _ Hsave) as [Htok Hev'].
  destruct (save_session_then_decrypt _ _ _ _ _ priv pub Hsave Hpub Hpair Hjson)
    as (p & doc & Hp & Hfile & _ & Hdec).
  assert (p = String c q) as -> by congruence.
  exists self', w', doc. split; [rewrite Hrun; exact Hsave|].
  split; [exact Htok|]. split; [|split; assumption].
  rewrite Hev', Hev, !elem_of_app. right. right.
  apply list_elem_of_singleton. reflexivity.
Qed.

(** The two ways [_init_saved_session] ends. *)
Lemma _init_saved_session_run self w :
  match password_loop (console_in w) (events w) with
  | (Err e, rest, evs) =>
      _init_saved_session (self, w)
      = (Err e, (self, with_events evs (with_console_in rest w)))
  | (Ok password_bytes, rest, evs) =>
      let private_key :=
        generate_private_key
          (map (entropy w) (seq (entropy_pos w) keygen_entropy)) in
      _init_saved_session (self, w)
      = (Ok tt,
         (with_saved_session
            (<["private_key" :=
                 JStr (decode_utf8 (private_bytes_pem private_key password_bytes))]>
               (<["public_key" :=
                    JStr (decode_utf8
                            (public_bytes_pem (to_public_key private_key)))]> ∅))
            (with_public_key (Some (to_public_key private_key)) self),
          with_entropy_pos (entropy_pos w + keygen_entropy)
            (with_events evs (with_console_in rest w))))
  end.
Proof.
  unfold _init_saved_session, bind, get_world, set_world, lift, urandom,
    set_self, ret.
  cbn [fst snd].
  destruct (password_loop (console_in w) (events w)) as [[[pwb|e] rest] evs];
    reflexivity.
Qed.

(** The loop raises nothing but the cancellation error. *)
Lemma password_loop_Err n : forall input out e rest evs,
  length input <= n ->
  password_loop input out = (Err e, rest, evs) -> e = cancelled_error.
Proof.
  induction n as [|n IH]; intros input out e rest evs Hlen Hrun.
  - destruct input; [|cbn in Hlen; lia]. cbn in Hrun. congruence.
  - destruct input as [|[pw1|] input]; cbn [password_loop] in Hrun;
      [congruence| |congruence].
    cbn [length] in Hlen.
    destruct (py_len pw1 <? 10)%nat.
    + apply IH in Hrun; [exact Hrun | lia].
    + destruct input as [|[pw2|] input]; [congruence| |congruence].
      cbn [length] in Hlen. destruct (String.eqb pw1 pw2); [discriminate|].
      apply IH in Hrun; [exact Hrun | lia].
Qed.

(** The loop only adds to the events, and it asks at least once. *)
Lemma password_loop_events n : forall input out r rest evs,
  length input <= n ->
  password_loop input out = (r, rest, evs) ->
  exists shown, evs = (out ++ shown)%list /\ 1 <= prompts_shown shown.
Proof.
  assert (Hone : prompts_shown [Prompt new_password_prompt] = 1)
    by reflexivity.
  assert (Hlater : forall out (mid : list event) evs,
            (exists shown, evs = ((out ++ [Prompt new_password_prompt] ++ mid)
                                  ++ shown)%list
                           /\ 1 <= prompts_shown shown) ->
            exists shown, evs = (out ++ shown)%list /\ 1 <= prompts_shown shown).
  { intros out mid evs (shown & -> & Hs).
    exists ([Prompt new_password_prompt] ++ mid ++ shown)%list. split.
    - rewrite <- !app_assoc. reflexivity.
    - rewrite !prompts_shown_app. lia. }
  assert (Hnow : forall out (mid : list event),
            exists shown,
              ((out ++ [Prompt new_password_prompt]) ++ mid)%list
              = (out ++ shown)%list
              /\ 1 <= prompts_shown shown).
  { intros out mid. exists ([Prompt new_password_prompt] ++ mid)%list. split.
    - rewrite <- app_assoc. reflexivity.
    - rewrite prompts_shown_app. lia. }
  induction n as [|n IH]; intros input out r rest evs Hlen Hrun.
  - destruct input; [|cbn in Hlen; lia]. cbn in Hrun.
    injection Hrun as <- <- <-.
    destruct (Hnow out []) as (shown & Heq & Hs). rewrite app_nil_r in Heq.
    exists shown. split; assumption.
  - destruct input as [|[pw1|] input]; cbn [password_loop] in Hrun.
    + injection Hrun as <- <- <-.
      destruct (Hnow out []) as (shown & Heq & Hs). rewrite app_nil_r in Heq.
      exists shown. split; assumption.
    + cbn [length] in Hlen. destruct (py_len pw1 <? 10)%nat.
      * apply (Hlater out [Stderr too_short_msg]).
        rewrite app_assoc. eapply IH; [|exact Hrun]. lia.
      * destruct input as [|[pw2|] input].
        -- injection Hrun as <- <- <-. apply Hnow.
        -- cbn [length] in Hlen. destruct (String.eqb pw1 pw2).
           ++ injection Hrun as <- <- <-. apply Hnow.
           ++ apply (Hlater out [Prompt "Repeat: "; Stdout mismatch_msg]).
              replace (out ++ [Prompt new_password_prompt]
                           ++ [Prompt "Repeat: "; Stdout mismatch_msg])%list
                with (((out ++ [Prompt new_password_prompt])
                       ++ [Prompt "Repeat: "]) ++ [Stdout mismatch_msg])%list
                by (rewrite <- !app_assoc; reflexivity).
              eapply IH; [|exact Hrun]. lia.
        -- injection Hrun as <- <- <-. apply Hnow.
    + injection Hrun as <- <- <-.
      destruct (Hnow out []) as (shown & Heq & Hs). rewrite app_nil_r in Heq.
      exists shown. split; assumption.
Qed.

(** X12.  When [_init_saved_session] raises [NoPrivateKeyError], it is
    the one for a cancelled password entry, and no key was generated:
    the object is untouched, no randomness was drawn and no file was
    written. *)
Theorem _init_saved_session_failure msg self w self' w' :
  _init_saved_session (self, w) = (Err (NoPrivateKeyError msg), (self', w')) ->
  msg = "Cannot create private key without password."
  /\ self' = self
  /\ entropy_pos w' = entropy_pos w /\ fs w' = fs w
  /\ exists shown, events w' = (events w ++ shown)%list
                   /\ 1 <= prompts_shown shown.
Proof.
  intros Hinit. pose proof (_init_saved_session_run self w) as Hrun.
  destruct (password_loop (console_in w) (events w)) as [[[pwb|e0] rest] evs]
    eqn:Hloop.
  - cbv zeta in Hrun. congruence.
  - rewrite Hrun in Hinit. injection Hinit as -> <- <-.
    pose proof (password_loop_Err _ _ _ _ _ _ (Nat.le_refl _) Hloop) as He.
    injection He as ->.
    split; [reflexivity|]. split; [reflexivity|].
    split; [reflexivity|]. split; [reflexivity|].
    cbn [events with_events with_console_in].
    exact (password_loop_events _ _ _ _ _ _ (Nat.le_refl _) Hloop).
Qed.

(** X13.  A fresh vault can be saved and read back.  After a password of
    at least 10 characters was entered twice, and once the authorization
    has set a token, the first [save_session(path)] succeeds; the
    document it writes holds the two PEM texts made from the new key and
    the password, and it decrypts with the new private key to the
    session. *)
Theorem fresh_vault_round_trip pw rest tok c p self w :
  console_in w = Line pw :: Line pw :: rest ->
  10 <= py_len pw ->
  session_file_path self = None ->
  let private_key :=
    generate_private_key (map (entropy w) (seq (entropy_pos w) keygen_entropy)) in
  unwraps private_key (to_public_key private_key) ->
  json_loads (encode_utf8 (json_dumps (data_dict (with_token tok self))))
  = Ok (data_dict (with_token tok self)) ->
  exists self1 w1 self2 w2 doc,
    _init_saved_session (self, w) = (Ok tt, (self1, w1))
    /\ save_session (Some (String c p)) (with_token tok self1, w1)
       = (Ok tt, (self2, w2))
    /\ fs w2 !! String c p
       = Some {| f_mode := mode_0600;
                 f_data := encode_utf8
                             (json_dumps_pretty (JDict (map_to_list doc))) |}
    /\ doc !! "private_key"
       = Some (JStr (decode_utf8
                       (private_bytes_pem private_key (encode_utf8 pw))))
    /\ doc !! "public_key"
       = Some (JStr (decode_utf8
                       (public_bytes_pem (to_public_key private_key))))
    /\ from_saved_session_decrypt private_key doc
       = Ok (data_dict (with_token tok self)).
Proof.
  intros Hin Hlen Hpath private_key Hpair Hjson.
  pose proof (_init_saved_session_run self w) as Hinit.
  rewrite Hin, (password_loop_accept pw rest (events w) Hlen) in Hinit.
  cbv zeta in Hinit. fold private_key in Hinit.
  eexists _, _.
  match type of Hinit with
  | _ = (Ok tt, (?s1, ?w1)) =>
      destruct (save_session_records_given_path (with_token tok s1) w1 c p
                  (to_public_key private_key) Hpath eq_refl)
        as (self2 & w2 & Hsave & Hpath2 & _);
      destruct (save_session_then_decrypt _ _ _ _ _ private_key
                  (to_public_key private_key) Hsave eq_refl Hpair Hjson)
        as (p' & doc & Hp' & Hfile & Hkeep & Hdec)
  end.
  assert (p' = String c p) as -> by congruence.
  exists self2, w2, doc. split; [exact Hinit|]. split; [exact Hsave|].
  split; [exact Hfile|].
  split.
  { rewrite Hkeep by discriminate. cbn [saved_session with_token with_saved_session].
    apply lookup_insert_eq. }
  split; [|exact Hdec].
  rewrite Hkeep by discriminate. cbn [saved_session with_token with_saved_session].
  rewrite lookup_insert_ne by discriminate. apply lookup_insert_eq.
Qed.

End SaveSessionMore.


(** A save without a key, on a client that knows no path yet. *)
Lemma save_session_without_key_records_path_witness :
  let self := with_public_key None toy_client in
  @save_session toy_library (Some "session.json") (self, toy_world)
  = (Err (RuntimeError "No public key available"),
     (with_session_file_path (Some "session.json") self, toy_world))
  /\ fst (@save_session toy_library (Some "session.json")
            (with_session_file_path (Some "session.json") self, toy_world))
     = Err no_path_error.
Proof.
  apply (@save_session_without_key_records_path toy_library
           "s" "ession.json" (with_public_key None toy_client) toy_world);
    reflexivity.
Defined.

(** A first save on the small instance, read back. *)
Lemma saved_document_decrypts_witness :
  let L := reading_library (example_session None) in
  let self := reading_client (example_session None) None (Some tt) in
  exists p doc,
    session_file_path
      (fst (snd (@save_session L (Some "session.json") (self, toy_world))))
    = Some p
    /\ fs (snd (snd (@save_session L (Some "session.json") (self, toy_world))))
         !! p
       = Some {| f_mode := mode_0600;
                 f_data := encode_utf8
                             (@json_dumps_pretty L (JDict (map_to_list doc))) |}
    /\ (forall k, k <> "data" -> k <> "cryptoparams" ->
          doc !! k = saved_session self !! k)
    /\ @from_saved_session_decrypt L tt doc = Ok (data_dict self).
Proof.
  intros L self.
  set (r := @save_session L (Some "session.json") (self, toy_world)).
  assert (Hr : r = (Ok tt, (fst (snd r), snd (snd r))))
    by (vm_compute; reflexivity).
  apply (@saved_document_decrypts L (Some "session.json") self toy_world
           (fst (snd r)) (snd (snd r)) tt tt).
  - exact Hr.
  - reflexivity.
  - intros seed key Hlen. reflexivity.
  - reflexivity.
Defined.

(** Encrypting three bytes on the small instance. *)
Lemma _encrypt_shape_witness :
  exists data params w',
    @_encrypt toy_library ["a"; "b"; "c"]%byte (toy_client, toy_world)
    = (Ok (data, params), (toy_client, w'))
    /\ length data = 3
    /\ map fst params = ["algo"; "mode"; "key"; "nonce"]
    /\ dict_get "algo" params = Some (JStr "AES")
    /\ dict_get "mode" params = Some (JStr "CTR")
    /\ (exists text key seed,
          dict_get "key" params = Some (JStr text) /\ length key = 32
          /\ _b64decode (PyStr text)
             = Ok (@rsa_oaep_encrypt toy_library tt seed key))
    /\ (exists text nonce,
          dict_get "nonce" params = Some (JStr text) /\ length nonce = 16
          /\ _b64decode (PyStr text) = Ok nonce)
    /\ entropy_pos w' = entropy_pos toy_world + 80
    /\ fs w' = fs toy_world /\ events w' = events toy_world.
Proof.
  apply (@_encrypt_shape toy_library ["a"; "b"; "c"]%byte toy_client
           toy_world tt).
  reflexivity.
Defined.

(** A refresh on a client that has a session path and a key. *)
Lemma refresh_token_persists_new_token_witness :
  let tok := [("access_token", JStr "t2")] in
  let L := reading_library (example_session (Some tok)) in
  let self := reading_client (example_session (Some tok))
                (Some "session.json") (Some tt) in
  exists self' w' doc,
    @refresh_token L (Ok tok) (self, toy_world) = (Ok tt, (self', w'))
    /\ token self' = Some tok
    /\ Notify ∈ events w'
    /\ fs w' !! "session.json"
       = Some {| f_mode := mode_0600;
                 f_data := encode_utf8
                             (@json_dumps_pretty L (JDict (map_to_list doc))) |}
    /\ @from_saved_session_decrypt L tt doc
       = Ok (data_dict (with_token (Some tok) self)).
Proof.
  intros tok L self.
  apply (@refresh_token_persists_new_token L tok self toy_world
           "s" "ession.json" tt tt).
  - reflexivity.
  - reflexivity.
  - intros seed key Hlen. reflexivity.
  - reflexivity.
Defined.

(** The input ends at the first prompt. *)
Lemma _init_saved_session_failure_witness :
  let r := @_init_saved_session toy_library (toy_client, toy_world) in
  "Cannot create private key without password."
  = "Cannot create private key without password."
  /\ fst (snd r) = toy_client
  /\ entropy_pos (snd (snd r)) = entropy_pos toy_world
  /\ fs (snd (snd r)) = fs toy_world
  /\ exists shown, events (snd (snd r)) = (events toy_world ++ shown)%list
                   /\ 1 <= prompts_shown shown.
Proof.
  intros r.
  apply (@_init_saved_session_failure toy_library
           "Cannot create private key without password." toy_client
           toy_world (fst (snd r)) (snd (snd r))).
  vm_compute. reflexivity.
Defined.

(** A new vault on the small instance: the password is entered twice,
    the token arrives, and the session is saved. *)
Lemma fresh_vault_round_trip_witness :
  let tok := Some [("access_token", JStr "t1")] in
  let L := reading_library (example_session tok) in
  let self := reading_client (example_session tok) None None in
  let w := with_console_in [Line "correct horse"; Line "correct horse"]
             toy_world in
  exists self1 w1 self2 w2 doc,
    @_init_saved_session L (self, w) = (Ok tt, (self1, w1))
    /\ @save_session L (Some "session.json") (with_token tok self1, w1)
       = (Ok tt, (self2, w2))
    /\ fs w2 !! "session.json"
       = Some {| f_mode := mode_0600;
                 f_data := encode_utf8
                             (@json_dumps_pretty L (JDict (map_to_list doc))) |}
    /\ doc !! "private_key"
       = Some (JStr (decode_utf8
                       (@private_bytes_pem L tt (encode_utf8 "correct horse"))))
    /\ doc !! "public_key"
       = Some (JStr (decode_utf8 (@public_bytes_pem L tt)))
    /\ @from_saved_session_decrypt L tt doc
       = Ok (data_dict (with_token tok self)).
Proof.
  intros tok L self w.
  apply (@fresh_vault_round_trip L "correct horse" [] tok "s" "ession.json"
           self w).
  - reflexivity.
  - vm_compute. lia.
  - reflexivity.
  - intros seed key Hlen. reflexivity.
  - reflexivity.
Defined.


(** ** The encoding helpers *)

Section Helpers.
Context `{Library}.
Import Base64 Base64Facts.

Lemma length_b2a_base64 data :
  length (b2a_base64 data) = 4 * ((length data + 2) / 3).
Proof.
  induction data as [|x|x y|x y z r IH] using list_ind3.
  - reflexivity.
  - cbn [b2a_base64]. destruct (sextets3 x zero_byte zero_byte) as [[[s0 s1] s2] s3].
    reflexivity.
  - cbn [b2a_base64]. destruct (sextets3 x y zero_byte) as [[[s0 s1] s2] s3].
    reflexivity.
  - cbn [b2a_base64]. destruct (sextets3 x y z) as [[[s0 s1] s2] s3].
    cbn [length]. rewrite IH.
    replace (S (S (S (length r))) + 2) with (length r + 2 + 1 * 3) by lia.
    rewrite Nat.div_add by lia. lia.
Qed.

Lemma length_urlsafe_b64encode data :
  length (urlsafe_b64encode data) = 4 * ((length data + 2) / 3).
Proof. unfold urlsafe_b64encode. rewrite length_map. apply length_b2a_base64. Qed.

Lemma length_decode_utf8 b : String.length (decode_utf8 b) = length b.
Proof.
  unfold decode_utf8, string_of_list_byte.
  induction b as [|x b IH]; [reflexivity|]. cbn. rewrite IH. reflexivity.
Qed.

Lemma pad_of_text n : Forall base64url_text (pad_of n).
Proof.
  destruct n as [|[|n]]; repeat constructor; right; reflexivity.
Qed.

Lemma urlsafe_b64encode_text data :
  Forall base64url_text (urlsafe_b64encode data).
Proof.
  destruct (urlsafe_b64encode_shape data) as (body & Hbody & ->).
  apply Forall_app. split; [|apply pad_of_text].
  eapply Forall_impl; [exact Hbody|].
  intros c Hc. left. apply symbol_urlsafe. exact Hc.
Qed.

(** X14.  What the helpers put into the session file is base64url text:
    four characters for every three bytes begun, each of them a letter,
    a digit, [-], [_] or the pad [=]. *)
Theorem _b64encode_shape data :
  length (_b64encode data) = 4 * ((length (as_bytes data) + 2) / 3)
  /\ Forall base64url_text (_b64encode data)
  /\ String.length (_b64encode_str (as_bytes data)) = length (_b64encode data).
Proof.
  unfold _b64encode_str, _b64encode. cbn [as_bytes].
  split; [apply length_urlsafe_b64encode|].
  split; [apply urlsafe_b64encode_text|]. apply length_decode_utf8.
Qed.

(** X15.  [_b64decode] undoes [_b64encode] and [_b64encode_str], on
    [bytes] and on [str].  [_b64decode_str] does not decode: it gives the
    same text as [_b64encode_str], which [_b64decode] turns back into the
    argument. *)
Theorem b64_helpers_round_trip data :
  _b64decode (PyBytes (_b64encode data)) = Ok (as_bytes data)
  /\ _b64decode (PyStr (_b64encode_str (as_bytes data))) = Ok (as_bytes data)
  /\ _b64decode_str data = _b64encode_str (as_bytes data)
  /\ _b64decode (PyStr (_b64decode_str data)) = Ok (as_bytes data).
Proof.
  split; [apply urlsafe_b64decode_encode|].
  split; [apply _b64decode_b64encode_str|].
  split; [reflexivity|].
  apply (_b64decode_b64encode_str (as_bytes data)).
Qed.

(** X16.  [_decode_dict] undoes the base64 layer of [_encode_dict]: what
    is left is [json.loads] of [json.dumps]. *)
Theorem _decode_dict_encode_dict d :
  _decode_dict (_encode_dict d) = json_loads (encode_utf8 (json_dumps d)).
Proof.
  unfold _decode_dict, _encode_dict.
  rewrite urlsafe_b64decode_encode. apply result_bind_Ok.
Qed.

Lemma a2b_loop_skip c rest : forall front q pads,
  Byte.eqb c BASE64_PAD = false -> table_a2b_base64 c = None ->
  a2b_loop (front ++ c :: rest) q pads = a2b_loop (front ++ rest) q pads.
Proof.
  induction front as [|x front IH]; intros q pads Hpad Hnone.
  - cbn [app a2b_loop]. rewrite Hpad, Hnone. reflexivity.
  - cbn [app a2b_loop].
    destruct (Byte.eqb x BASE64_PAD).
    + destruct (2 <=? quad_pos q)%nat; [|apply IH; assumption].
      destruct (4 <=? quad_pos q + S pads)%nat; [reflexivity|].
      apply IH; assumption.
    + destruct (table_a2b_base64 x) as [this|]; [|apply IH; assumption].
      destruct (a2b_step q this) as [q' o].
      rewrite IH by assumption. reflexivity.
Qed.

(** X17.  [_b64decode] passes over bytes that are not base64 text: a
    line break, a blank or any other such byte, anywhere in the input,
    changes neither the decoded bytes nor the error. *)
Theorem _b64decode_skips front c rest :
  skipped_by_decoder c = true ->
  _b64decode (PyBytes (front ++ c :: rest)) = _b64decode (PyBytes (front ++ rest)).
Proof.
  unfold skipped_by_decoder. cbv zeta. intros Hc.
  apply andb_true_iff in Hc as [Hpad Hnone].
  apply negb_true_iff in Hpad.
  unfold _b64decode, urlsafe_b64decode, a2b_base64. cbn [as_bytes].
  rewrite !map_app. cbn [map].
  apply a2b_loop_skip; [exact Hpad|].
  destruct (table_a2b_base64 _); [discriminate | reflexivity].
Qed.

Lemma length_removelast {A} (l : list A) :
  length (removelast l) = length l - 1.
Proof.
  induction l as [|x [|y l] IH]; [reflexivity | reflexivity |].
  change (removelast (x :: y :: l)) with (x :: removelast (y :: l)).
  cbn [length] in *. rewrite IH. lia.
Qed.

(** X18.  The PKCE verifier has 120 characters and the challenge 43, both
    within the 43 to 128 characters PKCE allows, and the challenge
    carries no pad. *)
Theorem pkce_lengths (self : OAuth2Client) (w : world) :
  (forall b, length (sha256 b) = 32) ->
  exists verifier challenge w',
    _generate_pkce_context (self, w)
    = (Ok (verifier, [ ("code_challenge_method", JStr "S256");
                       ("code_challenge", JStr challenge) ]), (self, w'))
    /\ String.length verifier = 120
    /\ String.length challenge = 43
    /\ Forall (fun c => urlsafe_char c = true) (encode_utf8 challenge).
Proof.
  intros Hsha.
  set (tok := map (entropy w) (seq (entropy_pos w) 90)).
  assert (Htok : length tok = 90) by apply length_urandom_bytes.
  assert (Hmod : length tok mod 3 = 0) by (rewrite Htok; reflexivity).
  destruct (rstrip_pad_encode_0 tok Hmod) as [Hstrip _].
  set (digest := sha256 (encode_utf8 (token_urlsafe tok))).
  assert (Hdigest : length digest = 32) by apply Hsha.
  destruct (urlsafe_b64encode_shape digest) as (body & Hbody & Hshape).
  rewrite Hdigest in Hshape. change (pad_of (32 mod 3)) with [BASE64_PAD] in Hshape.
  eexists (token_urlsafe tok), (decode_utf8 (removelast (urlsafe_b64encode digest))), _.
  split; [reflexivity|].
  split.
  { unfold token_urlsafe. rewrite Hstrip, length_decode_utf8,
      length_urlsafe_b64encode, Htok. reflexivity. }
  split.
  { rewrite length_decode_utf8, length_removelast, length_urlsafe_b64encode,
      Hdigest. reflexivity. }
  rewrite encode_decode_utf8, Hshape, removelast_last.
  eapply Forall_impl; [exact Hbody|]. apply symbol_urlsafe.
Qed.

End Helpers.

(** A line break inside base64 text. *)
Lemma _b64decode_skips_witness :
  _b64decode (PyBytes (["Z"; "m"; "9"]%byte ++ "010"%byte :: ["v"]%byte))
  = _b64decode (PyBytes (["Z"; "m"; "9"]%byte ++ ["v"]%byte)).
Proof.
  apply (_b64decode_skips ["Z"; "m"; "9"]%byte "010"%byte ["v"]%byte).
  reflexivity.
Defined.

(** The lengths on the small instance. *)
Lemma pkce_lengths_witness :
  exists verifier challenge w',
    @_generate_pkce_context toy_library (toy_client, toy_world)
    = (Ok (verifier, [ ("code_challenge_method", JStr "S256");
                       ("code_challenge", JStr challenge) ]), (toy_client, w'))
    /\ String.length verifier = 120
    /\ String.length challenge = 43
    /\ Forall (fun c => Base64.urlsafe_char c = true) (encode_utf8 challenge).
Proof.
  apply (@pkce_lengths toy_library toy_client toy_world).
  intros b. reflexivity.
Defined.


(** ** Handing out the access token *)

Section TokenOutputsFacts.
Context `{Library}.

Lemma token_item_available d v :
  dict_get "access_token" d = Some v ->
  token_unavailable (Some d) = false /\ token_item (Some d) = Ok v.
Proof.
  intros Hget. destruct d as [|kv d]; [discriminate|].
  cbn [token_unavailable token_item]. unfold dict_contains.
  rewrite Hget. split; reflexivity.
Qed.

(** X19.  The three outlets hand out the same token.  With an
    [access_token] string in the token, [get_access_token] returns it,
    the token socket sends its UTF-8 bytes as the body, and
    [write_access_token] leaves a file of mode 0600 with these bytes, and
    no [.new] file; the object is not changed. *)
Theorem token_outlets_agree d s filename self w :
  token self = Some d -> dict_get "access_token" d = Some (JStr s) ->
  get_access_token (self, w) = (Ok (JStr s), (self, w))
  /\ (exists sent,
        TokenSocketHandler.do_GET (token self) = (sent, Ok tt)
        /\ TokenSocketHandler.body sent = encode_utf8 s)
  /\ exists w',
       write_access_token filename (self, w) = (Ok tt, (self, w'))
       /\ fs w' = <[filename := token_file s]> (delete (filename ++ ".new") (fs w)).
Proof.
  intros Htok Hget.
  destruct (token_item_available d (JStr s) Hget) as [Hav Hitem].
  split; [|split].
  - unfold get_access_token, bind, get_self, raise, lift. cbn [fst snd].
    rewrite Htok, Hav, Hitem. reflexivity.
  - rewrite Htok.
    destruct (TokenSocketFacts.do_GET_with_token d s Hget)
      as (sent & Hsent & _ & _ & Hbody).
    exists sent. split; assumption.
  - eexists. split.
    + unfold write_access_token, bind, get_self, raise, lift. cbn [fst snd].
      rewrite Htok, Hav, Hitem. reflexivity.
    + cbn [fs with_fs]. apply (exec_write_and_rename _ _ (PyStr s)).
Qed.

(** X20.  Without a token, or with one that has no [access_token],
    every outlet raises [NoTokenError] and touches nothing: no file is
    opened and the file writer does not enter its loop. *)
Theorem token_outlets_refuse filename rounds self w :
  token_unavailable (token self) = true ->
  get_access_token (self, w)
  = (Err (NoTokenError "No access token available"), (self, w))
  /\ write_access_token filename (self, w)
     = (Err (NoTokenError "No access token available."), (self, w))
  /\ _file_writer filename rounds (self, w)
     = (Err (NoTokenError "No access token available."), (self, w))
  /\ TokenSocketHandler.do_GET (token self)
     = (TokenSocketHandler.do_HEAD,
        Err (NoTokenError "Cannot retreive access token")).
Proof.
  intros Hun.
  split; [|split; [|split]].
  1-3: unfold get_access_token, write_access_token, _file_writer, bind,
         get_self, raise; cbn [fst snd]; rewrite Hun; reflexivity.
  apply TokenSocketFacts.do_GET_without_token.
  destruct (token self) as [[|kv d]|]; [left; reflexivity | | left; reflexivity].
  right. exists (kv :: d). split; [reflexivity|].
  cbn [token_unavailable] in Hun. apply negb_true_iff in Hun. exact Hun.
Qed.

Lemma tmp_name_differs (filename : string) : filename ++ ".new" <> filename.
Proof.
  induction filename as [|c filename IH]; [discriminate|].
  cbn. intros [= Heq]. exact (IH Heq).
Qed.

(** X21.  An [access_token] that is no string makes [write_access_token]
    raise [TypeError] with the [.new] file already opened: an empty
    [.new] file stays behind, and the file itself is as it was. *)
Theorem write_access_token_non_string d v filename self w :
  token self = Some d -> dict_get "access_token" d = Some v ->
  (forall s, v <> JStr s) ->
  exists w' f,
    write_access_token filename (self, w)
    = (Err (TypeError "encoding without a string argument"), (self, w'))
    /\ fs w' !! (filename ++ ".new") = Some f /\ f_data f = []
    /\ forall p, p <> filename ++ ".new" -> fs w' !! p = fs w !! p.
Proof.
  intros Htok Hget Hv.
  destruct (token_item_available d v Hget) as [Hav Hitem].
  assert (Hrun : write_access_token filename (self, w)
                 = _write_and_rename_value v filename (self, w)).
  { unfold write_access_token, bind, get_self, raise, lift. cbn [fst snd].
    rewrite Htok, Hav, Hitem. reflexivity. }
  rewrite Hrun. clear Hrun.
  destruct v as [| b | n | s | l | d']; try (exfalso; exact (Hv s eq_refl)).
  all: unfold _write_and_rename_value, bind, set_world, raise; cbn [fst snd];
    unfold exec_syscalls; cbn [fold_left exec_syscall fs with_fs];
    destruct (fs w !! (filename ++ ".new")) as [f0|] eqn:Hold;
    eexists _, _; (split; [reflexivity|]);
    (split; [apply lookup_insert_eq|]); (split; [reflexivity|]);
    intros p Hp; apply lookup_insert_ne; congruence.
Qed.

(** [_debug] prints or keeps quiet, and touches nothing else. *)
Lemma _debug_frame message self w :
  exists w',
    _debug message (self, w) = (Ok tt, (self, w')) /\ fs w' = fs w.
Proof.
  unfold _debug, bind, get_self, get_world, emit_event, set_world, ret.
  cbn [fst snd].
  destruct (debug self || negb (stderr_isatty w)); eexists; split; reflexivity.
Qed.

(** The end of an iteration: a late refresh lands, then the exit test. *)
Lemma file_writer_iteration_end filename r rest m self w :
  exists wd,
    fs wd = fs w
    /\ bind (match late_refresh r with
            | Some t => set_self (with_token (Some t))
            | None => ret tt
            end)
         (fun _ =>
            if exit_set r
            then bind (_debug "_file_writer: Exiting")
                      (fun _ => ret (Exited m))
            else file_writer_loop filename rest m) (self, w)
       = if exit_set r
         then (Ok (Exited m), (after_late r self, wd))
         else file_writer_loop filename rest m (after_late r self, w).
Proof.
  destruct (_debug_frame "_file_writer: Exiting" (after_late r self) w)
    as (wd & Hd & Hfsd).
  exists wd. split; [exact Hfsd|].
  unfold bind at 1.
  replace (match late_refresh r with
           | Some t => set_self (with_token (Some t))
           | None => ret tt
           end (self, w))
    with (Ok tt, (after_late r self, w))
    by (unfold after_late; destruct (late_refresh r); reflexivity).
  destruct (exit_set r); [|reflexivity].
  unfold bind. rewrite Hd. reflexivity.
Qed.

(** One iteration that does not raise, read backwards. *)
Lemma file_writer_loop_cons_Ok filename r rest m self w st self' w' :
  file_writer_loop filename (r :: rest) m (self, w) = (Ok st, (self', w')) ->
  exists s w1,
    token_item (token (after_refresh r self)) = Ok (JStr s) /\ s <> ""
    /\ ((m = Some s /\ w1 = w)
        \/ (m <> Some s
            /\ fs w1 = <[filename := token_file s]>
                         (delete (filename ++ ".new") (fs w))))
    /\ if exit_set r
       then st = Exited (Some s)
            /\ self' = after_late r (after_refresh r self)
            /\ fs w' = fs w1
       else file_writer_loop filename rest (Some s)
              (after_late r (after_refresh r self), w1)
            = (Ok st, (self', w')).
Proof.
  cbn [file_writer_loop]. unfold bind at 1.
  replace (match refreshed r with
           | Some t => set_self (with_token (Some t))
           | None => ret tt
           end (self, w))
    with (Ok tt, (after_refresh r self, w))
    by (unfold after_refresh; destruct (refreshed r); reflexivity).
  set (self1 := after_refresh r self).
  unfold bind at 1. unfold get_self at 1. cbn [fst snd].
  unfold bind at 1. unfold lift at 1.
  destruct (token_item (token self1)) as [v|e] eqn:Hitem; [|discriminate].
  unfold bind at 1.
  destruct (token_eq m v) eqn:Heq.
  - destruct (str_truthy m) eqn:Htruthy; [|discriminate].
    unfold ret at 1.
    assert (exists s, m = Some s /\ v = JStr s /\ s <> "") as (s & -> & -> & Hs).
    { destruct m as [s|], v; try discriminate.
      cbn [token_eq] in Heq. apply String.eqb_eq in Heq as <-.
      exists s. repeat split. intros ->. discriminate. }
    destruct (file_writer_iteration_end filename r rest (Some s) self1 w)
      as (wd & Hfsd & ->).
    intros Hrun. exists s, w. split; [reflexivity|]. split; [exact Hs|].
    split; [left; split; reflexivity|].
    destruct (exit_set r); [|exact Hrun].
    injection Hrun as <- <- <-. repeat split. exact Hfsd.
  - destruct (py_truthy v) eqn:Htruthy; [|discriminate].
    destruct (_log_frame (writing_msg filename) self1 w)
      as (wl & logged & Hlog & _ & _ & Hfs & _).
    unfold bind at 1. unfold bind at 1. rewrite Hlog.
    unfold bind at 1.
    destruct v as [| b | n | s | l | d'];
      try (unfold _write_and_rename_value, bind, set_world, raise;
           cbn [fst snd]; discriminate).
    unfold _write_and_rename_value, _write_and_rename, set_world.
    unfold ret at 1. cbn [fst snd].
    set (w1 := with_fs (exec_syscalls (umask wl) (fs wl)
                          (_write_and_rename_calls (PyStr s) filename)) wl).
    replace (match late_refresh r with
             | Some t => set_self (with_token (Some t))
             | None => ret tt
             end (self1, w1))
      with (Ok tt, (after_late r self1, w1))
      by (unfold after_late; destruct (late_refresh r); reflexivity).
    intros Hrun. exists s, w1.
    split; [reflexivity|].
    split.
    { intros ->. discriminate. }
    split.
    { right. split.
      - intros ->. cbn [token_eq] in Heq. rewrite String.eqb_refl in Heq.
        discriminate.
      - unfold w1. cbn [fs with_fs].
        rewrite exec_write_and_rename, Hfs. reflexivity. }
    destruct (exit_set r); [|exact Hrun].
    destruct (_debug_frame "_file_writer: Exiting" (after_late r self1) w1)
      as (wd & Hd & Hfsd).
    unfold bind in Hrun. rewrite Hd in Hrun. unfold ret in Hrun.
    injection Hrun as <- <- <-. repeat split. exact Hfsd.
Qed.

Lemma processed_nonempty r rest : processed (r :: rest) <> [].
Proof. cbn [processed]. destruct (exit_set r); discriminate. Qed.

Lemma token_after_late r self :
  token (after_late r self)
  = match late_refresh r with
    | Some t => Some t
    | None => token self
    end.
Proof. unfold after_late. destruct (late_refresh r); reflexivity. Qed.

(** The loop keeps the file in step with its own [my_token], which is
    the token of its last comparison. *)
Lemma file_writer_loop_current filename rounds :
  forall m self w st self' w',
  file_writer_loop filename rounds m (self, w) = (Ok st, (self', w')) ->
  (forall s, m = Some s -> fs w !! filename = Some (token_file s)) ->
  (forall s, last_written st = Some s ->
     fs w' !! filename = Some (token_file s))
  /\ (rounds <> [] ->
      exists s r compared,
        last_written st = Some s /\ s <> ""
        /\ last (processed rounds) = Some r
        /\ token_item compared = Ok (JStr s)
        /\ token self' = match late_refresh r with
                         | Some t => Some t
                         | None => compared
                         end).
Proof.
  induction rounds as [|r rest IH]; intros m self w st self' w' Hrun Hfile.
  - injection Hrun as <- <- <-. split; [exact Hfile | congruence].
  - apply file_writer_loop_cons_Ok in Hrun
      as (s & w1 & Hitem & Hs & Hw1 & Hrest).
    assert (Hfile1 : forall s', Some s = Some s' ->
                       fs w1 !! filename = Some (token_file s')).
    { intros s' [= <-]. destruct Hw1 as [[-> ->] | [_ ->]].
      - apply Hfile. reflexivity.
      - apply lookup_insert_eq. }
    cbn [processed].
    destruct (exit_set r).
    + destruct Hrest as (-> & -> & Hfs). cbn [last_written]. split.
      * intros s' Hs'. rewrite Hfs. apply Hfile1. exact Hs'.
      * intros _. exists s, r, (token (after_refresh r self)).
        split; [reflexivity|]. split; [exact Hs|]. split; [reflexivity|].
        split; [exact Hitem|]. apply token_after_late.
    + destruct (IH _ _ _ _ _ _ Hrest Hfile1) as [Hcur Hlast]. split; [exact Hcur|].
      intros _. destruct rest as [|r' rest'].
      * injection Hrest as <- <- <-.
        exists s, r, (token (after_refresh r self)).
        split; [reflexivity|]. split; [exact Hs|]. split; [reflexivity|].
        split; [exact Hitem|]. apply token_after_late.
      * destruct Hlast as (s1 & r1 & compared & H1 & H2 & H3 & H4 & H5);
          [discriminate|].
        exists s1, r1, compared. split; [exact H1|]. split; [exact H2|].
        split; [|split; assumption].
        rewrite last_cons, H3. reflexivity.
Qed.

(** The thread can return one token behind: a refresh that lands after
    the comparison of the iteration that finds the exit event set is
    not written. *)
Lemma file_writer_returns_behind filename d s t self w :
  token self = Some d -> dict_get "access_token" d = Some (JStr s) ->
  s <> "" ->
  exists w',
    _file_writer filename
      [ {| refreshed := None; late_refresh := Some t; exit_set := true |} ]
      (self, w)
    = (Ok (Exited (Some s)), (with_token (Some t) self, w'))
    /\ fs w' !! filename = Some (token_file s).
Proof.
  intros Htok Hget Hs.
  destruct (token_item_available d (JStr s) Hget) as [Hav Hitem].
  destruct (_file_writer filename
              [ {| refreshed := None; late_refresh := Some t;
                   exit_set := true |} ] (self, w))
    as [[st|e] [self' w']] eqn:Hrun.
  - pose proof Hrun as Hloop.
    unfold _file_writer, bind, get_self, raise in Hloop. cbn [fst snd] in Hloop.
    rewrite Htok, Hav in Hloop.
    pose proof (file_writer_loop_current _ _ _ _ _ _ _ _ Hloop) as [Hcur _];
      [discriminate|].
    apply file_writer_loop_cons_Ok in Hloop
      as (s' & w1 & Hitem' & _ & _ & Hrest).
    cbn [exit_set after_refresh after_late refreshed late_refresh] in *.
    rewrite Htok, Hitem in Hitem'. injection Hitem' as <-.
    destruct Hrest as (-> & -> & _).
    exists w'. split; [reflexivity|]. apply Hcur. reflexivity.
  - exfalso. unfold _file_writer, bind, get_self, raise in Hrun.
    cbn [fst snd] in Hrun. rewrite Htok, Hav in Hrun.
    cbn [file_writer_loop refreshed late_refresh exit_set] in Hrun.
    unfold bind at 1 in Hrun. unfold ret at 1 in Hrun.
    unfold bind at 1 in Hrun. unfold get_self at 1 in Hrun.
    cbn [fst snd] in Hrun.
    unfold bind at 1 in Hrun. unfold lift at 1 in Hrun.
    rewrite Htok, Hitem in Hrun.
    unfold bind at 1 in Hrun. cbn [token_eq py_truthy] in Hrun.
    apply String.eqb_neq in Hs. rewrite Hs in Hrun. cbn [negb] in Hrun.
    destruct (_log_frame (writing_msg filename) self w)
      as (wl & logged & Hlog & _).
    unfold bind at 1 in Hrun. unfold bind at 1 in Hrun. rewrite Hlog in Hrun.
    unfold bind at 1 in Hrun.
    unfold _write_and_rename_value, _write_and_rename, set_world in Hrun.
    unfold ret at 1 in Hrun. cbn [fst snd] in Hrun.
    unfold bind at 1 in Hrun. unfold set_self at 1 in Hrun.
    cbn [fst snd] in Hrun.
    match type of Hrun with
    | context [_debug _ (?o, ?x)] =>
        destruct (_debug_frame "_file_writer: Exiting" o x) as (wd & Hd & _)
    end.
    unfold bind in Hrun. rewrite Hd in Hrun. discriminate.
Qed.


(** X23.  Wake-ups without a new token write nothing: with the token
    unchanged since the last write and nobody asking to stop, any number
    of iterations leaves the object and the world exactly as they
    were. *)
Theorem file_writer_idle filename rounds s self w :
  Forall idle rounds -> s <> "" ->
  token_item (token self) = Ok (JStr s) ->
  file_writer_loop filename rounds (Some s) (self, w)
  = (Ok (Running (Some s)), (self, w)).
Proof.
  intros Hidle Hs Hitem.
  induction Hidle as [|r rest (Hrefreshed & Hlate & Hexit) _ IH];
    [reflexivity|].
  cbn [file_writer_loop]. rewrite Hrefreshed, Hlate, Hexit.
  unfold bind at 1. unfold ret at 1.
  unfold bind at 1. unfold get_self at 1. cbn [fst snd].
  unfold bind at 1. unfold lift at 1. rewrite Hitem.
  unfold bind at 1. cbn [token_eq]. rewrite String.eqb_refl.
  assert (Htruthy : str_truthy (Some s) = true)
    by (destruct s; [congruence | reflexivity]).
  rewrite Htruthy. unfold ret at 1.
  unfold bind at 1. unfold ret at 1. exact IH.
Qed.

(** X24.  A refresh that brings a token without a usable [access_token]
    ends the file writer: the lookup raises [KeyError] when the key is
    missing, and an empty or [None] value raises [NoTokenError].  The
    token file is not touched, so it keeps the previous token. *)
Theorem file_writer_dies_on_unusable_token filename r rest t m e self w :
  refreshed r = Some t ->
  (dict_get "access_token" t = None /\ e = KeyError "access_token")
  \/ (exists v, dict_get "access_token" t = Some v /\ py_truthy v = false
                 /\ e = unavailable_error) ->
  file_writer_loop filename (r :: rest) m (self, w)
  = (Err e, (with_token (Some t) self, w)).
Proof.
  intros Hr Ht. cbn [file_writer_loop]. rewrite Hr.
  unfold bind at 1. unfold set_self at 1. cbn [fst snd].
  unfold bind at 1. unfold get_self at 1. cbn [fst snd].
  unfold bind at 1. unfold lift at 1.
  cbn [token with_token token_item].
  destruct Ht as [[Hget ->] | (v & Hget & Hv & ->)]; rewrite Hget;
    [reflexivity|].
  unfold bind at 1.
  destruct (token_eq m v) eqn:Heq.
  - assert (Htruthy : str_truthy m = false).
    { destruct m as [s|], v; try discriminate; [|reflexivity].
      cbn [token_eq] in Heq. apply String.eqb_eq in Heq as ->.
      cbn [py_truthy] in Hv. apply negb_false_iff, String.eqb_eq in Hv as ->.
      reflexivity. }
    rewrite Htruthy. reflexivity.
  - rewrite Hv. reflexivity.
Qed.

End TokenOutputsFacts.


(** A client that holds the token [t1]. *)
Lemma token_outlets_agree_witness :
  let self := with_token (Some [("access_token", JStr "t1")]) toy_client in
  @get_access_token toy_library (self, toy_world)
  = (Ok (JStr "t1"), (self, toy_world))
  /\ (exists sent,
        TokenSocketHandler.do_GET (token self) = (sent, Ok tt)
        /\ TokenSocketHandler.body sent = encode_utf8 "t1")
  /\ exists w',
       @write_access_token toy_library "token" (self, toy_world)
       = (Ok tt, (self, w'))
       /\ fs w' = <["token" := token_file "t1"]>
                    (delete ("token" ++ ".new") (fs toy_world)).
Proof.
  intros self.
  apply (@token_outlets_agree toy_library [("access_token", JStr "t1")] "t1"
           "token" self toy_world); reflexivity.
Defined.

(** A client that has no token yet. *)
Lemma token_outlets_refuse_witness :
  @get_access_token toy_library (toy_client, toy_world)
  = (Err (NoTokenError "No access token available"), (toy_client, toy_world))
  /\ @write_access_token toy_library "token" (toy_client, toy_world)
     = (Err (NoTokenError "No access token available."),
        (toy_client, toy_world))
  /\ @_file_writer toy_library "token" [] (toy_client, toy_world)
     = (Err (NoTokenError "No access token available."),
        (toy_client, toy_world))
  /\ TokenSocketHandler.do_GET (token toy_client)
     = (TokenSocketHandler.do_HEAD,
        Err (NoTokenError "Cannot retreive access token")).
Proof.
  apply (@token_outlets_refuse toy_library "token" [] toy_client toy_world).
  reflexivity.
Defined.

(** A token whose [access_token] is a number. *)
Lemma write_access_token_non_string_witness :
  let self := with_token (Some [("access_token", JInt 5)]) toy_client in
  exists w' f,
    @write_access_token toy_library "token" (self, toy_world)
    = (Err (TypeError "encoding without a string argument"), (self, w'))
    /\ fs w' !! ("token" ++ ".new") = Some f /\ f_data f = []
    /\ forall p, p <> "token" ++ ".new" -> fs w' !! p = fs toy_world !! p.
Proof.
  intros self.
  apply (@write_access_token_non_string toy_library
           [("access_token", JInt 5)] (JInt 5) "token" self toy_world).
  - reflexivity.
  - reflexivity.
  - discriminate.
Defined.


(** Two wake-ups with the token unchanged. *)
Lemma file_writer_idle_witness :
  let self := with_token (Some [("access_token", JStr "t1")]) toy_client in
  @file_writer_loop toy_library "token"
    [ {| refreshed := None; late_refresh := None; exit_set := false |};
      {| refreshed := None; late_refresh := None; exit_set := false |} ]
    (Some "t1") (self, toy_world)
  = (Ok (Running (Some "t1")), (self, toy_world)).
Proof.
  intros self.
  apply (@file_writer_idle toy_library "token" _ "t1" self toy_world).
  - repeat constructor.
  - discriminate.
  - reflexivity.
Defined.

(** A refresh that brings a token without [access_token]. *)
Lemma file_writer_dies_on_unusable_token_witness :
  let self := with_token (Some [("access_token", JStr "t1")]) toy_client in
  @file_writer_loop toy_library "token"
    [ {| refreshed := Some [("error", JStr "invalid_grant")];
         late_refresh := None; exit_set := false |} ]
    (Some "t1") (self, toy_world)
  = (Err (KeyError "access_token"),
     (with_token (Some [("error", JStr "invalid_grant")]) self, toy_world)).
Proof.
  intros self.
  apply (@file_writer_dies_on_unusable_token toy_library "token" _ []
           [("error", JStr "invalid_grant")] (Some "t1")
           (KeyError "access_token") self toy_world).
  - reflexivity.
  - left. split; reflexivity.
Defined.


(** ** Opening a saved session *)

Section LoadSessionFacts.
Context `{Library} `{!Serialization}.

(** X25.  The key that unlocks the vault is the one the loader returns
    for the first entry it accepts: every entry before it was blank, and
    then not even tried, or was answered by the loader with a
    [ValueError]; the entries after it are left unread. *)
Theorem unlock_loop_accepts pem input out k rest evs :
  unlock_loop pem input out = (Ok k, rest, evs) ->
  exists before password,
    input = (before ++ Line password :: rest)%list
    /\ password <> ""
    /\ load_pem_private_key pem (encode_utf8 password) = Ok k
    /\ Forall (turned_away pem) before.
Proof.
  revert out k rest evs.
  induction input as [|ev input IH]; intros out k rest evs Hrun;
    cbn [unlock_loop] in Hrun; [discriminate|].
  destruct ev as [password|]; [|discriminate].
  destruct (String.eqb_spec password "") as [->|Hne].
  - apply IH in Hrun as (before & pw & -> & Hpw & Hload & Hbefore).
    exists (Line "" :: before), pw. repeat split; try assumption.
    constructor; [|exact Hbefore]. exists "". split; [reflexivity|]. left.
    reflexivity.
  - destruct (load_pem_private_key pem (encode_utf8 password)) as [k'|e]
      eqn:Hload.
    + injection Hrun as <- <- <-. exists [], password.
      repeat split; try assumption. constructor.
    + destruct e; try discriminate.
      apply IH in Hrun as (before & pw & -> & Hpw & Hload' & Hbefore).
      exists (Line password :: before), pw. repeat split; try assumption.
      constructor; [|exact Hbefore]. exists password. split; [reflexivity|].
      right. eexists. exact Hload.
Qed.

(** X26.  When the password loop of [from_saved_session] raises
    [NoPrivateKeyError], the input was cancelled or had ended, and every
    entry typed before that was blank or was answered by the loader with
    a [ValueError]: no entry the loader accepts was passed over, and a
    [ValueError] of the loader for a typed password did not end the
    loop.  The loader itself raises no [NoPrivateKeyError], which is an
    exception of this module. *)
Theorem unlock_loop_cancelled pem input : forall out msg rest evs,
  (forall password m,
     load_pem_private_key pem password <> Err (NoPrivateKeyError m)) ->
  unlock_loop pem input out = (Err (NoPrivateKeyError msg), rest, evs) ->
  msg = "Cannot unlock private key without password."
  /\ exists before,
       Forall (turned_away pem) before
       /\ ((input = before /\ rest = [])
           \/ input = (before ++ Interrupt :: rest)%list).
Proof.
  induction input as [|ev input IH]; intros out msg rest evs Hloader Hrun;
    cbn [unlock_loop] in Hrun.
  - injection Hrun as <- <- _. split; [reflexivity|].
    exists []. split; [constructor | left; split; reflexivity].
  - destruct ev as [password|].
    2:{ injection Hrun as <- <- _. split; [reflexivity|].
        exists []. split; [constructor | right; reflexivity]. }
    assert (Hlater : forall out',
              turned_away pem (Line password) ->
              unlock_loop pem input out'
              = (Err (NoPrivateKeyError msg), rest, evs) ->
              msg = "Cannot unlock private key without password."
              /\ exists before,
                   Forall (turned_away pem) before
                   /\ ((Line password :: input = before /\ rest = [])
                       \/ Line password :: input
                          = (before ++ Interrupt :: rest)%list)).
    { intros out' Haway Hrun'.
      destruct (IH out' msg rest evs Hloader Hrun')
        as (Hmsg & before & Hbefore & Hshape).
      split; [exact Hmsg|]. exists (Line password :: before).
      split; [constructor; assumption|].
      destruct Hshape as [[-> ->] | ->]; [left; split | right]; reflexivity. }
    destruct (String.eqb_spec password "") as [->|Hne].
    + eapply Hlater; [|exact Hrun].
      exists "". split; [reflexivity | left; reflexivity].
    + destruct (load_pem_private_key pem (encode_utf8 password)) as [k'|e']
        eqn:Hload; [discriminate|].
      destruct e'; try discriminate.
      * eapply Hlater; [|exact Hrun].
        exists password. split; [reflexivity|]. right. eexists. exact Hload.
      * exfalso. exact (Hloader _ _ Hload).
Qed.






End LoadSessionFacts.


(** A blank entry, a wrong password, the right one, and a line left
    over. *)
Lemma unlock_loop_accepts_witness :
  let input := [Line ""; Line "wrong"; Line "correct horse"; Line "later"] in
  exists before password,
    input = (before ++ Line password :: [Line "later"])%list
    /\ password <> ""
    /\ @load_pem_private_key _ (vault_serialization vault_loads)
         (encode_utf8 "correct horse") (encode_utf8 password) = Ok tt
    /\ Forall (@turned_away _ (vault_serialization vault_loads)
                 (encode_utf8 "correct horse")) before.
Proof.
  intros input.
  set (r := @unlock_loop _ (vault_serialization vault_loads)
              (encode_utf8 "correct horse") input []).
  apply (@unlock_loop_accepts _ (vault_serialization vault_loads)
           (encode_utf8 "correct horse") input [] tt [Line "later"] (snd r)).
  vm_compute. reflexivity.
Defined.

(** A blank entry and a wrong password, then Ctrl-C. *)
Lemma unlock_loop_cancelled_witness :
  "Cannot unlock private key without password."
  = "Cannot unlock private key without password."
  /\ exists before,
       Forall (@turned_away _ (vault_serialization vault_loads)
                 (encode_utf8 "correct horse")) before
       /\ (([Line ""; Line "wrong"; Interrupt; Line "correct horse"] = before
            /\ [Line "correct horse"] = [])
           \/ [Line ""; Line "wrong"; Interrupt; Line "correct horse"]
              = (before ++ Interrupt :: [Line "correct horse"])%list).
Proof.
  set (r := @unlock_loop _ (vault_serialization vault_loads)
              (encode_utf8 "correct horse")
              [Line ""; Line "wrong"; Interrupt; Line "correct horse"] []).
  apply (@unlock_loop_cancelled _ (vault_serialization vault_loads)
           (encode_utf8 "correct horse")
           [Line ""; Line "wrong"; Interrupt; Line "correct horse"] []
           "Cannot unlock private key without password."
           [Line "correct horse"] (snd r)).
  - intros password m. cbn [load_pem_private_key vault_serialization].
    destruct (String.eqb _ _); discriminate.
  - vm_compute. reflexivity.
Defined.



(** ** The listeners *)

Section ListenersFacts.
Context `{Library}.

Lemma say_frame message st :
  fst (say message st) = fst st /\ fs (snd (say message st)) = fs (snd st)
  /\ umask (snd (say message st)) = umask (snd st).
Proof.
  destruct st as [self w].
  unfold say, _debug, bind, get_self, get_world, emit_event, set_world, ret.
  cbn [fst snd].
  destruct (debug self || negb (stderr_isatty w)); repeat split.
Qed.

(** [_stop_server] in the states in which it returns. *)
Lemma _stop_server_returns l st :
  _server_thread l = _server l ->
  exists st',
    _stop_server l st
    = Ends (Ok tt) {| _server := None; _server_thread := None |} st'
    /\ fst st' = fst st /\ fs (snd st') = fs (snd st).
Proof.
  unfold _stop_server. destruct l as [[s|] [t|]]; cbn [_server _server_thread];
    try discriminate.
  - intros [= ->]. rewrite decide_True by reflexivity.
    eexists. split; [reflexivity|].
    repeat match goal with
           | |- context [say ?m ?x] =>
               let Hs := fresh in
               let Hf := fresh in
               destruct (say_frame m x) as (Hs & Hf & _);
               rewrite ?Hs, ?Hf; clear Hs Hf
           end.
    split; reflexivity.
  - intros _. exists st. repeat split.
Qed.

(** X28.  [_stop_server] never raises, and it returns exactly when the
    thread serves the server that is set, or when there is neither: it
    then leaves no server and no thread, and changes neither the object
    nor any file.  With a server that no thread serves, [shutdown()]
    never returns. *)
Theorem _stop_server_outcome l st :
  (_server_thread l = _server l ->
   exists st',
     _stop_server l st
     = Ends (Ok tt) {| _server := None; _server_thread := None |} st'
     /\ fst st' = fst st /\ fs (snd st') = fs (snd st))
  /\ (_server_thread l <> _server l -> _stop_server l st = Blocks).
Proof.
  split; [apply _stop_server_returns|].
  unfold _stop_server. destruct l as [[s|] [t|]]; cbn [_server _server_thread];
    intros Hne; try congruence.
  - rewrite decide_False; [reflexivity|]. congruence.
  - rewrite decide_False by discriminate. reflexivity.
Qed.

(** X29.  A listener that runs is not started over.  After a
    [start_socket_listener] that returned, a second one, on any file
    name, raises "Server already running" before it looks at the file
    system: the socket of the running listener is not unlinked, and
    [_start_server] refuses as well. *)
Theorem running_listener_is_kept filename other l st l' st' :
  start_socket_listener filename l st = Ends (Ok tt) l' st' ->
  start_socket_listener other l' st'
  = Ends (Err (RuntimeError "Server already running")) l' st'
  /\ _start_server l' st'
     = Ends (Err (RuntimeError "Server thread already running.")) l' st'
  /\ _server l' = Some (TokenSocketServer filename)
  /\ _server_thread l' = _server l'.
Proof.
  unfold start_socket_listener.
  destruct (_server l), (_server_thread l); try discriminate.
  cbn [_start_server _server _server_thread].
  intros [= <- <-]. repeat split.
Qed.

Lemma bind_socket_file_fs filename w :
  fs (bind_socket_file filename w)
  = <[filename := {| f_mode := mode_0600; f_data := [] |}]> (fs w).
Proof.
  unfold bind_socket_file. cbn [fs with_fs].
  rewrite alter_insert_eq. cbn [f_data].
  destruct (fs w !! filename); [apply insert_delete_eq | reflexivity].
Qed.

(** X30.  The token listener can be started once the redirect listener
    was stopped.  From any state in which [_stop_server] returns,
    stopping and then [start_socket_listener] succeeds: the thread
    serves the Unix socket, the socket file has mode 0600 whatever was
    at its name before, and no other file is touched. *)
Theorem listener_restarts filename l st :
  _server_thread l = _server l ->
  exists l1 st1 l2 st2,
    _stop_server l st = Ends (Ok tt) l1 st1
    /\ start_socket_listener filename l1 st1 = Ends (Ok tt) l2 st2
    /\ _server l2 = Some (TokenSocketServer filename)
    /\ _server_thread l2 = Some (TokenSocketServer filename)
    /\ fst st2 = fst st
    /\ fs (snd st2)
       = <[filename := {| f_mode := mode_0600; f_data := [] |}]> (fs (snd st)).
Proof.
  intros Hserving.
  destruct (_stop_server_returns l st Hserving)
    as (st1 & Hstop & Hself & Hfs).
  eexists _, st1, _, _. split; [exact Hstop|].
  unfold start_socket_listener. cbn [_server _server_thread _start_server].
  split; [reflexivity|]. split; [reflexivity|]. split; [reflexivity|].
  cbn [fst snd].
  destruct (say_frame ("Starting HTTP listener on " ++ filename) st1)
    as (Hs & Hf & _).
  split; [congruence|].
  rewrite bind_socket_file_fs, Hf, Hfs. reflexivity.
Qed.

End ListenersFacts.


(** The two cases on the small instance: a redirect listener that is
    served, and one that was set up and never started. *)
Lemma _stop_server_outcome_witness :
  (exists st',
     @_stop_server toy_library
       {| _server := Some (RedirectServer 3000);
          _server_thread := Some (RedirectServer 3000) |}
       (toy_client, toy_world)
     = Ends (Ok tt) {| _server := None; _server_thread := None |} st'
     /\ fst st' = toy_client /\ fs (snd st') = fs toy_world)
  /\ @_stop_server toy_library
       {| _server := Some (RedirectServer 3000); _server_thread := None |}
       (toy_client, toy_world)
     = Blocks.
Proof.
  split.
  - apply (proj1 (@_stop_server_outcome toy_library
                    {| _server := Some (RedirectServer 3000);
                       _server_thread := Some (RedirectServer 3000) |}
                    (toy_client, toy_world))).
    reflexivity.
  - apply (proj2 (@_stop_server_outcome toy_library
                    {| _server := Some (RedirectServer 3000);
                       _server_thread := None |}
                    (toy_client, toy_world))).
    discriminate.
Defined.

(** A second start while the token listener runs. *)
Lemma running_listener_is_kept_witness :
  let l' := {| _server := Some (TokenSocketServer "token.sock");
               _server_thread := Some (TokenSocketServer "token.sock") |} in
  let st' := (toy_client, bind_socket_file "token.sock" toy_world) in
  @start_socket_listener toy_library "other.sock" l' st'
  = Ends (Err (RuntimeError "Server already running")) l' st'
  /\ @_start_server toy_library l' st'
     = Ends (Err (RuntimeError "Server thread already running.")) l' st'
  /\ _server l' = Some (TokenSocketServer "token.sock")
  /\ _server_thread l' = _server l'.
Proof.
  intros l' st'.
  apply (@running_listener_is_kept toy_library "token.sock" "other.sock"
           {| _server := None; _server_thread := None |}
           (toy_client, toy_world) l' st').
  reflexivity.
Defined.

(** The redirect listener is stopped and the token listener started. *)
Lemma listener_restarts_witness :
  exists l1 st1 l2 st2,
    @_stop_server toy_library
      {| _server := Some (RedirectServer 3000);
         _server_thread := Some (RedirectServer 3000) |}
      (toy_client, toy_world)
    = Ends (Ok tt) l1 st1
    /\ @start_socket_listener toy_library "token.sock" l1 st1
       = Ends (Ok tt) l2 st2
    /\ _server l2 = Some (TokenSocketServer "token.sock")
    /\ _server_thread l2 = Some (TokenSocketServer "token.sock")
    /\ fst st2 = fst (toy_client, toy_world)
    /\ fs (snd st2)
       = <["token.sock" := {| f_mode := mode_0600; f_data := [] |}]>
           (fs (snd (toy_client, toy_world))).
Proof.
  apply (@listener_restarts toy_library "token.sock"
           {| _server := Some (RedirectServer 3000);
              _server_thread := Some (RedirectServer 3000) |}
           (toy_client, toy_world)).
  reflexivity.
Defined.
